(** * clean_registry.py: pruning a Docker Registry's repositories directory

    A shallow embedding of [clean_registry.py] and the properties of its
    pruning algorithm.

    - Python strings are [string]s, one character per code point up to 255
      (every class of the two patterns is ASCII); [len] is [String.length].
    - The working directory of the script
      ([<root>/docker/registry/v2/repositories]) is a finite map from the
      relative path of a directory to what the script reads under it, laid out
      as the registry writes it:
      [R/_manifests/tags/T/current/link], [R/_manifests/tags/T/index/sha256/D/]
      and [R/_manifests/revisions/sha256/D/].  A part of the layout that is
      absent on disk is [None]; [os.listdir] on an absent directory raises
      [FileNotFoundError], [glob] simply matches nothing there.  Paths are
      written as [check_name] accepts them and as [os.listdir] gives them,
      components joined by single slashes, and a tag is one component.
    - [glob.iglob] reads the characters [*], [?] and [[] as wildcards also in
      the name of the repository that the script puts in front of its
      patterns: the patterns are matched component by component, as
      [fnmatch.translate] of CPython 3.7 and later reads them, against the
      directories that are there.  A name without these characters stands for
      itself.
    - The script mutates the file system and stops on uncaught exceptions:
      functions of the script are computations in a state-and-exception monad
      whose state survives an exception.  Every [rmtree], every message of
      [error] and every call to the container API is appended to a log.
    - [glob.iglob] is lazy, but lists each directory in full before it yields
      the matches in it, and the loops only remove entries that were listed:
      the matches are computed before the loop runs.
    - Printing "removed directory ..." (the only use of [args.quiet]) is not
      modelled; the removal itself is logged.
    - [argparse] and the Docker SDK are libraries: what [parse_args] makes of
      the command line and what the container API answers are inputs of
      [main]. *)

From Stdlib Require Import ZArith String Ascii List Bool Lia.
From stdpp Require Import base option list gmap strings.

#[local] Set Warnings "-clear-no-such-hyp".

Local Open Scope string_scope.
Local Open Scope Z_scope.

(** ** Python string primitives *)

Module Py.

(** [s.split(sep, 1)] for a one-character separator that occurs in [s]:
    the text before the first separator and the text after it. *)
Fixpoint split_once (sep : ascii) (s : string) : option (string * string) :=
  match s with
  | EmptyString => None
  | String a s' =>
      if Ascii.eqb a sep then Some (EmptyString, s')
      else match split_once sep s' with
           | Some (l, r) => Some (String a l, r)
           | None => None
           end
  end.

(** [s.split(sep)]: every separator cuts, empty pieces are kept. *)
Fixpoint split (sep : ascii) (s : string) : list string :=
  match s with
  | EmptyString => [EmptyString]
  | String a s' =>
      if Ascii.eqb a sep then EmptyString :: split sep s'
      else match split sep s' with
           | piece :: rest => String a piece :: rest
           | [] => [String a EmptyString]
           end
  end.

(** [s[n:]] *)
Fixpoint drop (n : nat) (s : string) : string :=
  match n, s with
  | O, _ => s
  | S n', String _ s' => drop n' s'
  | S _, EmptyString => EmptyString
  end.

(** [s.startswith(c)] for a character [c]. *)
Definition starts_with (c : ascii) (s : string) : bool :=
  match s with
  | String a _ => Ascii.eqb a c
  | EmptyString => false
  end.

(** [len(s)] as a Python integer. *)
Definition len (s : string) : Z := Z.of_nat (String.length s).

(** The values [garbage_collect] may return, with Python's truth value. *)
Inductive value :=
| Int (n : Z)
| Bool (b : bool).

Definition truthy (v : value) : bool :=
  match v with
  | Int n => negb (n =? 0)
  | Bool b => b
  end.

End Py.

(** ** Regular expressions of [re.match] *)

Module Re.

(** An item of a bracket expression: one character or a range. *)
Inductive item :=
| Chr (c : ascii)
| Rng (lo hi : ascii).

Definition in_item (a : ascii) (i : item) : bool :=
  match i with
  | Chr c => Ascii.eqb a c
  | Rng lo hi =>
      (nat_of_ascii lo <=? nat_of_ascii a)%nat && (nat_of_ascii a <=? nat_of_ascii hi)%nat
  end.

Inductive regex :=
| Void
| Eps
| Class (items : list item)
| Cat (r1 r2 : regex)
| Alt (r1 r2 : regex)
| Star (r : regex).

(** [r+] *)
Definition Plus (r : regex) : regex := Cat r (Star r).

Fixpoint nullable (r : regex) : bool :=
  match r with
  | Void => false
  | Eps => true
  | Class _ => false
  | Cat r1 r2 => nullable r1 && nullable r2
  | Alt r1 r2 => nullable r1 || nullable r2
  | Star _ => true
  end.

(** Brzozowski derivative: the words [w] with [a :: w] in the language. *)
Fixpoint deriv (a : ascii) (r : regex) : regex :=
  match r with
  | Void => Void
  | Eps => Void
  | Class items => if existsb (in_item a) items then Eps else Void
  | Cat r1 r2 =>
      if nullable r1 then Alt (Cat (deriv a r1) r2) (deriv a r2)
      else Cat (deriv a r1) r2
  | Alt r1 r2 => Alt (deriv a r1) (deriv a r2)
  | Star r1 => Cat (deriv a r1) (Star r1)
  end.

(** The whole of [s] is a word of [r]. *)
Fixpoint full (r : regex) (s : string) : bool :=
  match s with
  | EmptyString => nullable r
  | String a s' => full (deriv a r) s'
  end.

(** [s] without its last character, when that is a newline. *)
Fixpoint chomp (s : string) : option string :=
  match s with
  | EmptyString => None
  | String a EmptyString => if Ascii.eqb a "010" then Some EmptyString else None
  | String a s' => option_map (String a) (chomp s')
  end.

(** The truth value of [re.match(r + "$", s)].  [re.match] anchors at the
    start of [s]; the backtracking search finds a match whenever some
    prefix is a word of [r] and [$] holds after it, that is at the end of
    [s] or just before a newline that ends [s]. *)
Definition match_dollar (r : regex) (s : string) : bool :=
  full r s || match chomp s with Some s' => full r s' | None => false end.

(** A regex with no word at all, seen on its syntax. *)
Fixpoint void (r : regex) : bool :=
  match r with
  | Void => true
  | Eps => false
  | Class _ => false
  | Cat r1 r2 => void r1 || void r2
  | Alt r1 r2 => void r1 && void r2
  | Star _ => false
  end.

End Re.

(** ** Wildcards of [glob] *)

Module Glob.

(** [glob.has_magic(s)]: one of [*], [?] and [[] occurs in [s]. *)
Definition magic (a : ascii) : bool :=
  Ascii.eqb a "*" || Ascii.eqb a "?" || Ascii.eqb a "[".

Fixpoint has_magic (s : string) : bool :=
  match s with
  | EmptyString => false
  | String a s' => magic a || has_magic s'
  end.

(** What [fnmatch.translate] makes of a pattern, piece by piece: a character
    that stands for itself, [?], [*], and a bracket expression.  The
    characters of a bracket expression come in chunks, and the last
    character of a chunk is the lower end of a range that the first
    character of the next chunk closes. *)
Inductive atom :=
| One (c : ascii)
| AnyChar
| AnySeq
| Bracket (negated : bool) (chunks : list (list ascii)).

(** The text up to the first closing bracket, and the text after it. *)
Fixpoint until_bracket (s : string) : option (list ascii * string) :=
  match s with
  | EmptyString => None
  | String a s' =>
      if Ascii.eqb a "]" then Some ([], s')
      else match until_bracket s' with
           | Some (body, rest) => Some (a :: body, rest)
           | None => None
           end
  end.

(** The text between an opening bracket and the bracket that closes it,
    which is the first one after an optional [!] and an optional []]; [s]
    is the text after the opening bracket. *)
Definition bracket (s : string) : option (list ascii * string) :=
  let '(bang, s1) := match s with
                     | String a s' => if Ascii.eqb a "!" then ([a], s') else ([], s)
                     | EmptyString => ([], s)
                     end in
  let '(lead, s2) := match s1 with
                     | String a s' => if Ascii.eqb a "]" then ([a], s') else ([], s1)
                     | EmptyString => ([], s1)
                     end in
  match until_bracket s2 with
  | Some (body, rest) => Some ((bang ++ lead ++ body)%list, rest)
  | None => None
  end.

(** The chunks of the text between the brackets: a hyphen ends a chunk,
    unless it is among the first [skip] characters; after a hyphen that ends
    a chunk the next two characters are skipped; a hyphen that ends the
    text is put back. *)
Fixpoint split_ranges (skip : nat) (cur stuff : list ascii) : list (list ascii) :=
  match stuff with
  | [] => [cur]
  | c :: stuff' =>
      match skip with
      | S n => split_ranges n (cur ++ [c])%list stuff'
      | O =>
          if Ascii.eqb c "-" then
            match stuff' with
            | [] => [(cur ++ [c])%list]
            | _ => cur :: split_ranges 2 [] stuff'
            end
          else split_ranges 0 (cur ++ [c])%list stuff'
      end
  end.

(** A range whose lower end is above its upper end goes, with both ends;
    the chunks are gone through from the last to the first. *)
Fixpoint drop_empty_ranges (chunks : list (list ascii)) : list (list ascii) :=
  match chunks with
  | [] => []
  | c :: chunks' =>
      match drop_empty_ranges chunks' with
      | [] => [c]
      | d :: ds =>
          match last c, head d with
          | Some lo, Some hi =>
              if (nat_of_ascii hi <? nat_of_ascii lo)%nat
              then (removelast c ++ tail d)%list :: ds
              else c :: d :: ds
          | _, _ => c :: d :: ds
          end
      end
  end.

(** The bracket expression of the text [stuff] between the brackets: an
    exclamation mark that is the first character of what is left negates. *)
Definition bracket_atom (stuff : list ascii) : atom :=
  let skip := match stuff with
              | a :: _ => if Ascii.eqb a "!" then 2%nat else 1%nat
              | [] => 1%nat
              end in
  match drop_empty_ranges (split_ranges skip [] stuff) with
  | (a :: c) :: chunks =>
      if Ascii.eqb a "!" then Bracket true (c :: chunks)
      else Bracket false ((a :: c) :: chunks)
  | chunks => Bracket false chunks
  end.

(** The pieces of a pattern.  An opening bracket that nothing closes stands
    for itself. *)
Fixpoint parse (fuel : nat) (pat : string) : list atom :=
  match fuel, pat with
  | S n, String a pat' =>
      if Ascii.eqb a "*" then AnySeq :: parse n pat'
      else if Ascii.eqb a "?" then AnyChar :: parse n pat'
      else if Ascii.eqb a "[" then
        match bracket pat' with
        | Some (stuff, rest) => bracket_atom stuff :: parse n rest
        | None => One a :: parse n pat'
        end
      else One a :: parse n pat'
  | _, _ => []
  end.

Definition in_range (lo hi x : ascii) : bool :=
  (nat_of_ascii lo <=? nat_of_ascii x)%nat && (nat_of_ascii x <=? nat_of_ascii hi)%nat.

Fixpoint in_chunks (x : ascii) (chunks : list (list ascii)) : bool :=
  match chunks with
  | [] => false
  | c :: chunks' =>
      existsb (Ascii.eqb x) c
      || match last c, chunks' with
         | Some lo, (hi :: _) :: _ => in_range lo hi x
         | _, _ => false
         end
      || in_chunks x chunks'
  end.

Definition match_one (a : atom) (x : ascii) : bool :=
  match a with
  | One c => Ascii.eqb x c
  | AnyChar => true
  | AnySeq => false
  | Bracket negated chunks => xorb negated (in_chunks x chunks)
  end.

(** The whole of [s] matches the pieces. *)
Fixpoint matches (p : list atom) (s : string) : bool :=
  match p with
  | [] => match s with EmptyString => true | _ => false end
  | AnySeq :: p' =>
      (fix skip (s : string) : bool :=
         matches p' s
         || match s with
            | EmptyString => false
            | String _ s' => skip s'
            end) s
  | a :: p' =>
      match s with
      | EmptyString => false
      | String x s' => match_one a x && matches p' s'
      end
  end.

(** [fnmatch.fnmatchcase(name, pat)] *)
Definition fnmatch (name pat : string) : bool :=
  matches (parse (String.length pat) pat) name.

End Glob.

(** ** The name validator *)

Import Re.

(** [[a-zA-Z0-9_][a-zA-Z0-9_.-]*] *)
Definition tag_re : regex :=
  Cat (Class [Rng "a" "z"; Rng "A" "Z"; Rng "0" "9"; Chr "_"])
      (Star (Class [Rng "a" "z"; Rng "A" "Z"; Rng "0" "9"; Chr "_"; Chr "."; Chr "-"])).

(** [[a-z0-9]+(?:SEP[a-z0-9]+)*], where the group SEP is the alternation of
    [[._]], [__] and [[-]*], in that order. *)
Definition path_re : regex :=
  Cat (Plus (Class [Rng "a" "z"; Rng "0" "9"]))
      (Star (Cat (Alt (Alt (Class [Chr "."; Chr "_"])
                           (Cat (Class [Chr "_"]) (Class [Chr "_"])))
                      (Star (Class [Chr "-"])))
                 (Plus (Class [Rng "a" "z"; Rng "0" "9"])))).

(** [image.split(":", 1) if ":" in image else (image, default)] *)
Definition split_image (default image : string) : string * string :=
  match Py.split_once ":" image with
  | Some (repo, tag) => (repo, tag)
  | None => (image, default)
  end.

(** [check_name(image)], as the truth value of what it returns (the chain of
    [and] yields [False], [None], a match object or the result of [all]). *)
Definition check_name (image : string) : bool :=
  let '(repo, tag) := split_image "latest" image in
  (Py.len image <? 256) && (Py.len tag <? 129)
  && match_dollar tag_re tag
  && forallb (match_dollar path_re) (Py.split "/" repo).

(** ** The repositories directory *)

(** [R/_manifests/tags/T/]: the content of [current/link], and the names
    under [index/sha256/]. *)
Record tag_dir := TagDir {
  tag_link : option string;
  tag_index : option (gset string);
}.

(** What the script reads under a directory [R]: the entries of
    [_manifests/tags/] and the names under [_manifests/revisions/sha256/].
    A directory that only holds other repositories has neither. *)
Record repo_dir := RepoDir {
  repo_tags : option (gmap string tag_dir);
  repo_revisions : option (gset string);
}.

(** The directories that [rmtree] is applied to, by their place in the layout. *)
Inductive target :=
| Repo (repo : string)
| Tag (repo tag : string)
| Index (repo tag digest : string)
| Revision (repo digest : string).

(** The path the script builds for a target. *)
Definition path_of (t : target) : string :=
  match t with
  | Repo repo => repo
  | Tag repo tag => repo +:+ "/_manifests/tags/" +:+ tag
  | Index repo tag digest =>
      repo +:+ "/_manifests/tags/" +:+ tag +:+ "/index/sha256/" +:+ digest
  | Revision repo digest => repo +:+ "/_manifests/revisions/sha256/" +:+ digest
  end.

Section Store.
Implicit Types (fs : gmap string repo_dir) (repo tag digest : string).

Definition tags_of fs repo : option (gmap string tag_dir) := fs !! repo ≫= repo_tags.
Definition tag_of fs repo tag : option tag_dir := tags_of fs repo ≫= (.!! tag).
Definition link_of fs repo tag : option string := tag_of fs repo tag ≫= tag_link.
Definition index_of fs repo tag : option (gset string) := tag_of fs repo tag ≫= tag_index.
Definition revisions_of fs repo : option (gset string) := fs !! repo ≫= repo_revisions.

(** The digest a tag points to: the content of its link after ["sha256:"]. *)
Definition current_of fs repo tag : option string := Py.drop 7 <$> link_of fs repo tag.

(** The path [k] is [repo] or lies below it. *)
Definition under repo (k : string) : bool :=
  String.eqb k repo || String.prefix (repo +:+ "/") k.

(** [os.path.isdir(repo)] *)
Definition isdir fs repo : bool := existsb (under repo) (elements (dom fs)).

(** [os.path.isfile(repo + "/_manifests/tags/" + tag + "/current/link")] *)
Definition isfile_link fs repo tag : bool := bool_decide (is_Some (link_of fs repo tag)).

(** [shutil.rmtree] of a target.  The script only ever passes a path that a
    listing or a test just before has shown to exist. *)
Definition rmtree (t : target) fs : gmap string repo_dir :=
  match t with
  | Repo repo => filter (λ kv, under repo kv.1 = false) fs
  | Tag repo tag =>
      alter (λ r, RepoDir (delete tag <$> repo_tags r) (repo_revisions r)) repo fs
  | Index repo tag digest =>
      alter (λ r, RepoDir
                    (alter (λ t, TagDir (tag_link t) ((λ ix, ix ∖ {[digest]}) <$> tag_index t)) tag
                       <$> repo_tags r)
                    (repo_revisions r)) repo fs
  | Revision repo digest =>
      alter (λ r, RepoDir (repo_tags r) ((λ rv, rv ∖ {[digest]}) <$> repo_revisions r)) repo fs
  end.

(** The wildcard of [glob] matches no name that starts with a dot. *)
Definition visible (name : string) : bool := negb (Py.starts_with "." name).

(** A directory entry [name] against one component of a pattern: a
    component without wildcard character stands for itself
    ([glob._glob0]), one with such a character is matched by [fnmatch] and
    finds a name that starts with a dot only if it starts with a dot itself
    ([glob._glob1]). *)
Definition match_name (pattern name : string) : bool :=
  if Glob.has_magic pattern then
    Glob.fnmatch name pattern && (visible name || Py.starts_with "." pattern)
  else String.eqb name pattern.

(** The components of a path against those of a pattern. *)
Fixpoint match_path (patterns names : list string) : bool :=
  match patterns, names with
  | [], [] => true
  | pattern :: patterns', name :: names' =>
      match_name pattern name && match_path patterns' names'
  | _, _ => false
  end.

(** The directories that [glob] goes into for the part [repo] of a pattern
    [repo + "/_manifests/..."]: [repo] itself when it holds no wildcard
    character ([glob.has_magic]), and otherwise the directories whose path
    matches it component by component.  Of these only the ones that hold
    manifests matter. *)
Definition glob_repos fs repo : list string :=
  if Glob.has_magic repo then
    filter (λ k, match_path (Py.split "/" repo) (Py.split "/" k) = true)
           (elements (dom fs))
  else [repo].

(** [glob(repo + "/_manifests/tags/*")]: the directory and the name of each
    match, with what it holds. *)
Definition glob_tags fs repo : list (string * string * tag_dir) :=
  r ← glob_repos fs repo;
  (λ p, (r, p.1, p.2))
    <$> filter (λ p, visible p.1 = true) (map_to_list (default ∅ (tags_of fs r))).

(** [glob(repo + "/_manifests/tags/*/current/link")], as directory and tag. *)
Definition glob_links fs repo : list (string * string) :=
  (filter (λ p, is_Some (tag_link p.2)) (glob_tags fs repo)).*1.

(** [glob(repo + "/_manifests/tags/*/index/sha256/*")], as directory, tag
    and digest. *)
Definition glob_index fs repo : list (string * string * string) :=
  p ← glob_tags fs repo;
  (λ d, (p.1, d)) <$> filter (λ d, visible d = true) (elements (default ∅ (tag_index p.2))).

(** [map(os.path.basename, glob(repo + "/_manifests/tags/*/*/sha256/*"))]:
    the only entry of a tag directory with a [sha256] below it is [index]. *)
Definition glob_manifests fs repo : list string := (glob_index fs repo).*2.

(** [os.listdir(".")]: the first component of every path. *)
Definition listdir_root fs : list string :=
  elements (list_to_set (C := gset string)
              ((λ k, default k (hd_error (Py.split "/" k))) <$> elements (dom fs))).
End Store.

(** ** Effects *)

Inductive event :=
| EvRemoved (t : target)      (* [rmtree] ran *)
| EvError (msg : string)      (* [error] printed a message *)
| EvStop                      (* [docker.api.stop] *)
| EvCollect                   (* the garbage collector ran *)
| EvStart.                    (* [docker.api.start] *)

#[global] Instance target_eq_dec : EqDecision target.
Proof. solve_decision. Defined.

#[global] Instance event_eq_dec : EqDecision event.
Proof. solve_decision. Defined.

Inductive exn :=
| FileNotFoundError (path : string)
| SystemExit (status : Z).

Inductive result (A : Type) :=
| Ok (a : A)
| Raise (e : exn).
Arguments Ok {A} a.
Arguments Raise {A} e.

Record world := World {
  fs : gmap string repo_dir;
  log : list event;
}.

Definition M (A : Type) : Type := world → result A * world.

Definition ret {A} (a : A) : M A := λ w, (Ok a, w).

Definition bind {A B} (m : M A) (k : A → M B) : M B :=
  λ w, match m w with
       | (Ok a, w') => k a w'
       | (Raise e, w') => (Raise e, w')
       end.

Definition raise {A} (e : exn) : M A := λ w, (Raise e, w).

Notation "x <- m ;; k" := (bind m (λ x, k))
  (at level 100, m at next level, right associativity, only parsing).
Notation "m ;;; k" := (bind m (λ _, k))
  (at level 100, right associativity, only parsing).

(** Read the file system. *)
Definition ask {A} (f : gmap string repo_dir → A) : M A := λ w, (Ok (f (fs w)), w).

(** Read a part of it that raises [FileNotFoundError] when absent. *)
Definition need {A} (path : string) (f : gmap string repo_dir → option A) : M A :=
  λ w, match f (fs w) with
       | Some a => (Ok a, w)
       | None => (Raise (FileNotFoundError path), w)
       end.

Definition emit (e : event) : M unit := λ w, (Ok tt, World (fs w) (log w ++ [e])).

(** [for x in l: body(x)] *)
Fixpoint for_each {A} (l : list A) (body : A → M unit) : M unit :=
  match l with
  | [] => ret tt
  | x :: l' => body x ;;; for_each l' body
  end.

(** [error(msg, Exit)] *)
Definition error (msg : string) (Exit : bool) : M unit :=
  emit (EvError msg) ;;;
  if Exit then raise (SystemExit 1) else ret tt.

(** [remove(path)] *)
Definition remove (t : target) : M unit :=
  λ w, (Ok tt, World (rmtree t (fs w)) (log w ++ [EvRemoved t])).

(** [set(os.listdir(repo + "/_manifests/revisions/sha256/"))] *)
Definition listdir_revisions (repo : string) : M (gset string) :=
  need (repo +:+ "/_manifests/revisions/sha256/") (λ fs, revisions_of fs repo).

(** [os.listdir(repo + "/_manifests/tags/" + tag + "/index/sha256/")] *)
Definition listdir_index (repo tag : string) : M (list string) :=
  need (repo +:+ "/_manifests/tags/" +:+ tag +:+ "/index/sha256/")
       (λ fs, elements <$> index_of fs repo tag).

(** [os.listdir(repo + "/_manifests/tags/")] *)
Definition listdir_tags (repo : string) : M (list string) :=
  need (repo +:+ "/_manifests/tags/") (λ fs, (λ m, elements (dom m)) <$> tags_of fs repo).

(** [open(link).read()] for the link of a tag. *)
Definition read_link (repo tag : string) : M string :=
  need (repo +:+ "/_manifests/tags/" +:+ tag +:+ "/current/link") (λ fs, link_of fs repo tag).

(** ** The pruner *)

(** [clean_revisions(repo)] *)
Definition clean_revisions (repo : string) : M unit :=
  revisions <- listdir_revisions repo ;;
  manifests <- ask (λ fs, list_to_set (C := gset string) (glob_manifests fs repo)) ;;
  for_each (elements (revisions ∖ manifests)) (λ revision, remove (Revision repo revision)).

(** The command line after [parser.parse_args()]. *)
Record arguments := Args {
  args_help : bool;
  args_quiet : bool;
  args_remove : bool;
  args_version : bool;
  args_container : string;
  args_images : list string;
}.

(** What [parser.parse_args()] makes of the command line: the arguments, or,
    for a command line that it rejects (an unknown option, no CONTAINER),
    a usage message and the end of the process with status 2. *)
Inductive command_line :=
| Rejected
| Parsed (args : arguments).

Coercion Parsed : arguments >-> command_line.

(** What the script finds around it: whether it runs inside a container,
    whether [RegistryCleaner.__init__] gets through its checks, the exit
    status of the garbage collector, and how [Container.wait] of the Docker
    SDK hands that status over: as an integer before release 3.0 of the
    SDK, in a dictionary since. *)
Record environment := Env {
  dockerized : bool;
  registry_found : bool;
  collector_status : Z;
  wait_gives_dict : bool;
}.

(** [cli.wait() == 0]: a dictionary is not equal to 0. *)
Definition wait_equals_zero (env : environment) : bool :=
  negb (wait_gives_dict env) && (collector_status env =? 0).

Section Cleaner.
(** The global [args]. *)
Variable args : arguments.

(** [clean_tag(repo, tag)] *)
Definition clean_tag (repo tag : string) : M bool :=
  found <- ask (λ fs, isfile_link fs repo tag) ;;
  if negb found then
    error ("No such tag: " +:+ tag +:+ " in repository " +:+ repo) false ;;;
    ret false
  else
    (if args_remove args then
       remove (Tag repo tag)
     else
       content <- read_link repo tag ;;
       let current := Py.drop 7 content in
       entries <- listdir_index repo tag ;;
       for_each entries (λ index,
         if String.eqb index current then ret tt
         else remove (Index repo tag index)) ;;;
       clean_revisions repo) ;;;
    ret true.

(** The loop of [clean_repo] that collects the current digests. *)
Fixpoint read_currents (links : list (string * string)) (currents : gset string)
  : M (gset string) :=
  match links with
  | [] => ret currents
  | link :: links' =>
      content <- read_link link.1 link.2 ;;
      read_currents links' (currents ∪ {[Py.drop 7 content]})
  end.

(** [clean_repo(image)] *)
Definition clean_repo (image : string) : M bool :=
  let '(repo, tag) := split_image "" image in
  found <- ask (λ fs, isdir fs repo) ;;
  if negb found then
    error ("No such repository: " +:+ repo) false ;;;
    ret false
  else
    whole <- (if args_remove args then
                tags <- listdir_tags repo ;;
                ret (String.eqb tag "" || (length tags =? 1)%nat && bool_decide (tag ∈ tags))
              else ret false) ;;
    if (whole : bool) then
      remove (Repo repo) ;;;
      ret true
    else if negb (String.eqb tag "") then
      clean_tag repo tag
    else
      links <- ask (λ fs, glob_links fs repo) ;;
      currents <- read_currents links ∅ ;;
      indexes <- ask (λ fs, glob_index fs repo) ;;
      for_each indexes (λ index,
        if bool_decide (index.2 ∈ currents) then ret tt
        else remove (Index index.1.1 index.1.2 index.2)) ;;;
      clean_revisions repo ;;;
      ret true.
End Cleaner.

(** ** The orchestrator *)

Section RegistryCleaner.
Variable args : arguments.
Variable env : environment.

(** [RegistryCleaner.__init__]: inspecting the container and finding the
    registry directory are left to the environment; when a check fails,
    [error] ends the process. *)
Definition RegistryCleaner_init : M unit :=
  if registry_found env then ret tt
  else error "The registry container could not be used" true.

(** [RegistryCleaner.garbage_collect]: [status] is [proc.wait()] inside a
    container and [True if cli.wait() == 0 else False] outside.  The
    collector sweeps blobs and leaves the repositories directory alone. *)
Definition garbage_collect : M Py.value :=
  emit EvCollect ;;;
  if dockerized env then ret (Py.Int (collector_status env))
  else ret (Py.Bool (wait_equals_zero env)).

(** The loop of [__call__] over the images, threading [rc]. *)
Fixpoint clean_all (images : list string) (rc : Z) : M Z :=
  match images with
  | [] => ret rc
  | image :: images' =>
      ok <- clean_repo args image ;;
      clean_all images' (if negb ok then 1 else rc)
  end.

(** [RegistryCleaner.__call__] *)
Definition RegistryCleaner_call : M Z :=
  emit EvStop ;;;
  images <- (match args_images args with
             | [] => ask listdir_root
             | given => ret given
             end) ;;
  rc <- clean_all images 0 ;;
  status <- garbage_collect ;;
  let rc := if negb (Py.truthy status) then 1 else rc in
  emit EvStart ;;;
  ret rc.

End RegistryCleaner.

(** [main()]: [parser.parse_args()] sets the global [args] or ends the
    process. *)
Definition main (cmd : command_line) (env : environment) : M unit :=
  match cmd with
  | Rejected => raise (SystemExit 2)
  | Parsed args =>
      if args_help args then raise (SystemExit 0)
      else if args_version args then raise (SystemExit 0)
      else
        for_each (args_images args) (λ image,
          if negb (check_name image) then
            error ("Invalid Docker repository/tag: " +:+ image) true
          else ret tt) ;;;
        (if args_remove args && match args_images args with [] => true | _ => false end then
           error "The -x option requires that you specify at least one repository..." true
         else ret tt) ;;;
        RegistryCleaner_init env ;;;
        rc <- RegistryCleaner_call args env ;;
        raise (SystemExit rc)
  end.

(** The exit status of the process: that of [sys.exit], and 1 when an
    exception reaches the top level. *)
Definition exit_status {A} (r : result A) : Z :=
  match r with
  | Ok _ => 0
  | Raise (SystemExit status) => status
  | Raise (FileNotFoundError _) => 1
  end.

(** ** Vocabulary of the properties *)

Section Vocabulary.
Implicit Types (fs : gmap string repo_dir) (repo tag digest : string).

(** [digest] is in the index set of [tag]. *)
Definition has_index fs repo tag digest : Prop :=
  ∃ ix, index_of fs repo tag = Some ix ∧ digest ∈ ix.

(** [digest] has a revision in [repo]. *)
Definition has_revision fs repo digest : Prop :=
  ∃ rv, revisions_of fs repo = Some rv ∧ digest ∈ rv.

(** The digests that the wildcards of [glob] find as current pointers. *)
Definition currents_of fs repo : gset string :=
  list_to_set (omap (λ link, current_of fs link.1 link.2) (glob_links fs repo)).

(** Some tag of [repo] has [digest] as its current digest. *)
Definition referenced fs repo digest : bool :=
  bool_decide (digest ∈ omap (λ p, Py.drop 7 <$> tag_link p.2)
                          (map_to_list (default ∅ (tags_of fs repo)))).

(** What a computation appended to the log. *)
Definition events_of {A} (m : M A) (w : world) : list event :=
  drop (length (log w)) (log (m w).2).

(** The targets removed in a list of events. *)
Definition removed (evs : list event) : list target :=
  omap (λ e, match e with EvRemoved t => Some t | _ => None end) evs.

(** How often the collector ran and how often the server was started. *)
Definition collections (evs : list event) : nat :=
  length (filter (λ e, e = EvCollect) evs).
Definition starts (evs : list event) : nat :=
  length (filter (λ e, e = EvStart) evs).

(** Tags and digests are named as the registry names them: a tag starts with
    a letter, a digit or an underscore, as [check_name] also demands, and a
    digest is hexadecimal, so that no name starts with a dot. *)
Definition plain_names fs repo : Prop :=
  ∀ t td, tag_of fs repo t = Some td →
    visible t = true ∧
    (∀ c, tag_link td = Some c → visible (Py.drop 7 c) = true).

(** The current digest of every tag is in the index set of that tag. *)
Definition current_in_index fs repo : Prop :=
  ∀ t d, current_of fs repo t = Some d → has_index fs repo t d.
End Vocabulary.

Section Removals.
Implicit Types (fs : gmap string repo_dir) (repo tag digest : string).

(** [rmtree] of each target in turn. *)
Definition rmtrees (ts : list target) fs : gmap string repo_dir :=
  foldl (λ fs t, rmtree t fs) fs ts.

(** The world after the removals [ts]. *)
Definition after (ts : list target) (w : world) : world :=
  World (rmtrees ts (fs w)) (log w ++ (EvRemoved <$> ts)).

(** The revisions that [clean_revisions] removes when the revisions
    directory lists [rv]. *)
Definition orphans fs repo (rv : gset string) : list target :=
  Revision repo <$> elements (rv ∖ list_to_set (glob_manifests fs repo)).

(** The index entries that [clean_tag] removes from the index [ix] of a tag
    whose current digest is [current]. *)
Definition stale_of_tag repo tag (current : string) (ix : gset string) : list target :=
  Index repo tag <$> filter (λ index, String.eqb index current = false) (elements ix).

(** The index entries that [clean_repo] removes when it prunes all tags. *)
Definition stale_of_repo fs repo : list target :=
  (λ index, Index index.1.1 index.1.2 index.2)
    <$> filter (λ index, bool_decide (index.2 ∈ currents_of fs repo) = false)
          (glob_index fs repo).

(** The world after [error(msg, Exit=False)]. *)
Definition reported (msg : string) (w : world) : world :=
  World (fs w) (log w ++ [EvError msg]).

(** An index entry or a revision, the two things a prune removes. *)
Definition prunable (t : target) : Prop :=
  match t with
  | Index _ _ _ | Revision _ _ => True
  | Repo _ | Tag _ _ => False
  end.

(** What a prune may remove from the file system [fs]: an index entry that
    is not the current digest of its tag, or a revision. *)
Definition prune_removal fs (t : target) : Prop :=
  match t with
  | Index repo tag digest => current_of fs repo tag ≠ Some digest
  | Revision _ _ => True
  | Repo _ | Tag _ _ => False
  end.

(** Two states of the file system with the same directories, tags and
    current pointers, which differ at most in the entries of index sets and
    of revision sets. *)
Record same_frame fs fs' : Prop := SameFrame {
  frame_dom : dom fs' = dom fs;
  frame_tags : ∀ repo, dom <$> tags_of fs' repo = dom <$> tags_of fs repo;
  frame_link : ∀ repo tag, link_of fs' repo tag = link_of fs repo tag;
  frame_index : ∀ repo tag, is_Some (index_of fs' repo tag) ↔ is_Some (index_of fs repo tag);
  frame_revisions : ∀ repo, is_Some (revisions_of fs' repo) ↔ is_Some (revisions_of fs repo);
}.
End Removals.

(** An event of the pruner itself, as opposed to a call to the container API. *)
Definition internal (e : event) : Prop :=
  match e with
  | EvRemoved _ | EvError _ => True
  | EvStop | EvCollect | EvStart => False
  end.

(** A computation that only appends events of the pruner to the log and
    raises nothing but [FileNotFoundError]. *)
Definition tame {A} (m : M A) : Prop :=
  ∀ w, (∃ evs, log (m w).2 = (log w ++ evs)%list ∧ Forall internal evs)
       ∧ (∀ e, (m w).1 = Raise e → ∃ path, e = FileNotFoundError path).

(** What [garbage_collect] returns. *)
Definition collector_value (env : environment) : Py.value :=
  if dockerized env then Py.Int (collector_status env)
  else Py.Bool (wait_equals_zero env).

(** The images that [__call__] works on in the file system [fs]. *)
Definition batch (args : arguments) (fs : gmap string repo_dir) : list string :=
  match args_images args with
  | [] => listdir_root fs
  | given => given
  end.

(** The world after the collector and [docker.api.start]. *)
Definition collected (w : world) : world := World (fs w) (log w ++ [EvCollect; EvStart]).

(** The world after [docker.api.stop]. *)
Definition stopped (w : world) : world := World (fs w) (log w ++ [EvStop]).

(** The item [image] of a batch cannot be found: its directory is missing, or
    its tag is given and has no current pointer.  Under the remove flag
    [clean_repo] lists the tags directory before it looks at the pointer: the
    listing has to be there and has to name something else than just the
    tag. *)
Definition missing (args : arguments) (fs : gmap string repo_dir) (image : string) : Prop :=
  let repo := (split_image "" image).1 in
  let tag := (split_image "" image).2 in
  isdir fs repo = false
  ∨ (tag ≠ "" ∧ link_of fs repo tag = None
     ∧ (args_remove args = true → ∃ m, tags_of fs repo = Some m ∧ dom m ≠ {[tag]})).

(** ** The example repository

    A repository [r] with the tags [t1], pointing to [d1], and [t2], pointing
    to [d2]; the index of [t1] lists [d1] and [d3], the index of [t2] lists
    [d2] and [d4]; the revisions are [d1], [d2], [d3] and [d4]. *)

Definition example_tag (current : string) (listed : list string) : tag_dir :=
  TagDir (Some ("sha256:" +:+ current)) (Some (list_to_set listed)).

Definition example_store : gmap string repo_dir :=
  {[ "r" := RepoDir (Some (<["t1" := example_tag "d1" ["d1"; "d3"]]>
                            {["t2" := example_tag "d2" ["d2"; "d4"]]}))
                    (Some (list_to_set ["d1"; "d2"; "d3"; "d4"])) ]}.

Definition example_world : world := World example_store [].

(** A repository whose only tag directory has an index and no current
    pointer, as a push leaves it that is interrupted between the two links. *)
Definition unlinked_store : gmap string repo_dir :=
  {[ "r" := RepoDir (Some {["t1" := TagDir None (Some {["d1"]})]}) (Some {["d1"]}) ]}.

(** A repository with a tag directory whose name starts with a dot, beside
    the tag [t1]; each tag has its current digest in its index. *)
Definition hidden_tag_store : gmap string repo_dir :=
  {[ "r" := RepoDir (Some (<["t1" := example_tag "d1" ["d1"]]>
                            {[".t3" := example_tag "d5" ["d5"]]}))
                    (Some (list_to_set ["d1"; "d5"])) ]}.

(** A directory whose name holds a bracket expression, as [os.listdir] may
    give it, beside the directory that the expression matches. *)
Definition bracket_store : gmap string repo_dir :=
  <["a[b]" := RepoDir (Some {["t1" := example_tag "d1" ["d1"; "d3"]]})
                      (Some (list_to_set ["d1"; "d3"]))]>
    {[ "ab" := RepoDir (Some {["t1" := example_tag "d5" ["d5"; "d6"]]})
                       (Some (list_to_set ["d5"; "d6"])) ]}.

(** No flag, no image. *)
Definition prune_args : arguments := Args false false false false "registry" [].

(** The remove flag. *)
Definition remove_args : arguments := Args false false true false "registry" [].

(** A batch whose first item names a tag that [r] does not have. *)
Definition partial_args : arguments :=
  Args false false false false "registry" ["r:nope"; "r"].


(** A batch with a name that [check_name] rejects. *)
Definition invalid_args : arguments :=
  Args false false false false "registry" ["Library/Ubuntu"].

(** The repository [r], and the environments of a script that runs inside a
    container and finds the collector failing, or succeeding. *)
Definition single_args : arguments := Args false false false false "registry" ["r"].
Definition failing_collector : environment := Env true true 1 false.
Definition working_collector : environment := Env true true 0 false.

(** A script that runs outside a container, with a Docker SDK whose
    [Container.wait] returns the exit status as an integer. *)
Definition outside : environment := Env false true 0 false.

(** ** Vocabulary of the further properties *)

(** The repository that a target lies in. *)
Definition target_repo (t : target) : string :=
  match t with
  | Repo repo | Tag repo _ | Index repo _ _ | Revision repo _ => repo
  end.

(** A message of [error]. *)
Definition is_error (e : event) : Prop :=
  match e with
  | EvError _ => True
  | _ => False
  end.

(** Nothing is in [fs'] that was not in [fs]: no directory, no tag, no
    current pointer, no index entry and no revision. *)
Record nothing_new (fs fs' : gmap string repo_dir) : Prop := NothingNew {
  old_dom : dom fs' ⊆ dom fs;
  old_tag : ∀ repo tag, is_Some (tag_of fs' repo tag) → is_Some (tag_of fs repo tag);
  old_link : ∀ repo tag c, link_of fs' repo tag = Some c → link_of fs repo tag = Some c;
  old_index : ∀ repo tag d, has_index fs' repo tag d → has_index fs repo tag d;
  old_revision : ∀ repo d, has_revision fs' repo d → has_revision fs repo d;
}.

(** Some bracket expression of [r] holds the character [a]. *)
Fixpoint mentions (a : ascii) (r : regex) : bool :=
  match r with
  | Void | Eps => false
  | Class items => existsb (in_item a) items
  | Cat r1 r2 | Alt r1 r2 => mentions a r1 || mentions a r2
  | Star r1 => mentions a r1
  end.

(** [a in s] for a character [a]. *)
Fixpoint contains (a : ascii) (s : string) : bool :=
  match s with
  | EmptyString => false
  | String b s' => Ascii.eqb b a || contains a s'
  end.

(** The line feed, which [$] lets pass at the end of a string. *)
Definition newline : ascii := "010"%char.

(** The characters of [[a-zA-Z0-9_.-]], which a tag is made of. *)
Definition tag_char (a : ascii) : bool :=
  existsb (in_item a) [Rng "a" "z"; Rng "A" "Z"; Rng "0" "9"; Chr "_"; Chr "."; Chr "-"].

(** The characters of [[a-z0-9]], which a component of a repository name
    starts with. *)
Definition lower_alnum (a : ascii) : bool :=
  existsb (in_item a) [Rng "a" "z"; Rng "0" "9"].

(** The characters of [[a-z0-9._-]], which a component of a repository name
    is made of. *)
Definition path_char (a : ascii) : bool :=
  existsb (in_item a) [Rng "a" "z"; Rng "0" "9"; Chr "."; Chr "_"; Chr "-"].

(** The string of one line feed. *)
Definition nl : string := String newline EmptyString.

(** ** Finding the registry directory *)

(** What [RegistryCleaner.get_registry_dir] reads: the variable in the
    environment of the script, the [Config.Env], [Args] and [Mounts] of the
    inspected container (a mount as destination and source), the
    configuration file of the registry, and whether the script runs inside
    a container. *)
Inductive config_file :=
| NoFile                          (* [get_file] finds no such file *)
| NoRootDirectory                 (* no [storage.filesystem.rootdirectory] *)
| RootDirectory (dir : string).

Record host := Host {
  getenv_rootdirectory : option string;
  info_Env : list string;
  info_Args : list string;
  info_Mounts : list (string * string);
  read_config : string → config_file;
  host_dockerized : bool;
}.

(** How a call of [get_registry_dir] ends: with a value, which is [None]
    when the function falls off its end, with the [ValueError] of an
    unpacking, with the [IndexError] of an empty [Args], or in [error]. *)
Inductive registry_dir_result :=
| Returned (dir : option string)
| ValueError
| IndexError
| Exits (status : Z).

Definition ROOTDIRECTORY : string := "REGISTRY_STORAGE_FILESYSTEM_ROOTDIRECTORY".

(** The loop over [Config.Env]: [var, value = env.split("=", 1)] needs an
    equals sign in every entry up to the one for the variable, where the
    loop breaks.  [None] is the [ValueError]. *)
Fixpoint scan_env (envs : list string) : option string :=
  match envs with
  | [] => Some EmptyString
  | env :: envs' =>
      match Py.split_once "=" env with
      | None => None
      | Some (var, value) =>
          if String.eqb var ROOTDIRECTORY then Some value else scan_env envs'
      end
  end.

(** The loop over [Mounts]. *)
Definition mount_source (mounts : list (string * string)) (dir : string) : option string :=
  snd <$> List.find (λ item, String.eqb item.1 dir) mounts.

(** [RegistryCleaner.get_registry_dir] *)
Definition get_registry_dir (h : host) : registry_dir_result :=
  let finish (registry_dir : string) :=
    if host_dockerized h then Returned (Some registry_dir)
    else Returned (mount_source (info_Mounts h) registry_dir) in
  match getenv_rootdirectory h with
  | Some (String a s) => Returned (Some (String a s))
  | _ =>
      match scan_env (info_Env h) with
      | None => ValueError
      | Some (String a s) => finish (String a s)
      | Some EmptyString =>
          match info_Args h with
          | [] => IndexError
          | config_yml :: _ =>
              match read_config h config_yml with
              | NoFile => Exits 1
              | NoRootDirectory => Exits 1
              | RootDirectory dir => finish dir
              end
          end
      end
  end.

(** An entry of [Config.Env] for another variable. *)
Definition other_entry (env : string) : Prop :=
  ∃ var value, Py.split_once "=" env = Some (var, value) ∧ var ≠ ROOTDIRECTORY.

(** A container whose [Config.Env] names the directory after an entry for
    another variable and before an entry without an equals sign. *)
Definition example_host : host :=
  Host None
       ["PATH=/bin"; "REGISTRY_STORAGE_FILESYSTEM_ROOTDIRECTORY=/data"; "broken"]
       ["/etc/docker/registry/config.yml"]
       [("/cache", "/srv/cache"); ("/data", "/srv/registry")]
       (λ _, NoFile) false.

(** ** Further example stores *)

(** The example repository [r] with a second repository [s] beside it. *)
Definition neighbour_store : gmap string repo_dir :=
  <["s" := RepoDir (Some {["t1" := example_tag "d9" ["d9"]]}) (Some {["d9"]})]>
    example_store.

(** A repository below a namespace directory: [library] is a directory of
    the registry root and holds no repository itself. *)
Definition namespace_store : gmap string repo_dir :=
  {[ "library/ubuntu" :=
       RepoDir (Some {["18.04" := example_tag "d1" ["d1"]]}) (Some {["d1"]}) ]}.

(** A script that runs outside a container, with a Docker SDK whose
    [Container.wait] returns a dictionary, and a collector that succeeds. *)
Definition outside_sdk3 : environment := Env false true 0 true.

(** A directory whose name holds a bracket expression and that no pattern
    matches, not even its own name. *)
Definition lone_bracket_store : gmap string repo_dir :=
  {[ "a[b]" := RepoDir (Some {["t1" := example_tag "d1" ["d1"]]}) (Some {["d1"]}) ]}.
(** * Properties *)

(** ** The name validator *)

Section Validator.

Lemma void_nullable r : void r = true → nullable r = false.
Proof.
  induction r as [| | |r1 IH1 r2 IH2|r1 IH1 r2 IH2|]; simpl; try done.
  - intros [H|H]%orb_true_iff; [rewrite IH1 | rewrite IH2]; try done.
    apply andb_false_r.
  - intros [H1 H2]%andb_true_iff. by rewrite IH1, IH2.
Qed.

Lemma void_deriv a r : void r = true → void (deriv a r) = true.
Proof.
  induction r as [| | |r1 IH1 r2 IH2|r1 IH1 r2 IH2|]; simpl; try done.
  - intros [H|H]%orb_true_iff.
    + rewrite (void_nullable r1 H). simpl. by rewrite IH1.
    + destruct (nullable r1); simpl; rewrite ?IH2, ?H; try done;
        by rewrite ?orb_true_r.
  - intros [H1 H2]%andb_true_iff. by rewrite IH1, IH2.
Qed.

Lemma void_full r s : void r = true → full r s = false.
Proof.
  revert r. induction s as [|a s IH]; intros r H; simpl.
  - by apply void_nullable.
  - by apply IH, void_deriv.
Qed.

(** A word of [tag_re] starts with neither a dot nor a dash. *)
Lemma tag_re_first c s :
  c = "."%char ∨ c = "-"%char → Py.starts_with c s = true → full tag_re s = false.
Proof.
  intros Hc Hs. destruct s as [|a s]; [done|].
  simpl in Hs. apply Ascii.eqb_eq in Hs. subst a.
  destruct Hc as [-> | ->]; simpl; by apply void_full.
Qed.

Lemma chomp_starts_with c s s' :
  c ≠ "010"%char → Py.starts_with c s = true → chomp s = Some s' →
  Py.starts_with c s' = true.
Proof.
  intros Hc Hs Hch. destruct s as [|a s]; [done|].
  simpl in Hs. apply Ascii.eqb_eq in Hs. subst a.
  destruct s as [|b s].
  - simpl in Hch. destruct (Ascii.eqb_spec c "010"); done.
  - change (option_map (String c) (chomp (String b s)) = Some s') in Hch.
    destruct (chomp (String b s)); simplify_eq/=. apply Ascii.eqb_refl.
Qed.

Lemma tag_re_rejects c tag :
  c = "."%char ∨ c = "-"%char → Py.starts_with c tag = true →
  match_dollar tag_re tag = false.
Proof.
  intros Hc Hs. unfold match_dollar.
  rewrite (tag_re_first c tag Hc Hs). simpl.
  destruct (chomp tag) as [s'|] eqn:Hch; [|done].
  apply (tag_re_first c); [done|].
  apply (chomp_starts_with c tag); [|done..].
  by destruct Hc as [-> | ->].
Qed.

(** Splitting at the first colon gives back the two parts of [repo:tag]. *)
Lemma split_once_app repo tag :
  Py.split_once ":" repo = None →
  Py.split_once ":" (repo +:+ ":" +:+ tag) = Some (repo, tag).
Proof.
  induction repo as [|a repo IH]; simpl; [done|].
  destruct (Ascii.eqb a ":"); [done|].
  destruct (Py.split_once ":" repo) as [[??]|] eqn:E; [done|].
  intros _. by rewrite IH.
Qed.

Lemma check_name_tag_rejected (image : string) :
  let tag := (split_image "latest" image).2 in
  129 ≤ Py.len tag ∨ Py.starts_with "." tag = true ∨ Py.starts_with "-" tag = true →
  check_name image = false.
Proof.
  unfold check_name. destruct (split_image "latest" image) as [repo tag]. simpl.
  intros [Hlen | [Hdot | Hdash]].
  - replace (Py.len tag <? 129) with false by (symmetry; apply Z.ltb_ge; lia).
    by rewrite andb_false_r.
  - rewrite (tag_re_rejects "." tag); [|by left|done]. by rewrite andb_false_r.
  - rewrite (tag_re_rejects "-" tag); [|by right|done]. by rewrite andb_false_r.
Qed.

(** C9.  [check_name] rejects every image whose tag part, as the function
    itself splits it off, has 129 characters or more, or starts with a dot
    or with a dash; in particular it rejects [repo:tag] for every [repo]
    without a colon and every such [tag]. *)
Theorem check_name_rejects_tag :
  (∀ image,
     let tag := (split_image "latest" image).2 in
     129 ≤ Py.len tag ∨ Py.starts_with "." tag = true ∨ Py.starts_with "-" tag = true →
     check_name image = false)
  ∧ (∀ repo tag,
       Py.split_once ":" repo = None →
       129 ≤ Py.len tag ∨ Py.starts_with "." tag = true ∨ Py.starts_with "-" tag = true →
       check_name (repo +:+ ":" +:+ tag) = false).
Proof.
  split; [apply check_name_tag_rejected|].
  intros repo tag Hrepo Htag. apply check_name_tag_rejected.
  unfold split_image. by rewrite split_once_app.
Qed.

Lemma check_name_rejects_tag_witness :
  Py.split_once ":" "library/ubuntu" = None
  ∧ Py.starts_with "-" "-rc1" = true
  ∧ check_name "library/ubuntu:-rc1" = false.
Proof.
  split; [reflexivity|]. split; [reflexivity|].
  apply (proj2 check_name_rejects_tag "library/ubuntu" "-rc1"); [reflexivity|].
  right. right. reflexivity.
Defined.

End Validator.

(** ** The file system under [rmtree] *)

Section StoreFacts.
Implicit Types (fs : gmap string repo_dir) (repo tag digest : string).

Lemma same_frame_refl fs : same_frame fs fs.
Proof. by split. Qed.

Lemma same_frame_trans fs1 fs2 fs3 :
  same_frame fs1 fs2 → same_frame fs2 fs3 → same_frame fs1 fs3.
Proof.
  intros [H1 H2 H3 H4 H5] [G1 G2 G3 G4 G5]. split; intros.
  - by rewrite G1.
  - by rewrite G2.
  - by rewrite G3.
  - by rewrite G4.
  - by rewrite G5.
Qed.

Lemma tags_of_alter (f : repo_dir → repo_dir) r0 fs repo :
  tags_of (alter f r0 fs) repo =
  if decide (r0 = repo) then fs !! repo ≫= (λ r, repo_tags (f r)) else tags_of fs repo.
Proof.
  unfold tags_of. rewrite lookup_alter. case_decide; [subst|done].
  by destruct (fs !! repo).
Qed.

Lemma revisions_of_alter (f : repo_dir → repo_dir) r0 fs repo :
  revisions_of (alter f r0 fs) repo =
  if decide (r0 = repo) then fs !! repo ≫= (λ r, repo_revisions (f r)) else revisions_of fs repo.
Proof.
  unfold revisions_of. rewrite lookup_alter. case_decide; [subst|done].
  by destruct (fs !! repo).
Qed.

(** Removing an index entry. *)
Lemma tag_of_rmtree_index r0 t0 d0 fs repo tag :
  tag_of (rmtree (Index r0 t0 d0) fs) repo tag =
  (λ td, if decide (r0 = repo ∧ t0 = tag)
         then TagDir (tag_link td) ((λ ix, ix ∖ {[d0]}) <$> tag_index td) else td)
    <$> tag_of fs repo tag.
Proof.
  unfold tag_of. simpl. rewrite tags_of_alter. unfold tags_of.
  destruct (decide (r0 = repo)) as [->|Hr].
  - destruct (fs !! repo) as [[[m|] rv]|]; simpl; try done.
    rewrite lookup_alter. destruct (decide (t0 = tag)) as [->|Ht].
    + destruct (m !! tag); simpl; [|done]. by rewrite decide_True.
    + destruct (m !! tag); simpl; [|done]. rewrite decide_False; [done|naive_solver].
  - destruct (fs !! repo ≫= repo_tags) as [m|]; simpl; [|done].
    destruct (m !! tag); simpl; [|done]. rewrite decide_False; [done|naive_solver].
Qed.

Lemma revisions_of_rmtree_index r0 t0 d0 fs repo :
  revisions_of (rmtree (Index r0 t0 d0) fs) repo = revisions_of fs repo.
Proof.
  simpl. rewrite revisions_of_alter. case_decide; [subst|done].
  unfold revisions_of. by destruct (fs !! repo).
Qed.

Lemma tags_dom_rmtree_index r0 t0 d0 fs repo :
  dom <$> tags_of (rmtree (Index r0 t0 d0) fs) repo = dom <$> tags_of fs repo.
Proof.
  simpl. rewrite tags_of_alter. case_decide; [subst|done].
  unfold tags_of. destruct (fs !! repo) as [[[m|] rv]|]; simpl; try done.
  by rewrite dom_alter_L.
Qed.

(** Removing a revision. *)
Lemma tags_of_rmtree_revision r0 d0 fs repo :
  tags_of (rmtree (Revision r0 d0) fs) repo = tags_of fs repo.
Proof.
  simpl. rewrite tags_of_alter. case_decide; [subst|done].
  unfold tags_of. by destruct (fs !! repo).
Qed.

Lemma revisions_of_rmtree_revision r0 d0 fs repo :
  revisions_of (rmtree (Revision r0 d0) fs) repo =
  (λ rv, if decide (r0 = repo) then rv ∖ {[d0]} else rv) <$> revisions_of fs repo.
Proof.
  simpl. rewrite revisions_of_alter. unfold revisions_of.
  case_decide; [subst|]; destruct (fs !! repo) as [[m [rv|]]|]; done.
Qed.

(** Removing a tag directory. *)
Lemma tags_of_rmtree_tag r0 t0 fs repo :
  tags_of (rmtree (Tag r0 t0) fs) repo =
  (λ m, if decide (r0 = repo) then delete t0 m else m) <$> tags_of fs repo.
Proof.
  simpl. rewrite tags_of_alter. unfold tags_of.
  case_decide; [subst|]; destruct (fs !! repo) as [[[m|] rv]|]; done.
Qed.

Lemma revisions_of_rmtree_tag r0 t0 fs repo :
  revisions_of (rmtree (Tag r0 t0) fs) repo = revisions_of fs repo.
Proof.
  simpl. rewrite revisions_of_alter. case_decide; [subst|done].
  unfold revisions_of. by destruct (fs !! repo).
Qed.

(** A prune step keeps the frame. *)
Lemma same_frame_rmtree (t : target) fs : prunable t → same_frame fs (rmtree t fs).
Proof.
  destruct t as [r0|r0 t0|r0 t0 d0|r0 d0]; try done; intros _.
  - split.
    + apply dom_alter_L.
    + intros. apply tags_dom_rmtree_index.
    + intros. unfold link_of. rewrite tag_of_rmtree_index.
      destruct (tag_of fs repo tag); simpl; [|done]. by case_decide.
    + intros. unfold index_of. rewrite tag_of_rmtree_index.
      destruct (tag_of fs repo tag) as [[l [ix|]]|]; simpl; try done;
        case_decide; simpl; by rewrite <-?not_eq_None_Some.
    + intros. by rewrite revisions_of_rmtree_index.
  - split.
    + apply dom_alter_L.
    + intros. by rewrite tags_of_rmtree_revision.
    + intros. unfold link_of, tag_of. by rewrite tags_of_rmtree_revision.
    + intros. unfold index_of, tag_of. by rewrite tags_of_rmtree_revision.
    + intros. rewrite revisions_of_rmtree_revision.
      by rewrite fmap_is_Some.
Qed.

Lemma rmtrees_cons (t : target) ts fs : rmtrees (t :: ts) fs = rmtrees ts (rmtree t fs).
Proof. done. Qed.

Lemma same_frame_rmtrees ts fs : Forall prunable ts → same_frame fs (rmtrees ts fs).
Proof.
  intros H. revert fs. induction H as [|t ts Ht _ IH]; intros fs.
  - apply same_frame_refl.
  - rewrite rmtrees_cons.
    eapply same_frame_trans; [by apply same_frame_rmtree|apply IH].
Qed.

(** What a prune step leaves of the index sets and of the revisions. *)
Lemma has_index_rmtree (t : target) fs repo tag digest :
  prunable t →
  has_index (rmtree t fs) repo tag digest ↔
  has_index fs repo tag digest ∧ t ≠ Index repo tag digest.
Proof.
  unfold has_index, index_of.
  destruct t as [r0|r0 t0|r0 t0 d0|r0 d0]; try done; intros _.
  - rewrite tag_of_rmtree_index.
    destruct (tag_of fs repo tag) as [[l [ix|]]|]; simpl.
    + case_decide as Hd; simpl.
      * destruct Hd as [-> ->]. split.
        -- intros (? & [= <-] & Hin). split; [exists ix; set_solver|].
           intros [= ->]. set_solver.
        -- intros [(? & [= <-] & Hin) Hne]. eexists; split; [done|].
           apply elem_of_difference. split; [done|]. set_solver.
      * split; [intros H; split; [done|]|by intros [H _]]. naive_solver.
    + case_decide; simpl; naive_solver.
    + naive_solver.
  - unfold tag_of. rewrite tags_of_rmtree_revision. naive_solver.
Qed.

Lemma has_revision_rmtree (t : target) fs repo digest :
  prunable t →
  has_revision (rmtree t fs) repo digest ↔
  has_revision fs repo digest ∧ t ≠ Revision repo digest.
Proof.
  unfold has_revision.
  destruct t as [r0|r0 t0|r0 t0 d0|r0 d0]; try done; intros _.
  - rewrite revisions_of_rmtree_index. naive_solver.
  - rewrite revisions_of_rmtree_revision.
    destruct (revisions_of fs repo) as [rv|]; simpl; [|naive_solver].
    case_decide as Hd.
    + subst. split.
      * intros (? & [= <-] & Hin). split; [exists rv; set_solver|].
        intros [= ->]. set_solver.
      * intros [(? & [= <-] & Hin) Hne]. eexists; split; [done|].
        apply elem_of_difference. split; [done|]. set_solver.
    + split; [intros H; split; [done|]|by intros [H _]]. naive_solver.
Qed.

Lemma has_index_rmtrees ts fs repo tag digest :
  Forall prunable ts →
  has_index (rmtrees ts fs) repo tag digest ↔
  has_index fs repo tag digest ∧ Index repo tag digest ∉ ts.
Proof.
  intros H. revert fs. induction H as [|t ts Ht _ IH]; intros fs.
  - simpl. split; [intros ?; split; [done|]|by intros [? _]]. by apply not_elem_of_nil.
  - rewrite rmtrees_cons, IH, has_index_rmtree by done.
    rewrite not_elem_of_cons. naive_solver.
Qed.

Lemma has_revision_rmtrees ts fs repo digest :
  Forall prunable ts →
  has_revision (rmtrees ts fs) repo digest ↔
  has_revision fs repo digest ∧ Revision repo digest ∉ ts.
Proof.
  intros H. revert fs. induction H as [|t ts Ht _ IH]; intros fs.
  - simpl. split; [intros ?; split; [done|]|by intros [? _]]. by apply not_elem_of_nil.
  - rewrite rmtrees_cons, IH, has_revision_rmtree by done.
    rewrite not_elem_of_cons. naive_solver.
Qed.

End StoreFacts.

(** ** What the wildcards find *)

Section GlobFacts.
Implicit Types (fs : gmap string repo_dir) (repo tag digest : string).

(** A name without wildcard character stands for itself. *)
Lemma glob_repos_literal fs repo : Glob.has_magic repo = false → glob_repos fs repo = [repo].
Proof. unfold glob_repos. by intros ->. Qed.

(** The wildcards only look at the names of the directories. *)
Lemma glob_repos_dom fs fs' repo : dom fs' = dom fs → glob_repos fs' repo = glob_repos fs repo.
Proof. unfold glob_repos. by intros ->. Qed.

Lemma elem_of_glob_tags fs repo r tag td :
  (r, tag, td) ∈ glob_tags fs repo ↔
  r ∈ glob_repos fs repo ∧ visible tag = true ∧ tag_of fs r tag = Some td.
Proof.
  unfold glob_tags, tag_of. rewrite list_elem_of_bind. split.
  - intros (r' & Hin & Hr). apply list_elem_of_fmap in Hin as ([t' td'] & [= -> -> ->] & Hin).
    apply list_elem_of_filter in Hin as [Hv Hin]. apply elem_of_map_to_list in Hin.
    split; [done|]. split; [done|].
    destruct (tags_of fs r') as [m|]; simpl in *; [done|]. by rewrite lookup_empty in Hin.
  - intros (Hr & Hv & Ht). exists r. split; [|done].
    apply list_elem_of_fmap. exists (tag, td). split; [done|].
    apply list_elem_of_filter. split; [done|]. apply elem_of_map_to_list.
    by destruct (tags_of fs r) as [m|].
Qed.

Lemma elem_of_glob_tags_all fs repo tag td :
  (tag, td) ∈ map_to_list (default ∅ (tags_of fs repo)) ↔
  tag_of fs repo tag = Some td.
Proof.
  unfold tag_of. rewrite elem_of_map_to_list.
  destruct (tags_of fs repo) as [m|]; simpl; [done|].
  by rewrite lookup_empty.
Qed.

Lemma elem_of_glob_links fs repo r tag :
  (r, tag) ∈ glob_links fs repo ↔
  r ∈ glob_repos fs repo ∧ visible tag = true ∧ is_Some (link_of fs r tag).
Proof.
  unfold glob_links, link_of. rewrite list_elem_of_fmap. split.
  - intros ([[r' t] td] & [= -> ->] & [Hl Hin]%list_elem_of_filter).
    apply elem_of_glob_tags in Hin as (Hr & Hv & Ht). simpl in *. by rewrite Ht.
  - intros (Hr & Hv & [c Hc]).
    destruct (tag_of fs r tag) as [td|] eqn:Ht; [|done]. simpl in Hc.
    exists (r, tag, td). split; [done|]. apply list_elem_of_filter. split.
    + simpl. by rewrite Hc.
    + by apply elem_of_glob_tags.
Qed.

Lemma elem_of_glob_index fs repo r tag digest :
  (r, tag, digest) ∈ glob_index fs repo ↔
  r ∈ glob_repos fs repo
  ∧ visible tag = true ∧ visible digest = true ∧ has_index fs r tag digest.
Proof.
  unfold glob_index, has_index, index_of. rewrite list_elem_of_bind. split.
  - intros ([[r' t] td] & Hd & Hin). apply elem_of_glob_tags in Hin as (Hr & Hv & Ht).
    apply list_elem_of_fmap in Hd as (d & [= -> -> ->] & Hd).
    apply list_elem_of_filter in Hd as [Hvd Hd]. simpl in Hd.
    rewrite Ht. simpl. split; [done|]. split; [done|]. split; [done|].
    destruct (tag_index td) as [ix|]; simpl in *.
    + exists ix. split; [done|]. by apply elem_of_elements.
    + rewrite elements_empty in Hd. by apply elem_of_nil in Hd.
  - intros (Hr & Hv & Hvd & ix & Hix & Hd).
    destruct (tag_of fs r tag) as [td|] eqn:Ht; [|done]. simpl in Hix.
    exists (r, tag, td). split; [|by apply elem_of_glob_tags].
    apply list_elem_of_fmap. exists digest. split; [done|].
    apply list_elem_of_filter. split; [done|]. simpl. rewrite Hix. simpl.
    by apply elem_of_elements.
Qed.

Lemma elem_of_glob_manifests fs repo digest :
  digest ∈ glob_manifests fs repo ↔
  ∃ r tag, r ∈ glob_repos fs repo
           ∧ visible tag = true ∧ visible digest = true ∧ has_index fs r tag digest.
Proof.
  unfold glob_manifests. rewrite list_elem_of_fmap. split.
  - intros ([[r t] d] & -> & Hin). exists r, t. by apply elem_of_glob_index.
  - intros (r & t & H). exists (r, t, digest). split; [done|]. by apply elem_of_glob_index.
Qed.

Lemma elem_of_currents_of fs repo digest :
  digest ∈ currents_of fs repo ↔
  ∃ r tag, r ∈ glob_repos fs repo
           ∧ visible tag = true ∧ current_of fs r tag = Some digest.
Proof.
  unfold currents_of. rewrite elem_of_list_to_set, list_elem_of_omap. split.
  - intros ([r t] & (Hr & Hv & _)%elem_of_glob_links & Hc). by exists r, t.
  - intros (r & t & Hr & Hv & Hc). exists (r, t). split; [|done].
    apply elem_of_glob_links. split; [done|]. split; [done|].
    unfold current_of in Hc. by destruct (link_of fs r t).
Qed.

(** In a name without wildcard character the wildcards after it find what
    is in the directory of that name. *)
Lemma elem_of_glob_manifests_literal fs repo digest :
  Glob.has_magic repo = false →
  digest ∈ glob_manifests fs repo ↔
  ∃ tag, visible tag = true ∧ visible digest = true ∧ has_index fs repo tag digest.
Proof.
  intros Hm. rewrite elem_of_glob_manifests, glob_repos_literal by done. split.
  - intros (r & t & ->%list_elem_of_singleton & H). by exists t.
  - intros (t & H). exists repo, t. split; [by apply list_elem_of_singleton|done].
Qed.

Lemma elem_of_currents_of_literal fs repo digest :
  Glob.has_magic repo = false →
  digest ∈ currents_of fs repo ↔
  ∃ tag, visible tag = true ∧ current_of fs repo tag = Some digest.
Proof.
  intros Hm. rewrite elem_of_currents_of, glob_repos_literal by done. split.
  - intros (r & t & ->%list_elem_of_singleton & H). by exists t.
  - intros (t & H). exists repo, t. split; [by apply list_elem_of_singleton|done].
Qed.

Lemma elem_of_glob_index_literal fs repo r tag digest :
  Glob.has_magic repo = false →
  (r, tag, digest) ∈ glob_index fs repo ↔
  r = repo ∧ visible tag = true ∧ visible digest = true ∧ has_index fs repo tag digest.
Proof.
  intros Hm. rewrite elem_of_glob_index, glob_repos_literal, list_elem_of_singleton by done.
  naive_solver.
Qed.

End GlobFacts.

(** ** Running the loops *)

Section Loops.
Implicit Types (w : world) (repo tag : string).

Lemma after_nil w : after [] w = w.
Proof. destruct w. unfold after. simpl. by rewrite app_nil_r. Qed.

Lemma after_cons (t : target) ts w : after (t :: ts) w = after ts (after [t] w).
Proof. unfold after. simpl. by rewrite <-app_assoc. Qed.

Lemma after_app ts1 ts2 w : after (ts1 ++ ts2) w = after ts2 (after ts1 w).
Proof.
  unfold after, rmtrees. simpl. by rewrite foldl_app, fmap_app, app_assoc.
Qed.

Lemma for_each_remove {A} (l : list A) (skip : A → bool) (tgt : A → target) w :
  for_each l (λ x, if skip x then ret tt else remove (tgt x)) w
  = (Ok tt, after (tgt <$> filter (λ x, skip x = false) l) w).
Proof.
  revert w. induction l as [|x l IH]; intros w.
  - simpl. by rewrite after_nil.
  - simpl. unfold bind. destruct (skip x) eqn:Hs.
    + simpl. rewrite IH. rewrite filter_cons_False; [done|]. by rewrite Hs.
    + unfold remove at 1. rewrite IH. rewrite filter_cons_True by done.
      csimpl. by rewrite (after_cons (tgt x)).
Qed.

Lemma for_each_remove_all {A} (l : list A) (tgt : A → target) w :
  for_each l (λ x, remove (tgt x)) w = (Ok tt, after (tgt <$> l) w).
Proof.
  revert w. induction l as [|x l IH]; intros w.
  - simpl. by rewrite after_nil.
  - simpl. unfold bind. unfold remove at 1. rewrite IH.
    csimpl. by rewrite (after_cons (tgt x)).
Qed.

(** Reading the links that the wildcard found never fails. *)
Lemma read_currents_ok (links : list (string * string)) currents w :
  Forall (λ link, is_Some (link_of (fs w) link.1 link.2)) links →
  read_currents links currents w
  = (Ok (currents ∪ list_to_set (omap (λ link, current_of (fs w) link.1 link.2) links)), w).
Proof.
  intros H. revert currents. induction H as [|[r t] links [c Hc] _ IH]; intros currents.
  - simpl. unfold ret. f_equal. f_equal. set_solver.
  - simpl in *. unfold bind, read_link, need. rewrite Hc. rewrite IH.
    unfold current_of at 2. rewrite Hc. simpl. f_equal. f_equal. set_solver.
Qed.

Lemma clean_revisions_eq repo w :
  clean_revisions repo w =
  match revisions_of (fs w) repo with
  | Some rv => (Ok tt, after (orphans (fs w) repo rv) w)
  | None => (Raise (FileNotFoundError (repo +:+ "/_manifests/revisions/sha256/")), w)
  end.
Proof.
  unfold clean_revisions, bind, listdir_revisions, need, ask.
  destruct (revisions_of (fs w) repo) as [rv|]; [|done].
  by rewrite for_each_remove_all.
Qed.

End Loops.

(** ** Closed forms of the pruner *)

Section ClosedForms.
Variable args : arguments.
Implicit Types (w : world) (repo tag image : string).

Lemma revisions_of_after_stale ts w repo :
  Forall prunable ts → (∀ t, t ∈ ts → ∃ r tg d, t = Index r tg d) →
  revisions_of (fs (after ts w)) repo = revisions_of (fs w) repo.
Proof.
  unfold after. simpl. generalize (fs w). clear w.
  induction ts as [|t ts IH]; intros fs0 Hp Hi; [done|].
  rewrite rmtrees_cons. rewrite IH.
  - destruct (Hi t) as (r & tg & d & ->); [by left|].
    apply revisions_of_rmtree_index.
  - by inversion Hp.
  - intros t' Ht'. apply Hi. by right.
Qed.

Lemma stale_of_tag_index repo tag current ix (t : target) :
  t ∈ stale_of_tag repo tag current ix →
  ∃ d, t = Index repo tag d ∧ d ∈ ix ∧ d ≠ current.
Proof.
  unfold stale_of_tag. intros (d & -> & [Hne Hd]%list_elem_of_filter)%list_elem_of_fmap.
  exists d. split; [done|]. split; [by apply elem_of_elements|].
  intros ->. by rewrite String.eqb_refl in Hne.
Qed.

Lemma elem_of_stale_of_tag repo tag current ix d :
  Index repo tag d ∈ stale_of_tag repo tag current ix ↔ d ∈ ix ∧ d ≠ current.
Proof.
  split.
  - intros (d' & [= <-] & ?)%stale_of_tag_index. done.
  - intros [Hd Hne]. unfold stale_of_tag. apply list_elem_of_fmap.
    exists d. split; [done|]. apply list_elem_of_filter.
    split; [|by apply elem_of_elements]. by apply String.eqb_neq.
Qed.

Lemma stale_of_repo_index fs repo (t : target) :
  t ∈ stale_of_repo fs repo →
  ∃ r tg d, t = Index r tg d ∧ (r, tg, d) ∈ glob_index fs repo ∧ d ∉ currents_of fs repo.
Proof.
  unfold stale_of_repo.
  intros ([[r tg] d] & -> & [Hne Hd]%list_elem_of_filter)%list_elem_of_fmap.
  exists r, tg, d. split; [done|]. split; [done|].
  simpl in Hne. by apply bool_decide_eq_false in Hne.
Qed.

Lemma elem_of_stale_of_repo fs repo r tg d :
  Index r tg d ∈ stale_of_repo fs repo ↔
  (r, tg, d) ∈ glob_index fs repo ∧ d ∉ currents_of fs repo.
Proof.
  split.
  - intros (r' & tg' & d' & [= <- <- <-] & ?)%stale_of_repo_index. done.
  - intros [Hd Hne]. unfold stale_of_repo. apply list_elem_of_fmap.
    exists (r, tg, d). split; [done|]. apply list_elem_of_filter.
    split; [|done]. by apply bool_decide_eq_false.
Qed.

Lemma prunable_stale_of_tag repo tag current ix :
  Forall prunable (stale_of_tag repo tag current ix).
Proof. apply Forall_forall. by intros t (d & -> & _)%stale_of_tag_index. Qed.

Lemma prunable_stale_of_repo fs repo : Forall prunable (stale_of_repo fs repo).
Proof. apply Forall_forall. by intros t (r & tg & d & -> & _)%stale_of_repo_index. Qed.

Lemma prunable_orphans fs repo rv : Forall prunable (orphans fs repo rv).
Proof.
  apply Forall_forall. unfold orphans. by intros t (d & -> & _)%list_elem_of_fmap.
Qed.

Lemma elem_of_orphans fs repo rv r d :
  Revision r d ∈ orphans fs repo rv ↔
  r = repo ∧ d ∈ rv ∧ d ∉ glob_manifests fs repo.
Proof.
  unfold orphans. rewrite list_elem_of_fmap. split.
  - intros (d' & [= -> ->] & Hd). apply elem_of_elements in Hd. set_solver.
  - intros (-> & Hd & Hm). exists d. split; [done|]. apply elem_of_elements. set_solver.
Qed.

(** [clean_tag] without the remove flag. *)
Lemma clean_tag_prune_eq repo tag w :
  args_remove args = false →
  clean_tag args repo tag w =
  match link_of (fs w) repo tag with
  | None => (Ok false, reported ("No such tag: " +:+ tag +:+ " in repository " +:+ repo) w)
  | Some content =>
      match index_of (fs w) repo tag with
      | None =>
          (Raise (FileNotFoundError (repo +:+ "/_manifests/tags/" +:+ tag +:+ "/index/sha256/")), w)
      | Some ix =>
          let w1 := after (stale_of_tag repo tag (Py.drop 7 content) ix) w in
          match revisions_of (fs w) repo with
          | None => (Raise (FileNotFoundError (repo +:+ "/_manifests/revisions/sha256/")), w1)
          | Some rv => (Ok true, after (orphans (fs w1) repo rv) w1)
          end
      end
  end.
Proof.
  intros Hx. unfold clean_tag, bind, ask, isfile_link. rewrite Hx.
  destruct (link_of (fs w) repo tag) as [c|] eqn:Hl.
  - rewrite bool_decide_eq_true_2 by done. simpl.
    unfold read_link, need at 1. rewrite Hl.
    unfold listdir_index, need.
    destruct (index_of (fs w) repo tag) as [ix|] eqn:Hix; simpl; [|done].
    rewrite for_each_remove. fold (stale_of_tag repo tag (Py.drop 7 c) ix).
    rewrite clean_revisions_eq.
    rewrite revisions_of_after_stale.
    + by destruct (revisions_of (fs w) repo).
    + apply prunable_stale_of_tag.
    + intros t (d & -> & _)%stale_of_tag_index. eauto.
  - rewrite bool_decide_eq_false_2 by (by intros [? ?]). done.
Qed.

(** [clean_tag] with the remove flag. *)
Lemma clean_tag_remove_eq repo tag w :
  args_remove args = true →
  clean_tag args repo tag w =
  match link_of (fs w) repo tag with
  | None => (Ok false, reported ("No such tag: " +:+ tag +:+ " in repository " +:+ repo) w)
  | Some _ => (Ok true, after [Tag repo tag] w)
  end.
Proof.
  intros Hx. unfold clean_tag, bind, ask, isfile_link. rewrite Hx.
  destruct (link_of (fs w) repo tag) as [c|] eqn:Hl.
  - rewrite bool_decide_eq_true_2 by done. done.
  - rewrite bool_decide_eq_false_2 by (by intros [? ?]). done.
Qed.

(** [clean_repo] when the directory is missing. *)
Lemma clean_repo_missing_eq image w :
  isdir (fs w) (split_image "" image).1 = false →
  clean_repo args image w =
  (Ok false, reported ("No such repository: " +:+ (split_image "" image).1) w).
Proof.
  unfold clean_repo. destruct (split_image "" image) as [repo tag]. simpl.
  intros H. unfold bind, ask. rewrite H. done.
Qed.

(** [clean_repo] without the remove flag and with a tag. *)
Lemma clean_repo_tag_eq image w :
  args_remove args = false →
  isdir (fs w) (split_image "" image).1 = true →
  (split_image "" image).2 ≠ "" →
  clean_repo args image w = clean_tag args (split_image "" image).1 (split_image "" image).2 w.
Proof.
  unfold clean_repo. destruct (split_image "" image) as [repo tag]. simpl.
  intros Hx Hd Ht. unfold bind at 1, ask at 1. rewrite Hd. simpl.
  unfold bind at 1. rewrite Hx. unfold ret at 1.
  apply String.eqb_neq in Ht. by rewrite Ht.
Qed.

(** [clean_repo] without the remove flag and without a tag. *)
Lemma clean_repo_all_eq image w :
  args_remove args = false →
  isdir (fs w) (split_image "" image).1 = true →
  (split_image "" image).2 = "" →
  let repo := (split_image "" image).1 in
  let w1 := after (stale_of_repo (fs w) repo) w in
  clean_repo args image w =
  match revisions_of (fs w) repo with
  | None => (Raise (FileNotFoundError (repo +:+ "/_manifests/revisions/sha256/")), w1)
  | Some rv => (Ok true, after (orphans (fs w1) repo rv) w1)
  end.
Proof.
  unfold clean_repo. destruct (split_image "" image) as [repo tag]. simpl.
  intros Hx Hd ->. unfold bind at 1, ask at 1. rewrite Hd. simpl.
  unfold bind at 1. rewrite Hx. unfold ret at 1. simpl.
  unfold bind at 1, ask at 1. unfold bind at 1.
  rewrite read_currents_ok.
  2:{ apply Forall_forall. by intros [r t] (_ & _ & ?)%elem_of_glob_links. }
  unfold bind at 1, ask at 1.
  rewrite (left_id_L ∅ (∪)). fold (currents_of (fs w) repo).
  unfold bind at 1.
  rewrite (for_each_remove _ (λ index, bool_decide (index.2 ∈ currents_of (fs w) repo))
             (λ index, Index index.1.1 index.1.2 index.2)).
  fold (stale_of_repo (fs w) repo).
  unfold bind. rewrite clean_revisions_eq.
  rewrite revisions_of_after_stale.
  - by destruct (revisions_of (fs w) repo).
  - apply prunable_stale_of_repo.
  - intros t (r & tg & d & -> & _)%stale_of_repo_index. eauto.
Qed.

End ClosedForms.

(** ** What a prune leaves behind *)

Section PruneFacts.
Variable args : arguments.
Implicit Types (w : world) (repo tag image digest : string).

Lemma filter_none {A} (P : A → Prop) `{!∀ x, Decision (P x)} (l : list A) :
  (∀ x, x ∈ l → ¬ P x) → filter P l = [].
Proof.
  intros Hnone. destruct (filter P l) as [|x l'] eqn:E; [done|].
  assert (x ∈ filter P l) as [HP Hx]%list_elem_of_filter by (rewrite E; by left).
  by destruct (Hnone x Hx).
Qed.

Lemma current_of_frame fs fs' repo tag :
  same_frame fs fs' → current_of fs' repo tag = current_of fs repo tag.
Proof. intros H. unfold current_of. by rewrite (frame_link _ _ H). Qed.

Lemma currents_of_frame fs fs' repo :
  same_frame fs fs' → currents_of fs' repo = currents_of fs repo.
Proof.
  intros H. apply set_eq. intros d. rewrite !elem_of_currents_of.
  rewrite (glob_repos_dom fs fs') by apply H.
  by setoid_rewrite (current_of_frame _ _ _ _ H).
Qed.

Lemma isdir_frame fs fs' repo : same_frame fs fs' → isdir fs' repo = isdir fs repo.
Proof. intros H. unfold isdir. by rewrite (frame_dom _ _ H). Qed.

Lemma index_not_orphan fs repo rv r tg d : Index r tg d ∉ orphans fs repo rv.
Proof. unfold orphans. by intros (? & ? & _)%list_elem_of_fmap. Qed.

Lemma revision_not_stale_of_tag repo tag current ix r d :
  Revision r d ∉ stale_of_tag repo tag current ix.
Proof. by intros (? & ? & _)%stale_of_tag_index. Qed.

Lemma revision_not_stale_of_repo fs repo r d : Revision r d ∉ stale_of_repo fs repo.
Proof. by intros (? & ? & ? & ? & _)%stale_of_repo_index. Qed.

(** After the sweep of [clean_revisions], every revision is listed in some
    index that the wildcards reach. *)
Lemma swept_revision_listed w1 repo rv digest :
  revisions_of (fs w1) repo = Some rv →
  has_revision (fs (after (orphans (fs w1) repo rv) w1)) repo digest →
  digest ∈ glob_manifests (fs (after (orphans (fs w1) repo rv) w1)) repo.
Proof.
  intros Hrv. unfold after. simpl.
  rewrite has_revision_rmtrees by apply prunable_orphans.
  intros [(rv' & Hrv' & Hd) Hno]. rewrite Hrv in Hrv'. simplify_eq.
  rewrite elem_of_orphans in Hno.
  destruct (decide (digest ∈ glob_manifests (fs w1) repo)) as [Hm|Hm]; [|naive_solver].
  apply elem_of_glob_manifests in Hm as (r & tg & Hr & Hv & Hvd & Hix).
  apply elem_of_glob_manifests. exists r, tg.
  rewrite (glob_repos_dom (fs w1)) by apply frame_dom, same_frame_rmtrees, prunable_orphans.
  split; [done|]. split; [done|]. split; [done|].
  apply has_index_rmtrees; [apply prunable_orphans|].
  split; [done|]. apply index_not_orphan.
Qed.

End PruneFacts.

(** ** C1: revisions that survive a prune *)

Section Reachability.
Variable args : arguments.
Implicit Types (w : world) (repo tag image digest : string).

(** C1, as amended.  After a prune without the remove flag that completes
    successfully, in a repository whose name holds none of the wildcard
    characters of [glob]:
    - on the all-tags path every revision that is left is the current digest
      of a tag that is left;
    - on the path with a tag every revision that is left is listed in the
      index of a tag that is left, and the index of the given tag lists
      nothing but the current digest of that tag. *)
Theorem prune_leaves_referenced_revisions image w w' :
  args_remove args = false →
  Glob.has_magic (split_image "" image).1 = false →
  clean_repo args image w = (Ok true, w') →
  let repo := (split_image "" image).1 in
  let tag := (split_image "" image).2 in
  (tag = "" →
   ∀ digest, has_revision (fs w') repo digest →
     ∃ t, current_of (fs w') repo t = Some digest) ∧
  (tag ≠ "" →
   (∀ digest, has_revision (fs w') repo digest →
      ∃ t, has_index (fs w') repo t digest)
   ∧ (∀ digest, has_index (fs w') repo tag digest →
        current_of (fs w') repo tag = Some digest)).
Proof.
  intros Hx Hlit Hrun repo tag. fold repo in Hlit.
  destruct (isdir (fs w) repo) eqn:Hdir.
  2:{ rewrite clean_repo_missing_eq in Hrun by done. done. }
  split; intros Ht.
  - intros digest Hrev.
    rewrite clean_repo_all_eq in Hrun by done. fold repo in Hrun.
    destruct (revisions_of (fs w) repo) as [rv|] eqn:Hrv; [|done].
    injection Hrun as <-.
    set (w1 := after (stale_of_repo (fs w) repo) w) in *.
    assert (revisions_of (fs w1) repo = Some rv) as Hrv1.
    { unfold w1. rewrite revisions_of_after_stale; [done|apply prunable_stale_of_repo|].
      intros t (r & tg & d & -> & _)%stale_of_repo_index. eauto. }
    pose proof (swept_revision_listed w1 repo rv digest Hrv1 Hrev) as Hm.
    apply elem_of_glob_manifests_literal in Hm as (tg & Hv & Hvd & Hix); [|done].
    unfold after in Hix. simpl in Hix.
    apply has_index_rmtrees in Hix as [Hix _]; [|apply prunable_orphans].
    unfold w1, after in Hix. simpl in Hix.
    apply has_index_rmtrees in Hix as [Hix Hno]; [|apply prunable_stale_of_repo].
    rewrite elem_of_stale_of_repo in Hno.
    destruct (decide (digest ∈ currents_of (fs w) repo)) as [Hc|Hc].
    2:{ destruct Hno. split; [|done]. by apply elem_of_glob_index_literal. }
    apply elem_of_currents_of_literal in Hc as (t & _ & Hc); [|done].
    exists t. rewrite <-Hc. apply current_of_frame.
    eapply same_frame_trans; apply same_frame_rmtrees;
      [apply prunable_stale_of_repo|apply prunable_orphans].
  - rewrite clean_repo_tag_eq in Hrun by done. fold repo tag in Hrun.
    rewrite clean_tag_prune_eq in Hrun by done.
    destruct (link_of (fs w) repo tag) as [c|] eqn:Hl; [|done].
    destruct (index_of (fs w) repo tag) as [ix|] eqn:Hi; [|done].
    simpl in Hrun.
    destruct (revisions_of (fs w) repo) as [rv|] eqn:Hrv; [|done].
    injection Hrun as <-.
    set (w1 := after (stale_of_tag repo tag (Py.drop 7 c) ix) w) in *.
    assert (revisions_of (fs w1) repo = Some rv) as Hrv1.
    { unfold w1. rewrite revisions_of_after_stale; [done|apply prunable_stale_of_tag|].
      intros t (d & -> & _)%stale_of_tag_index. eauto. }
    split; intros digest.
    + intros Hrev.
      pose proof (swept_revision_listed w1 repo rv digest Hrv1 Hrev) as Hm.
      apply elem_of_glob_manifests_literal in Hm as (tg & Hv & Hvd & Hix); [|done].
      by exists tg.
    + intros Hix. unfold after in Hix. simpl in Hix.
      apply has_index_rmtrees in Hix as [Hix _]; [|apply prunable_orphans].
      unfold w1, after in Hix. simpl in Hix.
      apply has_index_rmtrees in Hix as [Hix Hno]; [|apply prunable_stale_of_tag].
      rewrite elem_of_stale_of_tag in Hno.
      destruct Hix as (ix' & Hi' & Hd). rewrite Hi in Hi'. simplify_eq.
      destruct (decide (digest = Py.drop 7 c)) as [->|Hne]; [|naive_solver].
      transitivity (current_of (fs w) repo tag).
      * apply current_of_frame.
        eapply same_frame_trans; apply same_frame_rmtrees;
          [apply prunable_stale_of_tag|apply prunable_orphans].
      * unfold current_of. by rewrite Hl.
Qed.

End Reachability.

(** Membership by listing, for concrete file systems. *)
Lemma has_revision_elements fs repo digest :
  has_revision fs repo digest ↔ digest ∈ default [] (elements <$> revisions_of fs repo).
Proof.
  unfold has_revision. destruct (revisions_of fs repo) as [rv|]; simpl.
  - rewrite elem_of_elements. naive_solver.
  - rewrite elem_of_nil. naive_solver.
Qed.

Lemma has_index_elements fs repo tag digest :
  has_index fs repo tag digest ↔ digest ∈ default [] (elements <$> index_of fs repo tag).
Proof.
  unfold has_index. destruct (index_of fs repo tag) as [ix|]; simpl.
  - rewrite elem_of_elements. naive_solver.
  - rewrite elem_of_nil. naive_solver.
Qed.

Lemma referenced_spec fs repo digest :
  referenced fs repo digest = true ↔ ∃ t, current_of fs repo t = Some digest.
Proof.
  unfold referenced. rewrite bool_decide_eq_true, list_elem_of_omap. split.
  - intros ([t td] & Hin%elem_of_glob_tags_all & Hc). exists t.
    unfold current_of, link_of. by rewrite Hin.
  - intros (t & Hc). unfold current_of, link_of in Hc.
    destruct (tag_of fs repo t) as [td|] eqn:Ht; [|done].
    exists (t, td). split; [|done]. by apply elem_of_glob_tags_all.
Qed.

Lemma prune_leaves_referenced_revisions_witness :
  args_remove prune_args = false
  ∧ Glob.has_magic (split_image "" "r").1 = false
  ∧ clean_repo prune_args "r" example_world
    = (Ok true, (clean_repo prune_args "r" example_world).2)
  ∧ (split_image "" "r").2 = ""
  ∧ has_revision (fs (clean_repo prune_args "r" example_world).2) "r" "d2"
  ∧ ∃ t, current_of (fs (clean_repo prune_args "r" example_world).2) "r" t = Some "d2".
Proof.
  assert (has_revision (fs (clean_repo prune_args "r" example_world).2) "r" "d2") as Hrev.
  { apply has_revision_elements, (bool_decide_unpack _). vm_compute. exact I. }
  split; [reflexivity|]. split; [reflexivity|]. split; [vm_compute; reflexivity|].
  split; [reflexivity|]. split; [exact Hrev|].
  refine (proj1 (prune_leaves_referenced_revisions prune_args "r" example_world _
                   eq_refl eq_refl _) eq_refl "d2" Hrev).
  vm_compute. reflexivity.
Defined.

(** C1 fails on the path with a tag: pruning [r:t1] in the example
    repository completes successfully and leaves the revision [d4], which
    only a stale index entry of [t2] lists and which no tag points to. *)
Lemma tag_prune_leaves_unreferenced_revision :
  (clean_repo prune_args "r:t1" example_world).1 = Ok true
  ∧ has_revision (fs (clean_repo prune_args "r:t1" example_world).2) "r" "d4"
  ∧ ¬ ∃ t, current_of (fs (clean_repo prune_args "r:t1" example_world).2) "r" t = Some "d4".
Proof.
  split; [vm_compute; reflexivity|]. split.
  - apply has_revision_elements, (bool_decide_unpack _). vm_compute. exact I.
  - rewrite <-referenced_spec. vm_compute. discriminate.
Qed.


(** ** C2: pruning twice *)

Section Idempotence.
Implicit Types (w : world) (repo tag image digest : string).

Lemma events_of_eq {A} (m : M A) w evs :
  log (m w).2 = (log w ++ evs)%list → events_of m w = evs.
Proof. intros H. unfold events_of. rewrite H. apply drop_app_length. Qed.

Lemma removed_fmap ts : removed (EvRemoved <$> ts) = ts.
Proof. unfold removed. induction ts as [|t ts IH]; [done|]. csimpl. by rewrite IH. Qed.

Lemma removed_app evs1 evs2 : removed (evs1 ++ evs2)%list = (removed evs1 ++ removed evs2)%list.
Proof. apply omap_app. Qed.

(** Nothing stale is left in a file system where the wildcards only find
    index entries of current digests. *)
Lemma stale_of_repo_nil fs repo :
  (∀ r tg d, (r, tg, d) ∈ glob_index fs repo → d ∈ currents_of fs repo) →
  stale_of_repo fs repo = [].
Proof.
  intros H. unfold stale_of_repo. rewrite filter_none; [done|].
  intros [[r tg] d] Hin Hno. simpl in Hno. apply bool_decide_eq_false in Hno.
  by apply Hno, (H r tg).
Qed.

Lemma orphans_nil fs repo rv :
  (∀ d, d ∈ rv → d ∈ glob_manifests fs repo) → orphans fs repo rv = [].
Proof.
  intros H. unfold orphans.
  replace (rv ∖ list_to_set (glob_manifests fs repo)) with (∅ : gset string).
  - by rewrite elements_empty.
  - apply set_eq. intros d. rewrite elem_of_difference, elem_of_list_to_set.
    split; [set_solver|]. intros [Hd Hno]. destruct Hno. by apply H.
Qed.

(** The state after the index prune of all tags. *)
Lemma glob_index_after_stale w repo r tg d :
  (r, tg, d) ∈ glob_index (fs (after (stale_of_repo (fs w) repo) w)) repo →
  d ∈ currents_of (fs w) repo.
Proof.
  intros (Hr & Hv & Hvd & Hix)%elem_of_glob_index. unfold after in Hr, Hix. simpl in Hr, Hix.
  rewrite (glob_repos_dom (fs w)) in Hr
    by apply frame_dom, same_frame_rmtrees, prunable_stale_of_repo.
  apply has_index_rmtrees in Hix as [Hix Hno]; [|apply prunable_stale_of_repo].
  rewrite elem_of_stale_of_repo in Hno.
  destruct (decide (d ∈ currents_of (fs w) repo)) as [Hc|Hc]; [done|].
  destruct Hno. split; [|done]. by apply elem_of_glob_index.
Qed.

Lemma glob_index_after_orphans w1 repo rv r tg d :
  (r, tg, d) ∈ glob_index (fs (after (orphans (fs w1) repo rv) w1)) repo ↔
  (r, tg, d) ∈ glob_index (fs w1) repo.
Proof.
  rewrite !elem_of_glob_index. unfold after. simpl.
  rewrite (glob_repos_dom (fs w1)) by apply frame_dom, same_frame_rmtrees, prunable_orphans.
  rewrite has_index_rmtrees by apply prunable_orphans.
  pose proof (index_not_orphan (fs w1) repo rv r tg d). naive_solver.
Qed.

Lemma same_frame_after ts w : Forall prunable ts → same_frame (fs w) (fs (after ts w)).
Proof. apply same_frame_rmtrees. Qed.

(** C2.  A prune of a whole repository, run again on the state it left,
    removes nothing and changes nothing in the file system, and ends as the
    first run ended.  In the example repository the first run leaves the
    indexes [t1: d1] and [t2: d2] and the revisions [d1] and [d2], and the
    second run leaves the world as it is. *)
Theorem prune_all_idempotent :
  (∀ args image w,
     args_remove args = false →
     (split_image "" image).2 = "" →
     let run1 := clean_repo args image w in
     let run2 := clean_repo args image run1.2 in
     fs run2.2 = fs run1.2
     ∧ run2.1 = run1.1
     ∧ removed (events_of (clean_repo args image) run1.2) = [])
  ∧ (let w1 := (clean_repo prune_args "r" example_world).2 in
     index_of (fs w1) "r" "t1" = Some {["d1"]}
     ∧ index_of (fs w1) "r" "t2" = Some {["d2"]}
     ∧ revisions_of (fs w1) "r" = Some {["d1"; "d2"]}
     ∧ clean_repo prune_args "r" w1 = (Ok true, w1)).
Proof.
  split.
  2:{ repeat split; vm_compute; reflexivity. }
  intros args image w Hx Ht. simpl.
  set (repo := (split_image "" image).1).
  destruct (isdir (fs w) repo) eqn:Hdir.
  2:{ rewrite (clean_repo_missing_eq args image w) by done. simpl.
      rewrite clean_repo_missing_eq by done. simpl. split; [done|]. split; [done|].
      by erewrite events_of_eq by (rewrite clean_repo_missing_eq by done; done). }
  rewrite (clean_repo_all_eq args image w) by done. fold repo.
  set (w1 := after (stale_of_repo (fs w) repo) w).
  assert (same_frame (fs w) (fs w1)) as Hf1
    by apply same_frame_after, prunable_stale_of_repo.
  assert (revisions_of (fs w1) repo = revisions_of (fs w) repo) as Hrv1.
  { unfold w1. rewrite revisions_of_after_stale; [done|apply prunable_stale_of_repo|].
    intros t (r & tg & d & -> & _)%stale_of_repo_index. eauto. }
  destruct (revisions_of (fs w) repo) as [rv|] eqn:Hrv; cbn [fst snd].
  - set (w2 := after (orphans (fs w1) repo rv) w1).
    assert (same_frame (fs w1) (fs w2)) as Hf2
      by apply same_frame_after, prunable_orphans.
    assert (stale_of_repo (fs w2) repo = []) as Hstale.
    { apply stale_of_repo_nil. intros r tg d Hin.
      rewrite (currents_of_frame (fs w) (fs w2)) by (by eapply same_frame_trans).
      apply glob_index_after_orphans in Hin. by eapply glob_index_after_stale. }
    assert (clean_repo args image w2 = (Ok true, w2)) as Hrun2.
    { rewrite clean_repo_all_eq; [|done|by rewrite (isdir_frame (fs w));
                                          [|by eapply same_frame_trans]|done].
      fold repo. rewrite Hstale, after_nil.
      destruct (revisions_of (fs w2) repo) as [rv2|] eqn:Hrv2.
      - rewrite orphans_nil, after_nil; [done|].
        intros d Hd.
        apply (swept_revision_listed w1 repo rv d); [by rewrite Hrv1|].
        by exists rv2.
      - assert (is_Some (revisions_of (fs w2) repo)) as [? ?]; [|congruence].
        apply (frame_revisions _ _ Hf2). by rewrite Hrv1. }
    cbn [fst snd]. fold w1 w2. rewrite Hrun2. split; [done|]. split; [done|].
    rewrite (events_of_eq _ _ []); [done|]. by rewrite Hrun2, app_nil_r.
  - assert (stale_of_repo (fs w1) repo = []) as Hstale.
    { apply stale_of_repo_nil. intros r tg d Hin.
      rewrite (currents_of_frame (fs w) (fs w1)) by done.
      by eapply glob_index_after_stale. }
    assert (clean_repo args image w1
            = (Raise (FileNotFoundError (repo +:+ "/_manifests/revisions/sha256/")), w1))
      as Hrun2.
    { rewrite clean_repo_all_eq; [|done|by rewrite (isdir_frame (fs w))|done].
      fold repo. by rewrite Hstale, after_nil, Hrv1. }
    cbn [fst snd]. fold w1. rewrite Hrun2. split; [done|]. split; [done|].
    rewrite (events_of_eq _ _ []); [done|]. by rewrite Hrun2, app_nil_r.
Qed.

Lemma prune_all_idempotent_witness :
  args_remove prune_args = false
  ∧ (split_image "" "r").2 = ""
  ∧ fs (clean_repo prune_args "r" (clean_repo prune_args "r" example_world).2).2
    = fs (clean_repo prune_args "r" example_world).2.
Proof.
  split; [reflexivity|]. split; [reflexivity|].
  exact (proj1 (proj1 prune_all_idempotent prune_args "r" example_world eq_refl eq_refl)).
Defined.

End Idempotence.

(** ** C4: what a prune removes *)

Section Frame.
Variable args : arguments.
Hypothesis no_remove : args_remove args = false.
Implicit Types (w : world) (repo tag image digest : string).

Lemma prune_removal_prunable fs (t : target) : prune_removal fs t → prunable t.
Proof. by destruct t. Qed.

Lemma removed_after ts w : removed (drop (length (log w)) (log (after ts w))) = ts.
Proof. unfold after. simpl. by rewrite drop_app_length, removed_fmap. Qed.

Lemma prune_removal_stale_of_tag w repo tag content ix :
  link_of (fs w) repo tag = Some content →
  Forall (prune_removal (fs w)) (stale_of_tag repo tag (Py.drop 7 content) ix).
Proof.
  intros Hl. apply Forall_forall. intros t (d & -> & _ & Hne)%stale_of_tag_index.
  unfold prune_removal, current_of. rewrite Hl. intros [= H]. exact (Hne (eq_sym H)).
Qed.

Lemma prune_removal_stale_of_repo w repo :
  Forall (prune_removal (fs w)) (stale_of_repo (fs w) repo).
Proof.
  apply Forall_forall. intros t (r & tg & d & -> & Hin & Hno)%stale_of_repo_index.
  simpl. intros Hc. apply Hno, elem_of_currents_of. exists r, tg.
  by apply elem_of_glob_index in Hin as (? & ? & _).
Qed.

Lemma prune_removal_orphans fs fs1 repo rv : Forall (prune_removal fs) (orphans fs1 repo rv).
Proof.
  apply Forall_forall. unfold orphans. by intros t (d & -> & _)%list_elem_of_fmap.
Qed.

(** Every run of [clean_tag] without the remove flag performs a list of
    removals, each of a stale index entry or of a revision, and may report
    an error. *)
Lemma clean_tag_prune_changes repo tag w :
  ∃ ts, Forall (prune_removal (fs w)) ts
        ∧ fs (clean_tag args repo tag w).2 = rmtrees ts (fs w)
        ∧ removed (events_of (clean_tag args repo tag) w) = ts.
Proof.
  unfold events_of. rewrite clean_tag_prune_eq by done.
  destruct (link_of (fs w) repo tag) as [c|] eqn:Hl.
  2:{ exists []. split; [done|]. split; [done|]. simpl. by rewrite drop_app_length. }
  destruct (index_of (fs w) repo tag) as [ix|] eqn:Hi.
  2:{ exists []. split; [done|]. split; [done|]. simpl. by rewrite drop_all. }
  cbn zeta.
  destruct (revisions_of (fs w) repo) as [rv|] eqn:Hrv; cbn [fst snd].
  - rewrite <-after_app. eexists. split; [|split; [done|apply removed_after]].
    apply Forall_app. split; [by apply prune_removal_stale_of_tag|].
    apply prune_removal_orphans.
  - eexists. split; [|split; [done|apply removed_after]].
    by apply prune_removal_stale_of_tag.
Qed.

Lemma clean_repo_prune_changes image w :
  ∃ ts, Forall (prune_removal (fs w)) ts
        ∧ fs (clean_repo args image w).2 = rmtrees ts (fs w)
        ∧ removed (events_of (clean_repo args image) w) = ts.
Proof.
  destruct (isdir (fs w) (split_image "" image).1) eqn:Hdir.
  2:{ unfold events_of. rewrite clean_repo_missing_eq by done.
      exists []. split; [done|]. split; [done|]. simpl. by rewrite drop_app_length. }
  destruct (decide ((split_image "" image).2 = "")) as [Ht|Ht].
  - unfold events_of. rewrite clean_repo_all_eq by done. cbn zeta.
    destruct (revisions_of (fs w) _) as [rv|] eqn:Hrv; cbn [fst snd].
    + rewrite <-after_app. eexists. split; [|split; [done|apply removed_after]].
      apply Forall_app. split; [by apply prune_removal_stale_of_repo|].
      apply prune_removal_orphans.
    + eexists. split; [|split; [done|apply removed_after]].
      by apply prune_removal_stale_of_repo.
  - unfold events_of. rewrite clean_repo_tag_eq by done.
    apply clean_tag_prune_changes.
Qed.

(** C4.  Without the remove flag, whatever [clean_repo] and [clean_tag]
    remove is an index entry other than the current digest of its tag, or a
    revision; the directories of the repositories, the tag directories and
    the current pointers are after the run what they were before it. *)
Theorem prune_removes_only_stale_entries :
  (∀ image w,
     Forall (prune_removal (fs w)) (removed (events_of (clean_repo args image) w))
     ∧ same_frame (fs w) (fs (clean_repo args image w).2))
  ∧ (∀ repo tag w,
       Forall (prune_removal (fs w)) (removed (events_of (clean_tag args repo tag) w))
       ∧ same_frame (fs w) (fs (clean_tag args repo tag w).2)).
Proof.
  split.
  - intros image w. destruct (clean_repo_prune_changes image w) as (ts & Hts & -> & ->).
    split; [done|]. apply same_frame_rmtrees.
    eapply Forall_impl; [done|]. apply prune_removal_prunable.
  - intros repo tag w.
    destruct (clean_tag_prune_changes repo tag w) as (ts & Hts & -> & ->).
    split; [done|]. apply same_frame_rmtrees.
    eapply Forall_impl; [done|]. apply prune_removal_prunable.
Qed.

End Frame.

Lemma prune_removes_only_stale_entries_witness :
  args_remove prune_args = false
  ∧ Forall (prune_removal example_store)
      (removed (events_of (clean_repo prune_args "r:t1") example_world)).
Proof.
  split; [reflexivity|].
  exact (proj1 (proj1 (prune_removes_only_stale_entries prune_args eq_refl)
                  "r:t1" example_world)).
Defined.

(** ** C6: the sweep after pruning one tag *)

Section SingleTag.
Variable args : arguments.
Implicit Types (w : world) (repo tag image digest : string).

(** After the index prune of one tag, the wildcards still find the current
    digest of every tag in an index. *)
Lemma current_listed_after_stale w repo tag content ix t digest :
  Glob.has_magic repo = false →
  current_in_index (fs w) repo →
  plain_names (fs w) repo →
  link_of (fs w) repo tag = Some content →
  current_of (fs w) repo t = Some digest →
  digest ∈ glob_manifests
             (fs (after (stale_of_tag repo tag (Py.drop 7 content) ix) w)) repo.
Proof.
  intros Hlit Hin Hnames Hl Hc. apply elem_of_glob_manifests_literal; [done|]. exists t.
  assert (visible t = true ∧ visible digest = true) as [Hv Hvd].
  { unfold current_of, link_of in Hc.
    destruct (tag_of (fs w) repo t) as [td|] eqn:Ht; [|done]. simpl in Hc.
    destruct (tag_link td) as [c'|] eqn:Hl'; [|done]. injection Hc as <-.
    destruct (Hnames t td Ht) as [Hv Hd]. split; [done|]. by apply Hd. }
  split; [done|]. split; [done|]. unfold after. simpl.
  apply has_index_rmtrees; [apply prunable_stale_of_tag|].
  split; [by apply Hin|].
  intros (d' & [= -> <-] & _ & Hne)%stale_of_tag_index.
  unfold current_of in Hc. rewrite Hl in Hc. simpl in Hc. congruence.
Qed.

(** C6, as amended.  [clean_tag] without the remove flag, in a repository
    whose name holds none of the wildcard characters of [glob], where no
    tag and no current digest has a name that starts with a dot, and where
    the current digest of every tag is in the index of that tag, removes no
    revision that is the current digest of a tag, whichever tag is
    pruned. *)
Theorem tag_prune_keeps_current_revisions repo tag w :
  args_remove args = false →
  Glob.has_magic repo = false →
  current_in_index (fs w) repo →
  plain_names (fs w) repo →
  ∀ t digest, current_of (fs w) repo t = Some digest →
    (Revision repo digest ∉ removed (events_of (clean_tag args repo tag) w))
    ∧ (has_revision (fs w) repo digest →
       has_revision (fs (clean_tag args repo tag w).2) repo digest).
Proof.
  intros Hx Hlit Hin Hnames t digest Hc. unfold events_of.
  rewrite clean_tag_prune_eq by done.
  destruct (link_of (fs w) repo tag) as [c|] eqn:Hl.
  2:{ simpl. rewrite drop_app_length. split; [apply not_elem_of_nil|done]. }
  destruct (index_of (fs w) repo tag) as [ix|] eqn:Hi.
  2:{ simpl. rewrite drop_all. split; [apply not_elem_of_nil|done]. }
  cbn zeta.
  pose proof (current_listed_after_stale w repo tag c ix t digest Hlit Hin Hnames Hl Hc)
    as Hlisted.
  set (w1 := after (stale_of_tag repo tag (Py.drop 7 c) ix) w) in *.
  destruct (revisions_of (fs w) repo) as [rv|] eqn:Hrv; cbn [fst snd].
  - assert (Revision repo digest ∉ orphans (fs w1) repo rv) as Hno.
    { rewrite elem_of_orphans. naive_solver. }
    unfold w1. rewrite <-after_app, removed_after. fold w1.
    assert (Revision repo digest
            ∉ (stale_of_tag repo tag (Py.drop 7 c) ix ++ orphans (fs w1) repo rv)%list)
      as Hno'.
    { rewrite elem_of_app. intros [H|H]; [|done].
      by apply revision_not_stale_of_tag in H. }
    split; [done|]. intros Hrev. unfold after. simpl.
    apply has_revision_rmtrees; [|done].
    apply Forall_app. split; [apply prunable_stale_of_tag|apply prunable_orphans].
  - unfold w1. rewrite removed_after. split; [apply revision_not_stale_of_tag|].
    intros (? & ? & _). congruence.
Qed.

End SingleTag.

Lemma tag_prune_keeps_current_revisions_witness :
  args_remove prune_args = false
  ∧ Glob.has_magic "r" = false
  ∧ current_in_index example_store "r"
  ∧ plain_names example_store "r"
  ∧ current_of example_store "r" "t2" = Some "d2"
  ∧ has_revision example_store "r" "d2"
  ∧ has_revision (fs (clean_tag prune_args "r" "t1" example_world).2) "r" "d2".
Proof.
  assert (current_in_index example_store "r") as Hin.
  { intros t d Hc. apply has_index_elements.
    assert (t ∈ ["t1"; "t2"]) as Ht.
    { unfold current_of, link_of, tag_of in Hc.
      destruct (tags_of example_store "r" ≫= (.!! t)) as [td|] eqn:E; [|done].
      apply bind_Some in E as (m & Hm & E). vm_compute in Hm. injection Hm as <-.
      apply elem_of_dom_2, elem_of_elements in E. vm_compute in E.
      set_solver. }
    apply elem_of_cons in Ht as [->|Ht]; [|apply list_elem_of_singleton in Ht as ->];
      vm_compute in Hc; injection Hc as <-; apply (bool_decide_unpack _);
      vm_compute; exact I. }
  assert (plain_names example_store "r") as Hnames.
  { intros t td Ht.
    assert ((t, td) ∈ map_to_list (default ∅ (tags_of example_store "r"))) as Hl
      by (by apply elem_of_glob_tags_all).
    vm_compute in Hl.
    apply elem_of_cons in Hl as [[= -> ->]|Hl];
      [|apply list_elem_of_singleton in Hl as [= -> ->]];
      (split; [reflexivity|]); intros c [= <-]; reflexivity. }
  assert (has_revision example_store "r" "d2") as Hrev.
  { apply has_revision_elements, (bool_decide_unpack _). vm_compute. exact I. }
  split; [reflexivity|]. split; [reflexivity|]. split; [exact Hin|]. split; [exact Hnames|].
  split; [reflexivity|]. split; [exact Hrev|].
  exact (proj2 (tag_prune_keeps_current_revisions prune_args "r" "t1" example_world
                  eq_refl eq_refl Hin Hnames "t2" "d2" eq_refl) Hrev).
Defined.

(** C6 fails for a tag directory whose name starts with a dot, which the
    wildcard of [glob] does not find: in a repository with the tags [t1],
    pointing to [d1], and [.t3], pointing to [d5], each with its current
    digest in its index, pruning [t1] removes the revision [d5]. *)
Lemma hidden_tag_loses_current_revision :
  args_remove prune_args = false
  ∧ current_in_index hidden_tag_store "r"
  ∧ current_of hidden_tag_store "r" ".t3" = Some "d5"
  ∧ has_revision hidden_tag_store "r" "d5"
  ∧ Revision "r" "d5"
    ∈ removed (events_of (clean_tag prune_args "r" "t1") (World hidden_tag_store []))
  ∧ ¬ has_revision (fs (clean_tag prune_args "r" "t1" (World hidden_tag_store [])).2)
        "r" "d5".
Proof.
  split; [reflexivity|]. split.
  { intros t d Hc. apply has_index_elements.
    assert (t ∈ [".t3"; "t1"]) as Ht.
    { unfold current_of, link_of, tag_of in Hc.
      destruct (tags_of hidden_tag_store "r" ≫= (.!! t)) as [td|] eqn:E; [|done].
      apply bind_Some in E as (m & Hm & E). vm_compute in Hm. injection Hm as <-.
      apply elem_of_dom_2, elem_of_elements in E. vm_compute in E.
      set_solver. }
    apply elem_of_cons in Ht as [->|Ht]; [|apply list_elem_of_singleton in Ht as ->];
      vm_compute in Hc; injection Hc as <-; apply (bool_decide_unpack _);
      vm_compute; exact I. }
  split; [reflexivity|]. split.
  { apply has_revision_elements, (bool_decide_unpack _). vm_compute. exact I. }
  split.
  { apply (bool_decide_unpack _). vm_compute. exact I. }
  intros H%has_revision_elements. vm_compute in H.
  by apply list_elem_of_singleton in H.
Qed.

(** ** Removing tags and repositories *)

Section Removal.
Variable args : arguments.
Hypothesis with_remove : args_remove args = true.
Implicit Types (fs : gmap string repo_dir) (w : world) (repo tag image digest : string).

(** [len(tags) == 1 and tag in tags] *)
Lemma sole_tag_spec (m : gmap string tag_dir) tag :
  (length (elements (dom m)) =? 1)%nat && bool_decide (tag ∈ elements (dom m)) = true
  ↔ dom m = {[tag]}.
Proof.
  rewrite andb_true_iff, Nat.eqb_eq, bool_decide_eq_true. split.
  - intros [Hlen Hin].
    destruct (elements (dom m)) as [|x [|??]] eqn:E; simplify_eq/=.
    apply list_elem_of_singleton in Hin as ->.
    apply set_eq. intros y. rewrite <-elem_of_elements, E. set_solver.
  - intros ->. rewrite elements_singleton. split; [done|]. by left.
Qed.

Lemma isdir_lookup fs repo : is_Some (fs !! repo) → isdir fs repo = true.
Proof.
  intros H. unfold isdir. apply existsb_exists. exists repo. split.
  - apply list_elem_of_In, elem_of_elements. by apply elem_of_dom.
  - unfold under. by rewrite String.eqb_refl.
Qed.

Lemma isdir_false_lookup fs repo : isdir fs repo = false → fs !! repo = None.
Proof.
  intros H. destruct (fs !! repo) eqn:E; [|done].
  rewrite isdir_lookup in H; [done|by rewrite E].
Qed.

(** After [rmtree] of a repository nothing is left at its path or below. *)
Lemma isdir_rmtree_repo fs repo : isdir (rmtree (Repo repo) fs) repo = false.
Proof.
  unfold isdir. apply not_true_is_false.
  intros (k & Hk & Hu)%existsb_exists.
  apply list_elem_of_In, elem_of_elements, elem_of_dom in Hk as [r Hr].
  simpl in Hr. apply map_lookup_filter_Some in Hr as [_ Hno]. simpl in Hno. congruence.
Qed.

(** [clean_repo] with the remove flag. *)
Lemma clean_repo_remove_eq image w :
  isdir (fs w) (split_image "" image).1 = true →
  let repo := (split_image "" image).1 in
  let tag := (split_image "" image).2 in
  clean_repo args image w =
  match tags_of (fs w) repo with
  | None => (Raise (FileNotFoundError (repo +:+ "/_manifests/tags/")), w)
  | Some m =>
      if decide (tag = "" ∨ dom m = {[tag]}) then (Ok true, after [Repo repo] w)
      else clean_tag args repo tag w
  end.
Proof.
  unfold clean_repo. destruct (split_image "" image) as [repo tag]. simpl.
  intros Hd. unfold bind at 1, ask at 1. rewrite Hd. simpl.
  unfold bind at 1. rewrite with_remove.
  unfold bind at 1, listdir_tags, need.
  destruct (tags_of (fs w) repo) as [m|] eqn:Hm; simpl; [|done].
  unfold ret at 1.
  destruct (decide (tag = "" ∨ dom m = {[tag]})) as [Hw|Hw].
  - replace (String.eqb tag "" || _) with true; [done|].
    symmetry. apply orb_true_iff. destruct Hw as [->|Hw]; [by left|right].
    by apply sole_tag_spec.
  - replace (String.eqb tag "" || _) with false.
    + replace (String.eqb tag "") with false; [done|].
      symmetry. apply String.eqb_neq. naive_solver.
    + symmetry. apply orb_false_iff. split.
      * apply String.eqb_neq. naive_solver.
      * apply not_true_is_false. rewrite sole_tag_spec. naive_solver.
Qed.

Lemma removed_reported msg w :
  removed (drop (length (log w)) (log (reported msg w))) = [].
Proof. unfold reported. simpl. by rewrite drop_app_length. Qed.

Lemma removed_nothing w : removed (drop (length (log w)) (log w)) = [].
Proof. by rewrite drop_all. Qed.

Lemma isdir_rmtree_tag fs r0 t0 repo : isdir (rmtree (Tag r0 t0) fs) repo = isdir fs repo.
Proof. unfold isdir. simpl. by rewrite dom_alter_L. Qed.

Lemma tags_of_is_dir fs repo m : tags_of fs repo = Some m → isdir fs repo = true.
Proof.
  unfold tags_of. intros H. apply isdir_lookup. by destruct (fs !! repo).
Qed.

Lemma more_than_one_tag (m : gmap string tag_dir) tag :
  (1 < size (dom m))%nat → ¬ (dom m = {[tag]}).
Proof. intros H E. rewrite E, size_singleton in H. lia. Qed.

(** C7.  With the remove flag and a tag given, [clean_repo] removes the
    directory of the repository exactly when the tags directory lists one
    entry and that entry is the given tag, and then nothing is left of the
    repository.  When it lists more than one entry and the given tag has its
    current pointer, the only removal is that of the directory of the tag:
    the repository and its other tag directories are left as they were. *)
Theorem remove_repository_iff_sole_tag image w :
  let repo := (split_image "" image).1 in
  let tag := (split_image "" image).2 in
  let run := clean_repo args image w in
  let gone := removed (events_of (clean_repo args image) w) in
  tag ≠ "" →
  (Repo repo ∈ gone ↔ ∃ m, tags_of (fs w) repo = Some m ∧ dom m = {[tag]})
  ∧ (Repo repo ∈ gone →
     run.1 = Ok true ∧ gone = [Repo repo] ∧ isdir (fs run.2) repo = false)
  ∧ (∀ m, tags_of (fs w) repo = Some m → (1 < size (dom m))%nat →
          is_Some (link_of (fs w) repo tag) →
          run.1 = Ok true ∧ gone = [Tag repo tag]
          ∧ isdir (fs run.2) repo = true
          ∧ tags_of (fs run.2) repo = Some (delete tag m)).
Proof.
  intros repo tag run gone Ht. unfold gone, run, events_of.
  destruct (isdir (fs w) repo) eqn:Hdir.
  2:{ rewrite clean_repo_missing_eq by done. cbn [fst snd].
      rewrite removed_reported.
      assert (∀ m, tags_of (fs w) repo ≠ Some m) as Hno.
      { intros m Hm. apply tags_of_is_dir in Hm. congruence. }
      split; [|split].
      - rewrite elem_of_nil. naive_solver.
      - by intros ?%elem_of_nil.
      - intros m Hm. by destruct (Hno m). }
  rewrite clean_repo_remove_eq by done. fold repo tag.
  destruct (tags_of (fs w) repo) as [m|] eqn:Hm.
  2:{ cbn [fst snd]. rewrite removed_nothing. split; [|split].
      - rewrite elem_of_nil. naive_solver.
      - by intros ?%elem_of_nil.
      - done. }
  destruct (decide (tag = "" ∨ dom m = {[tag]})) as [[?|Hsole]|Hmore]; [done|..].
  - cbn [fst snd]. rewrite removed_after. split; [|split].
    + split; [by exists m|]. intros _. by left.
    + intros _. split; [done|]. split; [done|]. apply isdir_rmtree_repo.
    + intros m' [= <-] Hsize. by destruct (more_than_one_tag m tag).
  - rewrite clean_tag_remove_eq by done.
    destruct (link_of (fs w) repo tag) as [c|] eqn:Hl; cbn [fst snd].
    + rewrite removed_after. split; [|split].
      * split; [by intros [=]%list_elem_of_singleton|]. intros (m' & [= <-] & Hd).
        destruct Hmore. by right.
      * by intros [=]%list_elem_of_singleton.
      * intros m' [= <-] _ _. split; [done|]. split; [done|].
        change (fs (after [Tag repo tag] w)) with (rmtree (Tag repo tag) (fs w)). split.
        -- by rewrite isdir_rmtree_tag.
        -- rewrite tags_of_rmtree_tag, Hm. simpl. by rewrite decide_True.
    + rewrite removed_reported. split; [|split].
      * rewrite elem_of_nil. split; [done|]. intros (m' & [= <-] & Hd).
        destruct Hmore. by right.
      * by intros ?%elem_of_nil.
      * intros m' _ _ [? ?]. done.
Qed.

(** C10.  With the remove flag, a tag given and more than one entry in the
    tags directory, [clean_repo] is the call of [clean_tag], which removes
    nothing but the directory of the tag and leaves the revisions directory
    as it was: a revision that only the removed tag listed is still there
    afterwards, and no index lists it any more. *)
Theorem remove_tag_keeps_revisions image w m :
  let repo := (split_image "" image).1 in
  let tag := (split_image "" image).2 in
  let run := clean_repo args image w in
  let gone := removed (events_of (clean_repo args image) w) in
  tag ≠ "" →
  tags_of (fs w) repo = Some m →
  (1 < size (dom m))%nat →
  run = clean_tag args repo tag w
  ∧ (∀ t, t ∈ gone → t = Tag repo tag)
  ∧ revisions_of (fs run.2) repo = revisions_of (fs w) repo
  ∧ (is_Some (link_of (fs w) repo tag) →
     gone = [Tag repo tag]
     ∧ tag_of (fs run.2) repo tag = None
     ∧ ∀ digest,
         has_revision (fs w) repo digest →
         (∀ t, t ≠ tag → ¬ has_index (fs w) repo t digest) →
         has_revision (fs run.2) repo digest
         ∧ ∀ t, ¬ has_index (fs run.2) repo t digest).
Proof.
  intros repo tag run gone Ht Hm Hsize. unfold gone, run, events_of.
  rewrite clean_repo_remove_eq by (by eapply tags_of_is_dir). fold repo tag.
  rewrite Hm. rewrite decide_False.
  2:{ intros [?|?]; [done|]. by destruct (more_than_one_tag m tag). }
  split; [done|]. rewrite clean_tag_remove_eq by done.
  destruct (link_of (fs w) repo tag) as [c|] eqn:Hl; cbn [fst snd].
  - rewrite removed_after. split; [by intros t ->%list_elem_of_singleton|].
    change (fs (after [Tag repo tag] w)) with (rmtree (Tag repo tag) (fs w)).
    split; [apply revisions_of_rmtree_tag|]. intros _. split; [done|].
    assert (∀ t, tag_of (rmtree (Tag repo tag) (fs w)) repo t
                 = if decide (t = tag) then None else tag_of (fs w) repo t) as Htag.
    { intros t. unfold tag_of. rewrite tags_of_rmtree_tag, Hm. simpl.
      rewrite decide_True by done. rewrite lookup_delete.
      destruct (decide (tag = t)) as [->|Hne].
      - by rewrite decide_True.
      - rewrite decide_False by done. done. }
    split; [by rewrite Htag, decide_True|].
    intros digest Hrev Honly. split.
    + unfold has_revision. by rewrite revisions_of_rmtree_tag.
    + intros t (ix & Hix & Hd). unfold index_of in Hix. rewrite Htag in Hix.
      destruct (decide (t = tag)) as [->|Hne]; [done|].
      apply (Honly t Hne). by exists ix.
  - rewrite removed_reported. split; [by intros t ?%elem_of_nil|].
    split; [done|]. by intros [? ?].
Qed.

End Removal.

(** ** Events and exceptions of the pruner *)

Section Tame.
Implicit Types (w : world) (repo tag image : string).

Lemma tame_ret {A} (a : A) : tame (ret a).
Proof.
  intros w. split; [|done]. exists []. by rewrite app_nil_r.
Qed.

Lemma tame_bind {A B} (m : M A) (k : A → M B) :
  tame m → (∀ a, tame (k a)) → tame (bind m k).
Proof.
  intros Hm Hk w. unfold bind. destruct (Hm w) as [(evs & Hlog & Hev) Hexn].
  destruct (m w) as [[a|e] w1] eqn:E; simpl in *.
  - destruct (Hk a w1) as [(evs' & Hlog' & Hev') Hexn']. split; [|done].
    exists (evs ++ evs')%list. split.
    + by rewrite Hlog', Hlog, app_assoc.
    + by apply Forall_app.
  - split; [by exists evs|]. intros e' [= <-]. by apply Hexn.
Qed.

Lemma tame_ask {A} (f : gmap string repo_dir → A) : tame (ask f).
Proof. intros w. split; [|done]. exists []. by rewrite app_nil_r. Qed.

Lemma tame_need {A} path (f : gmap string repo_dir → option A) : tame (need path f).
Proof.
  intros w. unfold need. destruct (f (fs w)); simpl.
  - split; [|done]. exists []. by rewrite app_nil_r.
  - split; [exists []; by rewrite app_nil_r|]. intros e [= <-]. by exists path.
Qed.

Lemma tame_remove (t : target) : tame (remove t).
Proof.
  intros w. split; [|done]. exists [EvRemoved t]. split; [done|].
  by apply Forall_singleton.
Qed.

Lemma tame_error msg : tame (error msg false).
Proof.
  intros w. split; [|done]. exists [EvError msg]. split; [done|].
  by apply Forall_singleton.
Qed.

Lemma tame_for_each {A} (l : list A) (body : A → M unit) :
  (∀ x, tame (body x)) → tame (for_each l body).
Proof.
  intros H. induction l as [|x l IH]; simpl.
  - apply tame_ret.
  - apply tame_bind; [apply H|]. by intros _.
Qed.

Lemma tame_read_currents links currents : tame (read_currents links currents).
Proof.
  revert currents. induction links as [|t links IH]; intros currents; simpl.
  - apply tame_ret.
  - apply tame_bind; [apply tame_need|]. intros c. apply IH.
Qed.

Lemma tame_clean_revisions repo : tame (clean_revisions repo).
Proof.
  unfold clean_revisions, listdir_revisions.
  apply tame_bind; [apply tame_need|]. intros rv.
  apply tame_bind; [apply tame_ask|]. intros ms.
  apply tame_for_each. intros d. apply tame_remove.
Qed.

Lemma tame_clean_tag args repo tag : tame (clean_tag args repo tag).
Proof.
  unfold clean_tag. apply tame_bind; [apply tame_ask|]. intros found.
  destruct (negb found).
  - apply tame_bind; [apply tame_error|]. intros _. apply tame_ret.
  - apply tame_bind; [|intros _; apply tame_ret].
    destruct (args_remove args); [apply tame_remove|].
    apply tame_bind; [apply tame_need|]. intros c.
    apply tame_bind; [apply tame_need|]. intros entries.
    apply tame_bind; [|intros _; apply tame_clean_revisions].
    apply tame_for_each. intros d.
    destruct (String.eqb _ _); [apply tame_ret|apply tame_remove].
Qed.

Lemma tame_clean_repo args image : tame (clean_repo args image).
Proof.
  unfold clean_repo. destruct (split_image "" image) as [repo tag].
  apply tame_bind; [apply tame_ask|]. intros found.
  destruct (negb found).
  - apply tame_bind; [apply tame_error|]. intros _. apply tame_ret.
  - apply tame_bind.
    + destruct (args_remove args); [|apply tame_ret].
      apply tame_bind; [apply tame_need|]. intros tags. apply tame_ret.
    + intros [|].
      * apply tame_bind; [apply tame_remove|]. intros _. apply tame_ret.
      * destruct (negb _); [apply tame_clean_tag|].
        apply tame_bind; [apply tame_ask|]. intros links.
        apply tame_bind; [apply tame_read_currents|]. intros currents.
        apply tame_bind; [apply tame_ask|]. intros indexes.
        apply tame_bind.
        -- apply tame_for_each. intros d.
           destruct (bool_decide _); [apply tame_ret|apply tame_remove].
        -- intros _. apply tame_bind; [apply tame_clean_revisions|].
           intros _. apply tame_ret.
Qed.

Lemma tame_clean_all args images rc : tame (clean_all args images rc).
Proof.
  revert rc. induction images as [|image images IH]; intros rc; simpl.
  - apply tame_ret.
  - apply tame_bind; [apply tame_clean_repo|]. intros ok. apply IH.
Qed.

Lemma collections_app evs1 evs2 :
  collections (evs1 ++ evs2)%list = (collections evs1 + collections evs2)%nat.
Proof. unfold collections. by rewrite filter_app, length_app. Qed.

Lemma starts_app evs1 evs2 :
  starts (evs1 ++ evs2)%list = (starts evs1 + starts evs2)%nat.
Proof. unfold starts. by rewrite filter_app, length_app. Qed.

Lemma internal_no_api evs : Forall internal evs → collections evs = 0%nat ∧ starts evs = 0%nat.
Proof.
  unfold collections, starts. induction 1 as [|e evs He _ [IH1 IH2]]; [done|].
  rewrite !filter_cons_False; [done|..]; intros ->; done.
Qed.

End Tame.

(** ** The orchestrator *)

Section Orchestrator.
Variable args : arguments.
Variable env : environment.
Implicit Types (w : world) (repo tag image : string).

Lemma RegistryCleaner_call_eq w :
  RegistryCleaner_call args env w =
  match clean_all args (batch args (fs w)) 0 (stopped w) with
  | (Ok rc, w1) =>
      (Ok (if negb (Py.truthy (collector_value env)) then 1 else rc), collected w1)
  | (Raise e, w1) => (Raise e, w1)
  end.
Proof.
  unfold RegistryCleaner_call, bind at 1, emit at 1. fold (stopped w).
  unfold bind at 1.
  assert ((match args_images args with
           | [] => ask listdir_root
           | given => ret given
           end) (stopped w) = (Ok (batch args (fs w)), stopped w)) as ->.
  { unfold batch. by destruct (args_images args). }
  unfold bind at 1.
  destruct (clean_all args (batch args (fs w)) 0 (stopped w)) as [[rc|e] w1]; [|done].
  unfold bind at 1, garbage_collect, bind at 1, emit at 1.
  unfold collector_value, collected, bind, emit, ret. simpl.
  destruct (dockerized env); simpl; by rewrite <-app_assoc.
Qed.

Lemma validation_eq images w :
  for_each images (λ image,
    if negb (check_name image) then
      error ("Invalid Docker repository/tag: " +:+ image) true
    else ret tt) w =
  match List.find (λ image, negb (check_name image)) images with
  | Some bad => (Raise (SystemExit 1), reported ("Invalid Docker repository/tag: " +:+ bad) w)
  | None => (Ok tt, w)
  end.
Proof.
  induction images as [|image images IH]; [done|].
  simpl. unfold bind at 1. destruct (negb (check_name image)); [done|].
  simpl. apply IH.
Qed.

(** [main] once the parsed arguments ask neither for help nor for the
    version. *)
Lemma main_eq w :
  args_help args = false → args_version args = false →
  main args env w =
  match List.find (λ image, negb (check_name image)) (args_images args) with
  | Some bad => (Raise (SystemExit 1), reported ("Invalid Docker repository/tag: " +:+ bad) w)
  | None =>
      if args_remove args && match args_images args with [] => true | _ => false end then
        (Raise (SystemExit 1),
         reported "The -x option requires that you specify at least one repository..." w)
      else if registry_found env then
        match RegistryCleaner_call args env w with
        | (Ok rc, w') => (Raise (SystemExit rc), w')
        | (Raise e, w') => (Raise e, w')
        end
      else (Raise (SystemExit 1), reported "The registry container could not be used" w)
  end.
Proof.
  intros Hh Hv. unfold main. rewrite Hh, Hv.
  unfold bind at 1. rewrite validation_eq.
  destruct (List.find _ _) as [bad|]; [done|].
  unfold bind at 1.
  destruct (args_remove args && _); [done|].
  unfold ret at 1. unfold bind at 1, RegistryCleaner_init.
  destruct (registry_found env); [|done].
  unfold ret at 1. unfold bind.
  by destruct (RegistryCleaner_call args env w) as [[rc|e] w'].
Qed.

Lemma clean_all_app images1 images2 rc w :
  clean_all args (images1 ++ images2) rc w =
  match clean_all args images1 rc w with
  | (Ok rc1, w1) => clean_all args images2 rc1 w1
  | (Raise e, w1) => (Raise e, w1)
  end.
Proof.
  revert rc w. induction images1 as [|image images1 IH]; intros rc w; [done|].
  simpl. unfold bind. destruct (clean_repo args image w) as [[ok|e] w1]; [|done].
  apply IH.
Qed.

(** Once an item has failed, the status stays 1. *)
Lemma clean_all_failed images w rc w' :
  clean_all args images 1 w = (Ok rc, w') → rc = 1.
Proof.
  revert w. induction images as [|image images IH]; intros w; simpl.
  - by intros [= <- _].
  - unfold bind. destruct (clean_repo args image w) as [[ok|e] w1]; [|done].
    destruct ok; simpl; apply IH.
Qed.

(** An item that cannot be found fails with a message and touches nothing. *)
Lemma clean_repo_missing image w :
  missing args (fs w) image →
  ∃ msg, clean_repo args image w = (Ok false, reported msg w).
Proof.
  unfold missing.
  set (repo := (split_image "" image).1). set (tag := (split_image "" image).2).
  intros [Hdir|(Ht & Hl & Hlayout)].
  { eexists. by apply clean_repo_missing_eq. }
  destruct (isdir (fs w) repo) eqn:Hdir.
  2:{ eexists. by apply clean_repo_missing_eq. }
  destruct (args_remove args) eqn:Hx.
  - rewrite clean_repo_remove_eq by done. fold repo tag.
    destruct (Hlayout eq_refl) as (m & Hm & Hmore). rewrite Hm.
    rewrite decide_False by naive_solver.
    rewrite clean_tag_remove_eq by done. rewrite Hl. by eexists.
  - rewrite clean_repo_tag_eq by done. fold repo tag.
    rewrite clean_tag_prune_eq by done. rewrite Hl. by eexists.
Qed.


End Orchestrator.

(** ** C8, C5, C3: a run of the script *)

Section Runs.
Variable args : arguments.
Variable env : environment.
Implicit Types (w : world) (repo tag image : string).

Lemma batch_given fs :
  args_images args ≠ [] → batch args fs = args_images args.
Proof. unfold batch. by destruct (args_images args). Qed.

Lemma find_valid images :
  Forall (λ image, check_name image = true) images →
  List.find (λ image, negb (check_name image)) images = None.
Proof.
  induction 1 as [|image images Hv _ IH]; [done|]. simpl. by rewrite Hv.
Qed.

Lemma find_invalid images :
  Exists (λ image, check_name image = false) images →
  is_Some (List.find (λ image, negb (check_name image)) images).
Proof.
  induction 1 as [image images Hv|image images _ IH]; simpl.
  - by rewrite Hv.
  - by destruct (negb (check_name image)).
Qed.

(** C8, as amended.  When an item of the batch is reached whose directory
    is missing, or whose tag is given and has no current pointer (under the
    remove flag: in a tags directory that lists another entry),
    [clean_repo] reports it, returns false and touches nothing; the loop
    goes on with the items after it exactly as it would from that file
    system, with the status set to 1; and the process does not exit with
    status 0. *)
Theorem missing_item_fails_batch_continues before image rest rc w0 w :
  args_images args = (before ++ image :: rest)%list →
  clean_all args before 0 (stopped w0) = (Ok rc, w) →
  missing args (fs w) image →
  ∃ msg,
    clean_repo args image w = (Ok false, reported msg w)
    ∧ clean_all args (args_images args) 0 (stopped w0)
      = clean_all args rest 1 (reported msg w)
    ∧ (args_help args = false → args_version args = false →
       exit_status (main args env w0).1 ≠ 0).
Proof.
  intros Himages Hbefore Hmissing.
  destruct (clean_repo_missing args image w Hmissing) as [msg Hrun].
  exists msg. split; [done|].
  assert (clean_all args (args_images args) 0 (stopped w0)
          = clean_all args rest 1 (reported msg w)) as Hall.
  { rewrite Himages, clean_all_app, Hbefore. simpl. unfold bind. by rewrite Hrun. }
  split; [done|]. intros Hh Hv. rewrite main_eq by done.
  destruct (List.find _ _); [done|].
  destruct (args_remove args && _); [done|].
  destruct (registry_found env); [|done].
  rewrite RegistryCleaner_call_eq, batch_given.
  2:{ rewrite Himages. by destruct before. }
  rewrite Hall.
  destruct (clean_all args rest 1 (reported msg w)) as [[rc'|e] w'] eqn:Hrest.
  - apply clean_all_failed in Hrest as ->. simpl. by destruct (negb _).
  - destruct (tame_clean_all args rest 1 (reported msg w)) as [_ Hexn].
    rewrite Hrest in Hexn. destruct (Hexn e eq_refl) as [path ->]. done.
Qed.


(** How the status of the collector reaches the exit status of a run that
    gets as far as the collector. *)
Lemma collector_status_to_exit w rc w1 :
  args_help args = false → args_version args = false →
  Forall (λ image, check_name image = true) (args_images args) →
  (args_remove args = true → args_images args ≠ []) →
  registry_found env = true →
  clean_all args (batch args (fs w)) 0 (stopped w) = (Ok rc, w1) →
  exit_status (main args env w).1
  = if negb (Py.truthy (collector_value env)) then 1 else rc.
Proof.
  intros Hh Hv Hvalid Hx Hfound Hall. rewrite main_eq by done.
  rewrite find_valid by done.
  replace (args_remove args && _) with false.
  2:{ destruct (args_remove args); [|done]. specialize (Hx eq_refl).
      by destruct (args_images args). }
  by rewrite Hfound, RegistryCleaner_call_eq, Hall.
Qed.

(** Inside a container the test of the status is the wrong way round: a
    collector that fails leaves the status of the loop, a collector that
    succeeds gives the status 1. *)
Lemma dockerized_collector_status w rc w1 :
  args_help args = false → args_version args = false →
  Forall (λ image, check_name image = true) (args_images args) →
  (args_remove args = true → args_images args ≠ []) →
  registry_found env = true →
  dockerized env = true →
  clean_all args (batch args (fs w)) 0 (stopped w) = (Ok rc, w1) →
  (collector_status env ≠ 0 → exit_status (main args env w).1 = rc)
  ∧ (collector_status env = 0 → exit_status (main args env w).1 = 1).
Proof.
  intros Hh Hv Hvalid Hx Hfound Hin Hall.
  rewrite (collector_status_to_exit w rc w1) by done.
  unfold collector_value. rewrite Hin. simpl. split.
  - intros Hs. apply Z.eqb_neq in Hs. by rewrite Hs.
  - intros ->. done.
Qed.

(** Outside a container, with a Docker SDK whose [Container.wait] returns
    the status as an integer, the status of the collector reaches the exit
    status as C3 has it. *)
Lemma undockerized_collector_status w rc w1 :
  args_help args = false → args_version args = false →
  Forall (λ image, check_name image = true) (args_images args) →
  (args_remove args = true → args_images args ≠ []) →
  registry_found env = true →
  dockerized env = false →
  wait_gives_dict env = false →
  clean_all args (batch args (fs w)) 0 (stopped w) = (Ok rc, w1) →
  (collector_status env ≠ 0 → exit_status (main args env w).1 = 1)
  ∧ (collector_status env = 0 → exit_status (main args env w).1 = rc).
Proof.
  intros Hh Hv Hvalid Hx Hfound Hout Hint Hall.
  rewrite (collector_status_to_exit w rc w1) by done.
  unfold collector_value, wait_equals_zero. rewrite Hout, Hint. simpl. split.
  - intros Hs. apply Z.eqb_neq in Hs. by rewrite Hs.
  - intros ->. done.
Qed.

End Runs.

Lemma missing_item_fails_batch_continues_witness :
  args_images partial_args = ([] ++ "r:nope" :: ["r"])%list
  ∧ clean_all partial_args [] 0 (stopped example_world) = (Ok 0, stopped example_world)
  ∧ missing partial_args (fs (stopped example_world)) "r:nope"
  ∧ ∃ msg,
      clean_repo partial_args "r:nope" (stopped example_world)
      = (Ok false, reported msg (stopped example_world))
      ∧ clean_all partial_args (args_images partial_args) 0 (stopped example_world)
        = clean_all partial_args ["r"] 1 (reported msg (stopped example_world))
      ∧ (args_help partial_args = false → args_version partial_args = false →
         exit_status (main partial_args outside example_world).1 ≠ 0).
Proof.
  assert (missing partial_args (fs (stopped example_world)) "r:nope") as Hmissing.
  { right. split; [done|]. split; [vm_compute; reflexivity|]. intros [=]. }
  split; [reflexivity|]. split; [reflexivity|]. split; [exact Hmissing|].
  exact (missing_item_fails_batch_continues partial_args outside [] "r:nope" ["r"] 0
           example_world (stopped example_world) eq_refl eq_refl Hmissing).
Defined.


(** C8 fails under the remove flag for a tag directory that is the only one
    of its repository and has no current pointer: the listing of the tags
    directory decides, the repository is removed and the call returns true. *)
Lemma remove_sole_unlinked_tag :
  link_of unlinked_store "r" "t1" = None
  ∧ clean_repo remove_args "r:t1" (World unlinked_store [])
    = (Ok true, World ∅ [EvRemoved (Repo "r")]).
Proof. split; vm_compute; reflexivity. Qed.


(** C3 on the code: inside a container, with a valid name and a prune that
    succeeds, a collector that fails with status 1 gives the exit status 0,
    and a collector that succeeds gives the exit status 1. *)
Theorem dockerized_collector_status_inverted :
  check_name "r" = true
  ∧ (clean_repo single_args "r" (stopped example_world)).1 = Ok true
  ∧ dockerized failing_collector = true ∧ collector_status failing_collector = 1
  ∧ exit_status (main single_args failing_collector example_world).1 = 0
  ∧ dockerized working_collector = true ∧ collector_status working_collector = 0
  ∧ exit_status (main single_args working_collector example_world).1 = 1.
Proof. repeat split; vm_compute; reflexivity. Qed.

Lemma remove_repository_iff_sole_tag_witness :
  args_remove remove_args = true
  ∧ (split_image "" "r:t1").2 ≠ ""
  ∧ is_Some (link_of example_store "r" "t1")
  ∧ (clean_repo remove_args "r:t1" example_world).1 = Ok true
  ∧ removed (events_of (clean_repo remove_args "r:t1") example_world) = [Tag "r" "t1"].
Proof.
  set (m := default ∅ (tags_of example_store "r")).
  assert (tags_of (fs example_world) "r" = Some m) as Hm by (vm_compute; reflexivity).
  assert ((1 < size (dom m))%nat) as Hsize by (vm_compute; lia).
  assert (is_Some (link_of (fs example_world) "r" "t1")) as Hl
    by (eexists; vm_compute; reflexivity).
  assert ((split_image "" "r:t1").2 ≠ "") as Ht by done.
  destruct (proj2 (proj2 (remove_repository_iff_sole_tag remove_args eq_refl
                            "r:t1" example_world Ht)) m Hm Hsize Hl) as (H1 & H2 & _).
  split; [reflexivity|]. split; [exact Ht|]. split; [exact Hl|].
  split; [exact H1|exact H2].
Defined.

Lemma remove_tag_keeps_revisions_witness :
  args_remove remove_args = true
  ∧ (split_image "" "r:t2").2 ≠ ""
  ∧ revisions_of (fs (clean_repo remove_args "r:t2" example_world).2) "r"
    = revisions_of example_store "r".
Proof.
  set (m := default ∅ (tags_of example_store "r")).
  assert (tags_of (fs example_world) "r" = Some m) as Hm by (vm_compute; reflexivity).
  assert ((1 < size (dom m))%nat) as Hsize by (vm_compute; lia).
  assert ((split_image "" "r:t2").2 ≠ "") as Ht by done.
  destruct (remove_tag_keeps_revisions remove_args eq_refl "r:t2" example_world m
              Ht Hm Hsize) as (_ & _ & H & _).
  split; [reflexivity|]. split; [exact Ht|exact H].
Defined.

(** ** The scenarios of the specification on the example repository *)

Example check_name_ok : check_name "library/ubuntu:18.04" = true.
Proof. reflexivity. Qed.

Example check_name_separators : check_name "my-app__v2/web.ui" = true.
Proof. reflexivity. Qed.

Example check_name_upper : check_name "Library/ubuntu" = false.
Proof. reflexivity. Qed.

Example check_name_leading_separator : check_name "-app" = false.
Proof. reflexivity. Qed.

Example check_name_tag_128 :
  check_name ("r:" +:+ String.concat "" (repeat "aaaaaaaaaaaaaaaaaaaaaaaaaaaaaaaa" 4)) = true.
Proof. reflexivity. Qed.

Example check_name_long_tag :
  check_name ("r:" +:+ String.concat "" (repeat "aaaaaaaaaaaaaaaaaaaaaaaaaaaaaaaaaaaaaaaaaaa" 3)) = false.
Proof. reflexivity. Qed.

Example path_of_index :
  path_of (Index "r" "t1" "d3") = "r/_manifests/tags/t1/index/sha256/d3".
Proof. reflexivity. Qed.

(** Prune of the whole repository [r]. *)
Example prune_example :
  removed (events_of (clean_repo prune_args "r") example_world)
  = [Index "r" "t1" "d3"; Index "r" "t2" "d4"; Revision "r" "d3"; Revision "r" "d4"].
Proof. vm_compute. reflexivity. Qed.

(** Removing [r:t1] removes the directory of [t1] and leaves [t2]. *)
Example remove_one_of_two :
  let w' := (clean_repo remove_args "r:t1" example_world).2 in
  log w' = [EvRemoved (Tag "r" "t1")]
  ∧ isdir (fs w') "r" = true
  ∧ tag_of (fs w') "r" "t1" = None
  ∧ tag_of (fs w') "r" "t2" = tag_of example_store "r" "t2".
Proof. repeat split; vm_compute; reflexivity. Qed.

(** Removing the last tag removes the repository. *)
Example remove_last_tag :
  let w := World (rmtree (Tag "r" "t2") example_store) [] in
  let w' := (clean_repo remove_args "r:t1" w).2 in
  log w' = [EvRemoved (Repo "r")] ∧ isdir (fs w') "r" = false ∧ fs w' = ∅.
Proof. repeat split; vm_compute; reflexivity. Qed.

(** A batch whose first item names a missing tag: [r] is pruned all the
    same, the collector runs, the server is started, the exit status is 1. *)
Example partial_failure :
  main partial_args outside example_world
  = (Raise (SystemExit 1),
     World (fs (clean_repo prune_args "r" example_world).2)
       [EvStop; EvError "No such tag: nope in repository r";
        EvRemoved (Index "r" "t1" "d3"); EvRemoved (Index "r" "t2" "d4");
        EvRemoved (Revision "r" "d3"); EvRemoved (Revision "r" "d4");
        EvCollect; EvStart]).
Proof. vm_compute. reflexivity. Qed.

(** A directory that holds repositories and is none itself: the sweep of
    [clean_revisions] finds no revisions directory, and the exception ends
    the run before the collector and before the server is started. *)
Example namespace_directory :
  let store : gmap string repo_dir :=
    <["library" := RepoDir None None]>
      (<["library/ubuntu" := default (RepoDir None None) (example_store !! "r")]> ∅) in
  listdir_root store = ["library"]
  ∧ main prune_args outside (World store [])
    = (Raise (FileNotFoundError "library/_manifests/revisions/sha256/"),
       World store [EvStop]).
Proof. split; vm_compute; reflexivity. Qed.

(** Wildcard characters in the name of a directory: the bracket expression
    of [a[b]] matches [ab] and not [a[b]] itself, so that a prune of [a[b]]
    prunes the index of [ab], whose tag points to [d5], and then finds none
    of the revisions of [a[b]] in an index that its pattern reaches. *)
Example wildcards_in_directory_name :
  glob_repos bracket_store "a[b]" = ["ab"]
  ∧ (clean_repo prune_args "a[b]" (World bracket_store [])).1 = Ok true
  ∧ removed (events_of (clean_repo prune_args "a[b]") (World bracket_store []))
    ≡ₚ [Index "ab" "t1" "d6"; Revision "a[b]" "d1"; Revision "a[b]" "d3"].
Proof.
  split; [reflexivity|]. split; [vm_compute; reflexivity|].
  assert (removed (events_of (clean_repo prune_args "a[b]") (World bracket_store []))
          = [Index "ab" "t1" "d6"; Revision "a[b]" "d3"; Revision "a[b]" "d1"]) as ->
    by (vm_compute; reflexivity).
  apply perm_skip, perm_swap.
Qed.

(** Bracket expressions as [fnmatch.translate] reads them: a range, a
    negation, a closing bracket in the first place, a hyphen in the last, a
    range without members, and an opening bracket that nothing closes. *)
Example fnmatch_brackets :
  Glob.fnmatch "b" "[a-c]" = true
  ∧ Glob.fnmatch "b" "[!a-c]" = false
  ∧ Glob.fnmatch "]" "[]a]" = true
  ∧ Glob.fnmatch "-" "[a-]" = true
  ∧ Glob.fnmatch "b" "[c-a]" = false
  ∧ Glob.fnmatch "[a" "[a" = true
  ∧ Glob.fnmatch "abc" "a*[!b]" = true
  ∧ Glob.fnmatch "abc" "a?" = false.
Proof. repeat split; reflexivity. Qed.

(** * Further properties of the pruner *)

Section Locality.
Implicit Types (fs : gmap string repo_dir) (w : world) (repo tag image digest : string).

Lemma under_refl repo : under repo repo = true.
Proof. unfold under. by rewrite String.eqb_refl. Qed.

(** [rmtree] leaves alone what is neither the repository of its target nor
    below it. *)
Lemma lookup_rmtree_outside (t : target) fs k :
  under (target_repo t) k = false → rmtree t fs !! k = fs !! k.
Proof.
  intros Hu.
  assert (target_repo t ≠ k) as Hne.
  { intros <-. by rewrite under_refl in Hu. }
  destruct t as [r0|r0 t0|r0 t0 d0|r0 d0]; simpl in *;
    try (by apply lookup_alter_ne).
  destruct (fs !! k) as [r|] eqn:E.
  - by apply map_lookup_filter_Some_2.
  - apply map_lookup_filter_None_2. by left.
Qed.

Lemma lookup_rmtrees_outside ts fs repo k :
  Forall (λ t, target_repo t = repo) ts → under repo k = false →
  rmtrees ts fs !! k = fs !! k.
Proof.
  intros Hts Hu. revert fs. induction Hts as [|t ts Ht _ IH]; intros fs; [done|].
  rewrite rmtrees_cons, IH. apply lookup_rmtree_outside. by rewrite Ht.
Qed.

Lemma nothing_new_refl fs : nothing_new fs fs.
Proof. by split. Qed.

Lemma nothing_new_trans fs1 fs2 fs3 :
  nothing_new fs1 fs2 → nothing_new fs2 fs3 → nothing_new fs1 fs3.
Proof.
  intros [H1 H2 H3 H4 H5] [G1 G2 G3 G4 G5]. split.
  - set_solver.
  - intros repo tag H. by apply H2, G2.
  - intros repo tag c H. by apply H3, G3.
  - intros repo tag d H. by apply H4, G4.
  - intros repo d H. by apply H5, G5.
Qed.

(** A map that holds, wherever it holds something, what [fs] holds there. *)
Lemma nothing_new_sub fs fs' :
  (∀ k r, fs' !! k = Some r → fs !! k = Some r) → nothing_new fs fs'.
Proof.
  intros Hsub.
  assert (∀ repo m, tags_of fs' repo = Some m → tags_of fs repo = Some m) as Htags.
  { unfold tags_of. intros repo m H.
    destruct (fs' !! repo) as [r|] eqn:E; [|done]. by rewrite (Hsub _ _ E). }
  assert (∀ repo tag td, tag_of fs' repo tag = Some td → tag_of fs repo tag = Some td)
    as Htag.
  { unfold tag_of. intros repo tag td H.
    destruct (tags_of fs' repo) as [m|] eqn:E; [|done]. by rewrite (Htags _ _ E). }
  split.
  - intros k [r Hr]%elem_of_dom. apply elem_of_dom. exists r. by apply Hsub.
  - intros repo tag [td H]. exists td. by apply Htag.
  - unfold link_of. intros repo tag c H.
    destruct (tag_of fs' repo tag) as [td|] eqn:E; [|done]. by rewrite (Htag _ _ _ E).
  - unfold has_index, index_of. intros repo tag d (ix & H & Hd). exists ix.
    split; [|done].
    destruct (tag_of fs' repo tag) as [td|] eqn:E; [|done]. by rewrite (Htag _ _ _ E).
  - unfold has_revision, revisions_of. intros repo d (rv & H & Hd). exists rv.
    split; [|done].
    destruct (fs' !! repo) as [r|] eqn:E; [|done]. by rewrite (Hsub _ _ E).
Qed.

Lemma tag_of_rmtree_tag r0 t0 fs repo tag :
  tag_of (rmtree (Tag r0 t0) fs) repo tag =
  if decide (r0 = repo ∧ t0 = tag) then None else tag_of fs repo tag.
Proof.
  unfold tag_of. rewrite tags_of_rmtree_tag.
  destruct (tags_of fs repo) as [m|]; simpl; [|by case_decide].
  destruct (decide (r0 = repo)) as [->|Hr].
  - rewrite lookup_delete. destruct (decide (t0 = tag)) as [->|Ht].
    + by rewrite decide_True.
    + by rewrite decide_False by naive_solver.
  - by rewrite decide_False by naive_solver.
Qed.

Lemma nothing_new_rmtree (t : target) fs : nothing_new fs (rmtree t fs).
Proof.
  destruct t as [r0|r0 t0|r0 t0 d0|r0 d0].
  - apply nothing_new_sub. intros k r H. simpl in H.
    by apply map_lookup_filter_Some in H as [H _].
  - split.
    + simpl. by rewrite dom_alter_L.
    + intros repo tag. rewrite tag_of_rmtree_tag. case_decide; [by intros [? ?]|done].
    + intros repo tag c. unfold link_of. rewrite tag_of_rmtree_tag. by case_decide.
    + intros repo tag d. unfold has_index, index_of. rewrite tag_of_rmtree_tag.
      case_decide; [|done]. by intros (? & ? & _).
    + intros repo d. unfold has_revision. by rewrite revisions_of_rmtree_tag.
  - pose proof (same_frame_rmtree (Index r0 t0 d0) fs I) as [H1 H2 H3 H4 H5]. split.
    + by rewrite H1.
    + intros repo tag. unfold tag_of.
      specialize (H2 repo).
      destruct (tags_of (rmtree (Index r0 t0 d0) fs) repo) as [m'|],
               (tags_of fs repo) as [m|]; simplify_eq/=; try by intros [? ?].
      rewrite <-!elem_of_dom. by rewrite H2.
    + intros repo tag c. by rewrite H3.
    + intros repo tag d. rewrite has_index_rmtree by done. by intros [? _].
    + intros repo d. rewrite has_revision_rmtree by done. by intros [? _].
  - pose proof (same_frame_rmtree (Revision r0 d0) fs I) as [H1 H2 H3 H4 H5]. split.
    + by rewrite H1.
    + intros repo tag. unfold tag_of. by rewrite tags_of_rmtree_revision.
    + intros repo tag c. by rewrite H3.
    + intros repo tag d. rewrite has_index_rmtree by done. by intros [? _].
    + intros repo d. rewrite has_revision_rmtree by done. by intros [? _].
Qed.

Lemma nothing_new_rmtrees ts fs : nothing_new fs (rmtrees ts fs).
Proof.
  revert fs. induction ts as [|t ts IH]; intros fs.
  - apply nothing_new_refl.
  - rewrite rmtrees_cons.
    eapply nothing_new_trans; [apply nothing_new_rmtree|apply IH].
Qed.

Lemma target_repo_stale_of_tag repo tag current ix :
  Forall (λ t, target_repo t = repo) (stale_of_tag repo tag current ix).
Proof. apply Forall_forall. by intros t (d & -> & _)%stale_of_tag_index. Qed.

Lemma target_repo_stale_of_repo fs repo :
  Glob.has_magic repo = false →
  Forall (λ t, target_repo t = repo) (stale_of_repo fs repo).
Proof.
  intros Hlit. apply Forall_forall.
  intros t (r & tg & d & -> & Hin & _)%stale_of_repo_index.
  by apply elem_of_glob_index_literal in Hin as [-> _].
Qed.

Lemma target_repo_orphans fs repo rv :
  Forall (λ t, target_repo t = repo) (orphans fs repo rv).
Proof.
  apply Forall_forall. unfold orphans. by intros t (d & -> & _)%list_elem_of_fmap.
Qed.

(** Whatever the flags, a run of [clean_repo] comes down to removals, which
    are in the repository of the image when its name holds no wildcard
    character. *)
Lemma clean_repo_changes args image w :
  ∃ ts, fs (clean_repo args image w).2 = rmtrees ts (fs w)
        ∧ (Glob.has_magic (split_image "" image).1 = false →
           Forall (λ t, target_repo t = (split_image "" image).1) ts).
Proof.
  set (repo := (split_image "" image).1). set (tag := (split_image "" image).2).
  destruct (isdir (fs w) repo) eqn:Hdir.
  2:{ rewrite clean_repo_missing_eq by done. by exists []. }
  destruct (args_remove args) eqn:Hx.
  - rewrite clean_repo_remove_eq by done. fold repo tag.
    destruct (tags_of (fs w) repo) as [m|]; [|by exists []].
    case_decide.
    + exists [Repo repo]. split; [done|]. intros _. by apply Forall_singleton.
    + rewrite clean_tag_remove_eq by done.
      destruct (link_of (fs w) repo tag); [|by exists []].
      exists [Tag repo tag]. split; [done|]. intros _. by apply Forall_singleton.
  - destruct (decide (tag = "")) as [Ht|Ht].
    + rewrite clean_repo_all_eq by done. fold repo. cbn zeta.
      destruct (revisions_of (fs w) repo) as [rv|]; cbn [fst snd].
      * rewrite <-after_app. eexists. split; [done|]. intros Hlit.
        apply Forall_app.
        split; [by apply target_repo_stale_of_repo|apply target_repo_orphans].
      * eexists. split; [done|]. intros Hlit. by apply target_repo_stale_of_repo.
    + rewrite clean_repo_tag_eq by done. fold repo tag.
      rewrite clean_tag_prune_eq by done.
      destruct (link_of (fs w) repo tag) as [c|]; [|by exists []].
      destruct (index_of (fs w) repo tag) as [ix|]; [|by exists []].
      cbn zeta. destruct (revisions_of (fs w) repo) as [rv|]; cbn [fst snd].
      * rewrite <-after_app. eexists. split; [done|]. intros _.
        apply Forall_app. split; [apply target_repo_stale_of_tag|apply target_repo_orphans].
      * eexists. split; [done|]. intros _. apply target_repo_stale_of_tag.
Qed.

(** X1.  Whatever the flags and however it ends, [clean_repo], given a
    repository whose name holds none of the wildcard characters of [glob],
    leaves every directory that is neither that repository nor below it
    exactly as it was. *)
Theorem clean_repo_touches_only_its_repository args image w k :
  Glob.has_magic (split_image "" image).1 = false →
  under (split_image "" image).1 k = false →
  fs (clean_repo args image w).2 !! k = fs w !! k.
Proof.
  intros Hlit Hu. destruct (clean_repo_changes args image w) as (ts & -> & Hts).
  eapply lookup_rmtrees_outside; [by apply Hts|done].
Qed.

(** X2.  Whatever the flags and however it ends, [clean_repo] creates
    nothing: every directory, tag, current pointer, index entry and revision
    that is there afterwards was there before, with the same content of the
    pointer. *)
Theorem clean_repo_creates_nothing args image w :
  nothing_new (fs w) (fs (clean_repo args image w).2).
Proof.
  destruct (clean_repo_changes args image w) as (ts & -> & _).
  apply nothing_new_rmtrees.
Qed.

End Locality.

Lemma clean_repo_touches_only_its_repository_witness :
  Glob.has_magic (split_image "" "r:t1").1 = false
  ∧ under (split_image "" "r:t1").1 "s" = false
  ∧ fs (clean_repo remove_args "r:t1" (World neighbour_store [])).2 !! "s"
    = neighbour_store !! "s".
Proof.
  split; [reflexivity|]. split; [reflexivity|].
  exact (clean_repo_touches_only_its_repository remove_args "r:t1"
           (World neighbour_store []) "s" eq_refl eq_refl).
Defined.

Section Outcomes.
Implicit Types (fs : gmap string repo_dir) (w : world) (repo tag image digest : string).

(** X3.  [clean_repo] returns false exactly for an item that cannot be
    found, and a call that returns false has removed nothing: it leaves
    the file system as it was and logs one message. *)
Theorem clean_repo_false_iff_missing args image w :
  ((clean_repo args image w).1 = Ok false ↔ missing args (fs w) image)
  ∧ ((clean_repo args image w).1 = Ok false →
     ∃ msg, (clean_repo args image w).2 = reported msg w).
Proof.
  assert ((clean_repo args image w).1 = Ok false → missing args (fs w) image) as Hfwd.
  { unfold missing.
    set (repo := (split_image "" image).1). set (tag := (split_image "" image).2).
    destruct (isdir (fs w) repo) eqn:Hdir; [|by left].
    intros Hrun. right. destruct (args_remove args) eqn:Hx.
    - rewrite clean_repo_remove_eq in Hrun by done. fold repo tag in Hrun.
      destruct (tags_of (fs w) repo) as [m|] eqn:Hm; [|done].
      destruct (decide (tag = "" ∨ dom m = {[tag]})) as [?|Hno]; [done|].
      rewrite clean_tag_remove_eq in Hrun by done.
      destruct (link_of (fs w) repo tag) eqn:Hl; [done|].
      split; [naive_solver|]. split; [done|]. intros _. exists m. naive_solver.
    - destruct (decide (tag = "")) as [Ht|Ht].
      + rewrite clean_repo_all_eq in Hrun by done. cbn zeta in Hrun.
        by destruct (revisions_of (fs w) _).
      + rewrite clean_repo_tag_eq in Hrun by done. fold repo tag in Hrun.
        rewrite clean_tag_prune_eq in Hrun by done.
        destruct (link_of (fs w) repo tag) eqn:Hl.
        * destruct (index_of (fs w) repo tag); [|done]. cbn zeta in Hrun.
          by destruct (revisions_of (fs w) repo).
        * split; [done|]. split; [done|]. intros [=]. }
  split; [split; [done|]|].
  - intros Hm. destruct (clean_repo_missing args image w Hm) as [msg ->]. done.
  - intros Hrun. destruct (clean_repo_missing args image w (Hfwd Hrun)) as [msg ->].
    by exists msg.
Qed.

Lemma tags_of_rmtrees_revisions repo ds fs r :
  tags_of (rmtrees (Revision repo <$> ds) fs) r = tags_of fs r.
Proof.
  revert fs. induction ds as [|d ds IH]; intros fs; [done|].
  change (rmtrees (Revision repo <$> d :: ds) fs)
    with (rmtrees (Revision repo <$> ds) (rmtree (Revision repo d) fs)).
  rewrite IH. apply tags_of_rmtree_revision.
Qed.

Lemma revisions_of_rmtrees_revisions repo ds fs r :
  r ≠ repo → revisions_of (rmtrees (Revision repo <$> ds) fs) r = revisions_of fs r.
Proof.
  intros Hne. revert fs. induction ds as [|d ds IH]; intros fs; [done|].
  change (rmtrees (Revision repo <$> d :: ds) fs)
    with (rmtrees (Revision repo <$> ds) (rmtree (Revision repo d) fs)).
  rewrite IH, revisions_of_rmtree_revision.
  destruct (revisions_of fs r); simpl; [|done]. by rewrite decide_False.
Qed.

(** X4.  [clean_revisions] raises [FileNotFoundError] and changes nothing
    when the repository has no revisions directory.  Otherwise it returns,
    and the revisions that are left are exactly those that were there and
    that the pattern of [glob] finds in an index; the tags directories and
    the revisions of other repositories are as they were.  For a repository
    whose name holds none of the wildcard characters of [glob], what the
    pattern finds are the index entries of the tags of the repository,
    where neither the name of the tag nor the digest starts with a dot. *)
Theorem clean_revisions_keeps_listed repo w :
  (revisions_of (fs w) repo = None →
   clean_revisions repo w
   = (Raise (FileNotFoundError (repo +:+ "/_manifests/revisions/sha256/")), w))
  ∧ (is_Some (revisions_of (fs w) repo) →
     let w' := (clean_revisions repo w).2 in
     (clean_revisions repo w).1 = Ok tt
     ∧ (∀ d, has_revision (fs w') repo d ↔
             has_revision (fs w) repo d ∧ d ∈ glob_manifests (fs w) repo)
     ∧ (Glob.has_magic repo = false →
        ∀ d, has_revision (fs w') repo d ↔
             has_revision (fs w) repo d
             ∧ ∃ tag, visible tag = true ∧ visible d = true
                      ∧ has_index (fs w) repo tag d)
     ∧ (∀ r, tags_of (fs w') r = tags_of (fs w) r)
     ∧ (∀ r, r ≠ repo → revisions_of (fs w') r = revisions_of (fs w) r)).
Proof.
  rewrite clean_revisions_eq. split.
  - by intros ->.
  - intros [rv Hrv]. rewrite Hrv. cbn [fst snd]. split; [done|].
    assert (∀ d, has_revision (fs (after (orphans (fs w) repo rv) w)) repo d ↔
                 has_revision (fs w) repo d ∧ d ∈ glob_manifests (fs w) repo) as Hleft.
    { intros d. unfold after. cbn [fs].
      rewrite has_revision_rmtrees by apply prunable_orphans.
      rewrite elem_of_orphans. unfold has_revision. rewrite Hrv.
      destruct (decide (d ∈ glob_manifests (fs w) repo)); naive_solver. }
    split; [done|]. split; [|split].
    + intros Hlit d. by rewrite Hleft, elem_of_glob_manifests_literal.
    + intros r. apply tags_of_rmtrees_revisions.
    + intros r Hne. by apply revisions_of_rmtrees_revisions.
Qed.

Lemma index_of_rmtree_index_other r0 t0 d0 fs repo tag :
  (r0, t0) ≠ (repo, tag) →
  index_of (rmtree (Index r0 t0 d0) fs) repo tag = index_of fs repo tag.
Proof.
  intros Hne. unfold index_of. rewrite tag_of_rmtree_index.
  destruct (tag_of fs repo tag); simpl; [|done].
  rewrite decide_False; [done|]. intros [-> ->]. done.
Qed.

Lemma index_of_rmtrees_stale_of_tag repo tag current ix fs r t :
  (r, t) ≠ (repo, tag) →
  index_of (rmtrees (stale_of_tag repo tag current ix) fs) r t = index_of fs r t.
Proof.
  intros Hne. unfold stale_of_tag.
  generalize (filter (λ index, String.eqb index current = false) (elements ix)).
  intros ds. revert fs. induction ds as [|d ds IH]; intros fs; [done|].
  change (rmtrees (Index repo tag <$> d :: ds) fs)
    with (rmtrees (Index repo tag <$> ds) (rmtree (Index repo tag d) fs)).
  rewrite IH. apply index_of_rmtree_index_other. congruence.
Qed.

Lemma index_of_rmtrees_revisions repo ds fs r t :
  index_of (rmtrees (Revision repo <$> ds) fs) r t = index_of fs r t.
Proof. unfold index_of, tag_of. by rewrite tags_of_rmtrees_revisions. Qed.

(** X5.  After [clean_tag] without the remove flag has returned, the index
    of the tag lists the current digest of the tag if it listed it before,
    and nothing else; the index of every other tag and every current
    pointer is as it was. *)
Theorem clean_tag_leaves_current_in_index args repo tag w w' :
  args_remove args = false →
  clean_tag args repo tag w = (Ok true, w') →
  (∀ d, has_index (fs w') repo tag d ↔
        has_index (fs w) repo tag d ∧ current_of (fs w) repo tag = Some d)
  ∧ (∀ r t, (r, t) ≠ (repo, tag) → index_of (fs w') r t = index_of (fs w) r t)
  ∧ (∀ r t, link_of (fs w') r t = link_of (fs w) r t).
Proof.
  intros Hx Hrun. rewrite clean_tag_prune_eq in Hrun by done.
  destruct (link_of (fs w) repo tag) as [c|] eqn:Hl; [|done].
  destruct (index_of (fs w) repo tag) as [ix|] eqn:Hi; [|done].
  cbn zeta in Hrun. destruct (revisions_of (fs w) repo) as [rv|]; [|done].
  injection Hrun as <-. unfold after. cbn [fs]. split; [|split].
  - intros d. rewrite has_index_rmtrees by apply prunable_orphans.
    rewrite has_index_rmtrees by apply prunable_stale_of_tag.
    rewrite elem_of_stale_of_tag. unfold current_of. rewrite Hl. simpl.
    pose proof (index_not_orphan
                  (rmtrees (stale_of_tag repo tag (Py.drop 7 c) ix) (fs w)) repo rv
                  repo tag d) as Hno.
    unfold has_index. rewrite Hi.
    destruct (decide (d = Py.drop 7 c)) as [->|Hne]; [naive_solver|].
    split; [|naive_solver]. intros [[(ix' & [= <-] & Hd) Hstale] _].
    destruct Hstale. done.
  - intros r t Hne. unfold orphans.
    by rewrite index_of_rmtrees_revisions, index_of_rmtrees_stale_of_tag.
  - intros r t. symmetry.
    transitivity (link_of (rmtrees (stale_of_tag repo tag (Py.drop 7 c) ix) (fs w)) r t).
    + symmetry. apply same_frame_rmtrees, prunable_stale_of_tag.
    + symmetry. apply same_frame_rmtrees, prunable_orphans.
Qed.

Lemma has_index_after_prune_all w repo t d w' :
  Glob.has_magic repo = false →
  (w' = after (stale_of_repo (fs w) repo) w
   ∨ ∃ rv, w' = after (orphans (fs (after (stale_of_repo (fs w) repo) w)) repo rv)
                  (after (stale_of_repo (fs w) repo) w)) →
  has_index (fs w') repo t d ↔
  has_index (fs w) repo t d
  ∧ (visible t = true → visible d = true → d ∈ currents_of (fs w) repo).
Proof.
  intros Hlit.
  assert (has_index (rmtrees (stale_of_repo (fs w) repo) (fs w)) repo t d ↔
          has_index (fs w) repo t d
          ∧ (visible t = true → visible d = true → d ∈ currents_of (fs w) repo)) as H1.
  { rewrite has_index_rmtrees by apply prunable_stale_of_repo.
    rewrite elem_of_stale_of_repo, elem_of_glob_index_literal by done.
    destruct (decide (d ∈ currents_of (fs w) repo)); naive_solver. }
  intros [->|[rv ->]]; unfold after; cbn [fs]; [done|].
  rewrite has_index_rmtrees by apply prunable_orphans. rewrite H1.
  pose proof (index_not_orphan
                (rmtrees (stale_of_repo (fs w) repo) (fs w)) repo rv repo t d).
  naive_solver.
Qed.

(** X6.  A prune of a whole repository whose name holds none of the
    wildcard characters of [glob], however it ends, removes from the indexes
    of the repository exactly the entries that the wildcards reach, those
    where neither the name of the tag nor the digest starts with a dot,
    whose digest is not the current digest of a tag whose name does not
    start with a dot: an entry that is left and that the wildcards reach is
    the current digest of such a tag, and an entry under a name that starts
    with a dot is never removed. *)
Theorem prune_all_leaves_current_index_entries args image w :
  args_remove args = false →
  (split_image "" image).2 = "" →
  Glob.has_magic (split_image "" image).1 = false →
  let repo := (split_image "" image).1 in
  let w' := (clean_repo args image w).2 in
  ∀ t d,
    has_index (fs w') repo t d ↔
    has_index (fs w) repo t d
    ∧ (visible t = true → visible d = true →
       ∃ t', visible t' = true ∧ current_of (fs w) repo t' = Some d).
Proof.
  intros Hx Ht Hlit repo w' t d. unfold w'.
  setoid_rewrite <-(elem_of_currents_of_literal (fs w) repo d Hlit).
  destruct (isdir (fs w) repo) eqn:Hdir.
  2:{ rewrite clean_repo_missing_eq by done. cbn [snd reported fs].
      split; [|by intros [? _]]. intros (ix & Hix & _).
      unfold index_of, tag_of, tags_of in Hix.
      by rewrite (isdir_false_lookup _ _ Hdir) in Hix. }
  rewrite clean_repo_all_eq by done. fold repo. cbn zeta.
  apply has_index_after_prune_all; [done|].
  destruct (revisions_of (fs w) repo) as [rv|]; cbn [snd]; [right; by exists rv|by left].
Qed.

(** X7.  A prune keeps the invariant of the registry that the current digest
    of a tag is in the index of that tag: if it holds in a repository before
    [clean_repo] runs without the remove flag, it holds there afterwards,
    however the run ends. *)
Theorem prune_keeps_current_in_index args image w r :
  args_remove args = false →
  current_in_index (fs w) r →
  current_in_index (fs (clean_repo args image w).2) r.
Proof.
  intros Hx Hin t d Hc.
  destruct (clean_repo_prune_changes args Hx image w) as (ts & Hts & Hfs & _).
  rewrite Hfs in *.
  assert (Forall prunable ts) as Hp.
  { eapply Forall_impl; [done|]. apply prune_removal_prunable. }
  rewrite (current_of_frame (fs w)) in Hc by by apply same_frame_rmtrees.
  apply has_index_rmtrees; [done|]. split; [by apply Hin|].
  intros Hel. rewrite Forall_forall in Hts. by apply (Hts _ Hel).
Qed.

(** X8.  In a repository whose name holds none of the wildcard characters
    of [glob], where no tag and no current digest has a name that starts
    with a dot and where the current digest of every tag is in the index of
    that tag, a prune of [clean_repo] without the remove flag, of one tag or
    of all, removes no revision that a tag points to. *)
Theorem prune_keeps_current_revisions args image w :
  args_remove args = false →
  let repo := (split_image "" image).1 in
  Glob.has_magic repo = false →
  current_in_index (fs w) repo →
  plain_names (fs w) repo →
  ∀ t d, current_of (fs w) repo t = Some d →
         has_revision (fs w) repo d →
         has_revision (fs (clean_repo args image w).2) repo d.
Proof.
  intros Hx repo Hlit Hin Hnames t d Hc Hrev.
  destruct (isdir (fs w) repo) eqn:Hdir.
  2:{ by rewrite clean_repo_missing_eq by done. }
  destruct (decide ((split_image "" image).2 = "")) as [Ht|Ht].
  - rewrite clean_repo_all_eq by done. fold repo. cbn zeta.
    assert (visible t = true ∧ visible d = true) as [Hv Hvd].
    { unfold current_of, link_of in Hc.
      destruct (tag_of (fs w) repo t) as [td|] eqn:Htd; [|done]. simpl in Hc.
      destruct (tag_link td) as [c'|] eqn:Hl'; [|done]. injection Hc as <-.
      destruct (Hnames t td Htd) as [Hv Hd]. split; [done|]. by apply Hd. }
    assert (d ∈ glob_manifests (fs (after (stale_of_repo (fs w) repo) w)) repo)
      as Hlisted.
    { apply elem_of_glob_manifests_literal; [done|].
      exists t. split; [done|]. split; [done|].
      refine (proj2 (has_index_after_prune_all w repo t d
                       (after (stale_of_repo (fs w) repo) w) Hlit _) _); [by left|].
      split; [by apply Hin|].
      intros _ _. apply elem_of_currents_of_literal; [done|]. by exists t. }
    destruct Hrev as (rv & Hrv & Hd). rewrite Hrv. cbn [snd].
    unfold after at 1. cbn [fs].
    apply has_revision_rmtrees; [apply prunable_orphans|]. split.
    + unfold after. cbn [fs].
      apply has_revision_rmtrees; [apply prunable_stale_of_repo|].
      split; [by exists rv|]. apply revision_not_stale_of_repo.
    + rewrite elem_of_orphans. naive_solver.
  - rewrite clean_repo_tag_eq by done. fold repo.
    set (tag := (split_image "" image).2).
    rewrite clean_tag_prune_eq by done.
    destruct (link_of (fs w) repo tag) as [c|] eqn:Hl; [|done].
    destruct (index_of (fs w) repo tag) as [ix|] eqn:Hi; [|done].
    cbn zeta.
    pose proof (current_listed_after_stale w repo tag c ix t d Hlit Hin Hnames Hl Hc)
      as Hlisted.
    destruct Hrev as (rv & Hrv & Hd). rewrite Hrv. cbn [snd].
    unfold after at 1. cbn [fs].
    apply has_revision_rmtrees; [apply prunable_orphans|]. split.
    + unfold after. cbn [fs].
      apply has_revision_rmtrees; [apply prunable_stale_of_tag|].
      split; [by exists rv|]. apply revision_not_stale_of_tag.
    + rewrite elem_of_orphans. naive_solver.
Qed.

(** X9.  With the remove flag and no tag, [clean_repo] on a directory that
    is there lists its tags directory.  If that is absent, the call raises
    [FileNotFoundError] and removes nothing.  If it is there, whatever it
    lists, the call returns true after one removal, that of the directory:
    nothing is left at its path or below, and every other directory is as
    it was. *)
Theorem remove_untagged_removes_repository args image w :
  args_remove args = true →
  (split_image "" image).2 = "" →
  let repo := (split_image "" image).1 in
  isdir (fs w) repo = true →
  (tags_of (fs w) repo = None →
   clean_repo args image w
   = (Raise (FileNotFoundError (repo +:+ "/_manifests/tags/")), w))
  ∧ (is_Some (tags_of (fs w) repo) →
     let w' := (clean_repo args image w).2 in
     (clean_repo args image w).1 = Ok true
     ∧ removed (events_of (clean_repo args image) w) = [Repo repo]
     ∧ isdir (fs w') repo = false
     ∧ (∀ k, under repo k = true → fs w' !! k = None)
     ∧ (∀ k, under repo k = false → fs w' !! k = fs w !! k)).
Proof.
  intros Hx Ht repo Hdir. unfold events_of.
  rewrite clean_repo_remove_eq by done. fold repo. rewrite Ht. split.
  - by intros ->.
  - intros [m ->]. rewrite decide_True by by left. cbn [fst snd].
    split; [done|]. split; [apply removed_after|].
    change (fs (after [Repo repo] w)) with (rmtree (Repo repo) (fs w)).
    split; [apply isdir_rmtree_repo|]. split.
    + intros k Hk. simpl. apply map_lookup_filter_None_2. right.
      intros r _. simpl. congruence.
    + intros k Hk. by apply lookup_rmtree_outside.
Qed.

End Outcomes.

(** * Further properties of a run *)

Section RunShape.
Variable args : arguments.
Variable env : environment.
Implicit Types (w : world) (repo tag image : string).

(** The log of [__call__]: the stop, events of the pruner, and then either
    the collector and the start, or an exception. *)
Lemma call_shape w :
  ∃ mid, Forall internal mid
    ∧ ((∃ rc, (RegistryCleaner_call args env w).1 = Ok rc
              ∧ log (RegistryCleaner_call args env w).2
                = (log w ++ EvStop :: mid ++ [EvCollect; EvStart])%list)
       ∨ (∃ path, (RegistryCleaner_call args env w).1 = Raise (FileNotFoundError path)
                  ∧ log (RegistryCleaner_call args env w).2
                    = (log w ++ EvStop :: mid)%list)).
Proof.
  rewrite RegistryCleaner_call_eq.
  destruct (tame_clean_all args (batch args (fs w)) 0 (stopped w))
    as [(mid & Hlog & Hint) Hexn].
  exists mid. split; [done|].
  destruct (clean_all args (batch args (fs w)) 0 (stopped w)) as [[rc|e] w1];
    cbn [fst snd] in *.
  - left. eexists. split; [done|]. unfold collected. cbn [log]. rewrite Hlog.
    unfold stopped. cbn [log]. by rewrite <-!app_assoc.
  - right. destruct (Hexn e eq_refl) as [path ->]. exists path. split; [done|].
    rewrite Hlog. unfold stopped. cbn [log]. by rewrite <-!app_assoc.
Qed.

(** A run of [main] either ends before the server is touched, with an exit
    status, the file system as it was and at most a message in the log, or
    it is the call of the cleaner. *)
Lemma main_cases w :
  ((∃ status, (main args env w).1 = Raise (SystemExit status))
   ∧ fs (main args env w).2 = fs w
   ∧ Forall is_error (events_of (main args env) w))
  ∨ (log (main args env w).2 = log (RegistryCleaner_call args env w).2
     ∧ fs (main args env w).2 = fs (RegistryCleaner_call args env w).2
     ∧ match (RegistryCleaner_call args env w).1 with
       | Ok rc => (main args env w).1 = Raise (SystemExit rc)
       | Raise e => (main args env w).1 = Raise e
       end).
Proof.
  assert (∀ msg status,
            (∃ s, (Raise (A := unit) (SystemExit status), reported msg w).1
                  = Raise (SystemExit s))
            ∧ fs (Raise (A := unit) (SystemExit status), reported msg w).2 = fs w
            ∧ Forall is_error
                (drop (length (log w))
                   (log (Raise (A := unit) (SystemExit status), reported msg w).2)))
    as Hearly.
  { intros msg status. split; [by eexists|]. split; [done|].
    cbn [snd reported log]. rewrite drop_app_length. by apply Forall_singleton. }
  unfold events_of.
  destruct (args_help args) eqn:Hh.
  { left. unfold main. rewrite Hh. unfold raise. cbn [fst snd].
    split; [by eexists|]. split; [done|]. by rewrite drop_all. }
  destruct (args_version args) eqn:Hv.
  { left. unfold main. rewrite Hh, Hv. unfold raise. cbn [fst snd].
    split; [by eexists|]. split; [done|]. by rewrite drop_all. }
  rewrite main_eq by done.
  destruct (List.find _ _); [left; apply Hearly|].
  destruct (args_remove args && _); [left; apply Hearly|].
  destruct (registry_found env); [|left; apply Hearly].
  right. by destruct (RegistryCleaner_call args env w) as [[rc|e] w'].
Qed.

Lemma elem_of_internal e evs : Forall internal evs → e ∈ evs → internal e.
Proof. rewrite Forall_forall. auto. Qed.

Lemma elem_of_is_error e evs : Forall is_error evs → e ∈ evs → is_error e.
Proof. rewrite Forall_forall. auto. Qed.

Lemma clean_all_status images rc w rc' w' :
  clean_all args images rc w = (Ok rc', w') → rc' = rc ∨ rc' = 1.
Proof.
  revert rc w. induction images as [|image images IH]; intros rc w; simpl.
  - intros [= <- _]. by left.
  - unfold bind. destruct (clean_repo args image w) as [[ok|e] w1]; [|done].
    intros H. apply IH in H. destruct ok; simpl in H; naive_solver.
Qed.

(** X14.  Outside a container, in a run that gets as far as the collector:
    with a Docker SDK whose [Container.wait] returns the exit status as an
    integer, the exit status of the run is that of the loop over the images
    when the collector exits with 0, and 1 when it exits with anything
    else; with a Docker SDK whose [Container.wait] returns a dictionary,
    the comparison with 0 never holds and the exit status of the run is 1,
    whatever the collector and the loop did. *)
Theorem collector_status_outside_container w rc w1 :
  args_help args = false → args_version args = false →
  Forall (λ image, check_name image = true) (args_images args) →
  (args_remove args = true → args_images args ≠ []) →
  registry_found env = true →
  dockerized env = false →
  clean_all args (batch args (fs w)) 0 (stopped w) = (Ok rc, w1) →
  exit_status (main args env w).1
  = if wait_gives_dict env then 1
    else if collector_status env =? 0 then rc else 1.
Proof.
  intros Hh Hv Hvalid Hx Hfound Hout Hall.
  rewrite (collector_status_to_exit args env w rc w1) by done.
  unfold collector_value, wait_equals_zero. rewrite Hout. simpl.
  destruct (wait_gives_dict env); [done|]. simpl. by destruct (_ =? _).
Qed.

End RunShape.

(** X10.  Every removal of a run of [main] happens while the server is
    stopped and before the collector runs: in the log of the run, a removal
    comes after the stop of the server, and neither the collector nor the
    start of the server comes before it. *)
Theorem removals_while_stopped (cmd : command_line) env w before t after_it :
  events_of (main cmd env) w = (before ++ EvRemoved t :: after_it)%list →
  EvStop ∈ before ∧ (EvCollect ∉ before) ∧ (EvStart ∉ before).
Proof.
  intros Hevs. destruct cmd as [|args].
  { unfold events_of, main, raise in Hevs. cbn [snd] in Hevs.
    rewrite drop_all in Hevs. by destruct before. }
  destruct (main_cases args env w) as [(_ & _ & Herr)|(Hlog & _ & _)].
  { rewrite Hevs in Herr. apply Forall_app in Herr as [_ Herr].
    by apply Forall_cons in Herr as [? _]. }
  unfold events_of in Hevs. rewrite Hlog in Hevs.
  destruct (call_shape args env w)
    as (mid & Hint & [(rc & _ & Hcall)|(path & _ & Hcall)]);
    rewrite Hcall, drop_app_length in Hevs.
  - destruct before as [|e before]; [done|]. injection Hevs as <- Hevs.
    apply app_eq_inv in Hevs
      as [(k & Hmid & Hk)|(k & Hbefore & Hk)].
    + split; [by left|].
      assert (Forall internal before) as Hb.
      { rewrite Hmid in Hint. by apply Forall_app in Hint as [? _]. }
      split; intros [Hin|Hin]%elem_of_cons; try done;
        by apply (elem_of_internal _ _ Hb) in Hin.
    + destruct k as [|e1 [|e2 [|e3 k]]]; simplify_eq/=.
  - destruct before as [|e before]; [done|]. injection Hevs as <- Hevs.
    split; [by left|].
    assert (Forall internal before) as Hb.
    { rewrite Hevs in Hint. by apply Forall_app in Hint as [? _]. }
    split; intros [Hin|Hin]%elem_of_cons; try done;
      by apply (elem_of_internal _ _ Hb) in Hin.
Qed.

(** X11.  When an exception of the file system ends a run of [main], the
    server has been stopped and is not started again, and the collector has
    not run. *)
Theorem uncaught_exception_leaves_server_stopped (cmd : command_line) env w path :
  (main cmd env w).1 = Raise (FileNotFoundError path) →
  EvStop ∈ events_of (main cmd env) w
  ∧ starts (events_of (main cmd env) w) = 0%nat
  ∧ collections (events_of (main cmd env) w) = 0%nat.
Proof.
  intros Hrun. destruct cmd as [|args]; [done|].
  destruct (main_cases args env w) as [([s Hs] & _)|(Hlog & _ & Hres)]; [congruence|].
  unfold events_of. rewrite Hlog.
  destruct (call_shape args env w)
    as (mid & Hint & [(rc & Hrc & _)|(path' & _ & Hcall)]).
  { rewrite Hrc in Hres. congruence. }
  rewrite Hcall, drop_app_length. split; [by left|].
  destruct (internal_no_api mid Hint) as [Hc Hs].
  change (EvStop :: mid) with ([EvStop] ++ mid)%list.
  by rewrite starts_app, collections_app, Hc, Hs.
Qed.

(** X12.  A run of [main] whose command line the parser rejects, or, on a
    command line that the parser accepts, a run that is asked for help or
    for the version, that is given a name [check_name] rejects, that is
    given the remove flag without an image, or that cannot use the registry
    container, exits before it stops the server: the file system is as it
    was, the log holds at most the message of [error], and the exit status
    is 2 for a rejected command line, 0 for help and version, and 1
    otherwise. *)
Theorem early_exit_touches_nothing (cmd : command_line) env w :
  match cmd with
  | Rejected => True
  | Parsed args =>
      args_help args = true ∨ args_version args = true
      ∨ Exists (λ image, check_name image = false) (args_images args)
      ∨ (args_remove args = true ∧ args_images args = [])
      ∨ registry_found env = false
  end →
  fs (main cmd env w).2 = fs w
  ∧ Forall is_error (events_of (main cmd env) w)
  ∧ exit_status (main cmd env w).1
    = match cmd with
      | Rejected => 2
      | Parsed args => if args_help args || args_version args then 0 else 1
      end.
Proof.
  intros Hwhy. unfold events_of. destruct cmd as [|args].
  { unfold main, raise. cbn [fst snd]. by rewrite drop_all. }
  destruct (args_help args) eqn:Hh.
  { unfold main. rewrite Hh. unfold raise. cbn [fst snd]. by rewrite drop_all. }
  destruct (args_version args) eqn:Hv.
  { unfold main. rewrite Hh, Hv. unfold raise. cbn [fst snd]. by rewrite drop_all. }
  rewrite main_eq by done. simpl.
  assert (∀ msg, fs (Raise (A := unit) (SystemExit 1), reported msg w).2 = fs w
                 ∧ Forall is_error
                     (drop (length (log w))
                        (log (Raise (A := unit) (SystemExit 1), reported msg w).2))
                 ∧ exit_status (Raise (A := unit) (SystemExit 1), reported msg w).1 = 1)
    as Hearly.
  { intros msg. split; [done|]. split; [|done].
    cbn [snd reported log]. rewrite drop_app_length. by apply Forall_singleton. }
  destruct (List.find _ _) eqn:Hfind; [apply Hearly|].
  destruct Hwhy as [?|[?|[Hinv|[[Hx Himg]|Hreg]]]]; try done.
  - apply find_invalid in Hinv as [? ?]. congruence.
  - rewrite Hx, Himg. apply Hearly.
  - destruct (args_remove args && _); [apply Hearly|]. rewrite Hreg. apply Hearly.
Qed.

(** X13.  The exit status of a run of [main] is 0, 1 or 2, and it is 2
    exactly when the parser rejects the command line. *)
Theorem exit_status_of_run (cmd : command_line) env w :
  (exit_status (main cmd env w).1 = 0
   ∨ exit_status (main cmd env w).1 = 1
   ∨ exit_status (main cmd env w).1 = 2)
  ∧ (exit_status (main cmd env w).1 = 2 ↔ cmd = Rejected).
Proof.
  destruct cmd as [|args].
  { split; [by right; right|done]. }
  assert (exit_status (main args env w).1 = 0 ∨ exit_status (main args env w).1 = 1)
    as Hstatus.
  { destruct (args_help args) eqn:Hh.
    { left. unfold main. by rewrite Hh. }
    destruct (args_version args) eqn:Hv.
    { left. unfold main. by rewrite Hh, Hv. }
    rewrite main_eq by done.
    destruct (List.find _ _); [by right|].
    destruct (args_remove args && _); [by right|].
    destruct (registry_found env); [|by right].
    rewrite RegistryCleaner_call_eq.
    destruct (tame_clean_all args (batch args (fs w)) 0 (stopped w)) as [_ Hexn].
    destruct (clean_all args (batch args (fs w)) 0 (stopped w)) as [[rc|e] w1] eqn:Hall;
      cbn [fst snd] in *.
    - apply clean_all_status in Hall. destruct (negb _); naive_solver.
    - destruct (Hexn e eq_refl) as [path ->]. by right. }
  split; [naive_solver|]. split; [|done]. intros H2. destruct Hstatus; congruence.
Qed.


(** * The whole registry *)

Section WholeRegistry.
Implicit Types (fs : gmap string repo_dir) (w : world) (repo tag image : string).

(** A path lies at or below its first component. *)
Lemma split_head k :
  ∃ h rest, Py.split "/" k = h :: rest ∧ under h k = true.
Proof.
  unfold under. induction k as [|a k (h & rest & IH & Hu)].
  - by exists "", [].
  - simpl. destruct (Ascii.eqb a "/") eqn:Ha.
    + apply Ascii.eqb_eq in Ha as ->. exists "", (Py.split "/" k). split; [done|].
      simpl. by destruct k.
    + rewrite IH. exists (String a h), rest. split; [done|].
      simpl. rewrite Ascii.eqb_refl.
      destruct (ascii_dec a a); [|done]. exact Hu.
Qed.

(** Every name that [os.listdir(".")] gives is a directory. *)
Lemma listdir_root_isdir fs name : name ∈ listdir_root fs → isdir fs name = true.
Proof.
  unfold listdir_root. rewrite elem_of_elements, elem_of_list_to_set, list_elem_of_fmap.
  intros (k & -> & Hk). unfold isdir. apply existsb_exists. exists k.
  split; [by apply list_elem_of_In|].
  destruct (split_head k) as (h & rest & -> & Hu). done.
Qed.

Lemma split_image_untagged image :
  Py.split_once ":" image = None → split_image "" image = (image, "").
Proof. unfold split_image. by intros ->. Qed.

(** A directory without a revisions directory ends every prune of it with
    an exception. *)
Lemma clean_repo_without_revisions args name w :
  args_remove args = false →
  Py.split_once ":" name = None →
  isdir (fs w) name = true →
  revisions_of (fs w) name = None →
  ∃ path w', clean_repo args name w = (Raise (FileNotFoundError path), w').
Proof.
  intros Hx Hname Hdir Hrv.
  pose proof (split_image_untagged name Hname) as Hsplit.
  rewrite clean_repo_all_eq; rewrite ?Hsplit; try done.
  simpl. rewrite Hrv. by eexists _, _.
Qed.

Lemma clean_all_without_revisions args name images rc w :
  args_remove args = false →
  Py.split_once ":" name = None →
  name ∈ images →
  isdir (fs w) name = true →
  revisions_of (fs w) name = None →
  ∃ path w', clean_all args images rc w = (Raise (FileNotFoundError path), w').
Proof.
  intros Hx Hname Hin. revert rc w.
  induction images as [|image images IH]; intros rc w Hdir Hrv.
  { by apply elem_of_nil in Hin. }
  simpl. unfold bind.
  destruct (tame_clean_repo args image w) as [_ Hexn].
  destruct (clean_repo args image w) as [[ok|e] w1] eqn:Hrun.
  - destruct (decide (image = name)) as [->|Hne].
    { destruct (clean_repo_without_revisions args name w Hx Hname Hdir Hrv)
        as (path & w' & Hraise). congruence. }
    apply elem_of_cons in Hin as [?|Hin]; [done|].
    destruct (clean_repo_prune_changes args Hx image w) as (ts & Hts & Hfs & _).
    rewrite Hrun in Hfs. cbn [snd] in Hfs.
    assert (same_frame (fs w) (fs w1)) as Hframe.
    { rewrite Hfs. apply same_frame_rmtrees.
      eapply Forall_impl; [done|]. apply prune_removal_prunable. }
    apply (IH Hin).
    + by rewrite (isdir_frame (fs w)).
    + destruct (revisions_of (fs w1) name) eqn:E; [|done].
      assert (is_Some (revisions_of (fs w) name)) as [? ?]; [|congruence].
      apply (frame_revisions _ _ Hframe). by rewrite E.
  - cbn [fst] in Hexn. destruct (Hexn e eq_refl) as [path ->]. by eexists _, _.
Qed.

(** X15.  Without image arguments the script prunes every name in its
    working directory.  If one of them is a directory without a revisions
    directory, as a directory is that only holds other repositories, the
    run ends in an uncaught [FileNotFoundError]. *)
Theorem whole_registry_needs_revisions_everywhere args env w name :
  args_help args = false → args_version args = false →
  args_remove args = false →
  args_images args = [] →
  registry_found env = true →
  name ∈ listdir_root (fs w) →
  Py.split_once ":" name = None →
  revisions_of (fs w) name = None →
  ∃ path, (main args env w).1 = Raise (FileNotFoundError path).
Proof.
  intros Hh Hv Hx Himages Hfound Hin Hname Hrv.
  rewrite main_eq by done. rewrite Himages, Hx, Hfound. simpl.
  rewrite RegistryCleaner_call_eq. unfold batch. rewrite Himages.
  destruct (clean_all_without_revisions args name (listdir_root (fs w)) 0 (stopped w)
              Hx Hname Hin) as (path & w' & ->); [|done|by exists path].
  by apply listdir_root_isdir.
Qed.

End WholeRegistry.

(** * Further properties of the name validator *)

Section Alphabet.

Lemma mentions_deriv a b r : mentions a (deriv b r) = true → mentions a r = true.
Proof.
  induction r as [| |items|r1 IH1 r2 IH2|r1 IH1 r2 IH2|r1 IH1]; simpl; try done.
  - by destruct (existsb (in_item b) items).
  - destruct (nullable r1); simpl; rewrite !orb_true_iff; naive_solver.
  - rewrite !orb_true_iff. naive_solver.
  - rewrite !orb_true_iff. naive_solver.
Qed.

Lemma unmentioned_deriv a r : mentions a r = false → void (deriv a r) = true.
Proof.
  induction r as [| |items|r1 IH1 r2 IH2|r1 IH1 r2 IH2|r1 IH1]; simpl; try done.
  - by intros ->.
  - intros [H1 H2]%orb_false_iff.
    destruct (nullable r1); simpl; rewrite IH1 by done; [|done]. by apply IH2.
  - intros [H1 H2]%orb_false_iff. by rewrite IH1, IH2.
  - intros H. by rewrite IH1.
Qed.

(** A string with a character that no bracket expression of [r] holds is
    no word of [r]. *)
Lemma full_unmentioned a r s :
  contains a s = true → mentions a r = false → full r s = false.
Proof.
  revert r. induction s as [|b s IH]; intros r Hin Hno; [done|]. simpl in *.
  destruct (Ascii.eqb_spec b a) as [->|Hne].
  - by apply void_full, unmentioned_deriv.
  - apply IH; [done|].
    destruct (mentions a (deriv b r)) eqn:E; [|done].
    apply mentions_deriv in E. congruence.
Qed.

Lemma chomp_contains a s s' :
  a ≠ newline → chomp s = Some s' → contains a s = true → contains a s' = true.
Proof.
  intros Ha. revert s'. induction s as [|b s IH]; intros s' Hch Hin; [done|].
  destruct s as [|c s].
  - simpl in *. destruct (Ascii.eqb_spec b "010") as [->|?]; [|done].
    rewrite orb_false_r in Hin. apply Ascii.eqb_eq in Hin. by destruct Ha.
  - change (option_map (String b) (chomp (String c s)) = Some s') in Hch.
    destruct (chomp (String c s)) as [s1|]; [|done]. injection Hch as <-.
    change (Ascii.eqb b a || contains a (String c s) = true) in Hin.
    change (Ascii.eqb b a || contains a s1 = true).
    apply orb_true_iff in Hin as [Hin|Hin]; [by rewrite Hin|].
    rewrite (IH s1) by done. apply orb_true_r.
Qed.

Lemma match_dollar_unmentioned a r s :
  a ≠ newline → contains a s = true → mentions a r = false → match_dollar r s = false.
Proof.
  intros Ha Hin Hno. unfold match_dollar.
  rewrite (full_unmentioned a r s) by done. simpl.
  destruct (chomp s) as [s'|] eqn:Hch; [|done].
  apply (full_unmentioned a); [|done]. by apply (chomp_contains a s).
Qed.

(** Decide an equation between Boolean combinations of membership tests by
    cases on the tests. *)
Ltac by_items :=
  repeat match goal with
         | |- context [in_item ?a ?i] => generalize (in_item a i); intros []
         end;
  reflexivity.

Lemma mentions_tag_re a : mentions a tag_re = tag_char a.
Proof. unfold tag_char, tag_re. cbn [mentions existsb]. by_items. Qed.

Lemma mentions_path_re a : mentions a path_re = path_char a.
Proof. unfold path_char, path_re, Plus. cbn [mentions existsb]. by_items. Qed.

(** A character of a string is in one of the pieces that a separator other
    than it cuts the string into. *)
Lemma contains_split sep a s :
  a ≠ sep → contains a s = true →
  ∃ piece, piece ∈ Py.split sep s ∧ contains a piece = true.
Proof.
  intros Hsep. induction s as [|b s IH]; [done|]. simpl.
  intros [Hb|Hin]%orb_true_iff.
  - apply Ascii.eqb_eq in Hb as ->.
    destruct (Ascii.eqb_spec a sep) as [?|_]; [done|].
    destruct (Py.split sep s) as [|piece rest].
    + exists (String a ""). split; [by left|]. simpl. by rewrite Ascii.eqb_refl.
    + exists (String a piece). split; [by left|]. simpl. by rewrite Ascii.eqb_refl.
  - destruct (IH Hin) as (piece & Hpiece & Hc).
    destruct (Ascii.eqb b sep).
    + exists piece. split; [by right|done].
    + destruct (Py.split sep s) as [|first rest]; [by apply elem_of_nil in Hpiece|].
      apply elem_of_cons in Hpiece as [->|Hpiece].
      * exists (String b first). split; [by left|]. simpl. rewrite Hc. apply orb_true_r.
      * exists piece. split; [by right|done].
Qed.

Lemma forallb_elem_of {A} (f : A → bool) (l : list A) x :
  forallb f l = true → x ∈ l → f x = true.
Proof.
  intros H Hx. rewrite forallb_forall in H. by apply H, list_elem_of_In.
Qed.

(** X16.  Every character of the tag part of a name that [check_name]
    accepts is a letter, a digit, an underscore, a dot or a dash, but for a
    line feed: the tag part holds no slash and no colon, so that the tag is
    one component of a path and the name has one colon at most. *)
Theorem accepted_tag_characters image :
  check_name image = true →
  let tag := (split_image "latest" image).2 in
  (∀ a, contains a tag = true → tag_char a = true ∨ a = newline)
  ∧ contains "/" tag = false
  ∧ contains ":" tag = false.
Proof.
  unfold check_name. destruct (split_image "latest" image) as [repo tag]. simpl.
  intros [[_ Htag]%andb_true_iff _]%andb_true_iff.
  assert (∀ a, contains a tag = true → tag_char a = true ∨ a = newline) as Hchars.
  { intros a Hin. destruct (decide (a = newline)) as [|Ha]; [by right|]. left.
    destruct (tag_char a) eqn:E; [done|].
    rewrite (match_dollar_unmentioned a) in Htag; try done.
    by rewrite mentions_tag_re. }
  split; [done|].
  split; apply not_true_is_false; intros [H|H]%Hchars; done.
Qed.

(** X17.  Every character of the repository part of a name that
    [check_name] accepts is a lowercase letter, a digit, a dot, an
    underscore, a dash or a slash, but for a line feed: a name with an
    uppercase letter in its repository part is rejected. *)
Theorem accepted_repository_characters image :
  check_name image = true →
  let repo := (split_image "latest" image).1 in
  ∀ a, contains a repo = true →
       path_char a = true ∨ a = "/"%char ∨ a = newline.
Proof.
  unfold check_name. destruct (split_image "latest" image) as [repo tag]. simpl.
  intros [_ Hrepo]%andb_true_iff a Hin.
  destruct (decide (a = "/"%char)) as [|Hslash]; [by right; left|].
  destruct (decide (a = newline)) as [|Ha]; [by right; right|]. left.
  destruct (contains_split "/" a repo Hslash Hin) as (piece & Hpiece & Hc).
  pose proof (forallb_elem_of _ _ _ Hrepo Hpiece) as Hm. simpl in Hm.
  destruct (path_char a) eqn:E; [done|].
  rewrite (match_dollar_unmentioned a) in Hm; try done.
  by rewrite mentions_path_re.
Qed.

(** A string whose first character is in no bracket expression that [r] can
    start with, as [r] is not nullable and its derivative is void. *)
Lemma match_dollar_first a r s :
  nullable r = false → void (deriv a r) = true →
  match_dollar r (String a s) = false.
Proof.
  intros Hnull Hvoid. unfold match_dollar.
  change (full r (String a s)) with (full (deriv a r) s).
  rewrite void_full by done. simpl.
  destruct s as [|b s].
  - simpl. by destruct (Ascii.eqb a "010").
  - change (chomp (String a (String b s)))
      with (option_map (String a) (chomp (String b s))).
    destruct (chomp (String b s)); [|done]. simpl. by apply void_full.
Qed.

Lemma path_re_first a : lower_alnum a = false → void (deriv a path_re) = true.
Proof.
  unfold lower_alnum, path_re, Plus. cbn [deriv nullable andb existsb].
  generalize (in_item a (Rng "a" "z")), (in_item a (Rng "0" "9")).
  by intros [] [].
Qed.

(** X18.  Every component of the repository part of a name that
    [check_name] accepts starts with a lowercase letter or a digit: no
    component is empty, so that the repository part is not empty, neither
    starts nor ends with a slash and has no two slashes in a row, and no
    component starts with a separator. *)
Theorem accepted_components_start_alphanumeric image :
  check_name image = true →
  let repo := (split_image "latest" image).1 in
  ∀ piece, piece ∈ Py.split "/" repo →
           ∃ a rest, piece = String a rest ∧ lower_alnum a = true.
Proof.
  unfold check_name. destruct (split_image "latest" image) as [repo tag]. simpl.
  intros [_ Hrepo]%andb_true_iff piece Hpiece.
  pose proof (forallb_elem_of _ _ _ Hrepo Hpiece) as Hm. simpl in Hm.
  destruct piece as [|a rest]; [by vm_compute in Hm|].
  exists a, rest. split; [done|].
  destruct (lower_alnum a) eqn:E; [done|].
  rewrite match_dollar_first in Hm; [done..|]. by apply path_re_first.
Qed.

End Alphabet.

Section LineFeed.

Lemma length_app_nl s : String.length (s +:+ nl) = S (String.length s).
Proof. induction s as [|a s IH]; simpl; [done|]. by rewrite IH. Qed.

Lemma len_app_nl s : Py.len (s +:+ nl) = Py.len s + 1.
Proof. unfold Py.len. rewrite length_app_nl. lia. Qed.

Lemma chomp_cons a b s :
  chomp (String a (String b s)) = option_map (String a) (chomp (String b s)).
Proof. done. Qed.

Lemma chomp_app_nl s : chomp (s +:+ nl) = Some s.
Proof.
  induction s as [|a s IH]; [done|].
  destruct s as [|b s]; [done|].
  change (String a (String b s) +:+ nl) with (String a (String b (s +:+ nl))).
  rewrite chomp_cons.
  change (String b (s +:+ nl)) with (String b s +:+ nl). by rewrite IH.
Qed.

Lemma chomp_without_newline s : contains newline s = false → chomp s = None.
Proof.
  induction s as [|a s IH]; [done|]. simpl.
  intros [Ha Hs]%orb_false_iff. destruct s as [|b s].
  - unfold newline in Ha. by rewrite Ha.
  - rewrite IH by done. done.
Qed.

(** The line feed at the end: [$] lets it pass. *)
Lemma match_dollar_app_nl r s :
  contains newline s = false → match_dollar r s = true →
  match_dollar r (s +:+ nl) = true.
Proof.
  intros Hs. unfold match_dollar.
  rewrite chomp_app_nl, (chomp_without_newline s Hs), orb_false_r.
  intros ->. apply orb_true_r.
Qed.

Lemma split_once_app_nl s :
  Py.split_once ":" (s +:+ nl) =
  match Py.split_once ":" s with
  | Some (l, r) => Some (l, r +:+ nl)
  | None => None
  end.
Proof.
  induction s as [|a s IH]; [done|]. simpl.
  destruct (Ascii.eqb a ":"); [done|]. rewrite IH.
  by destruct (Py.split_once ":" s) as [[??]|].
Qed.

Lemma split_once_contains a s l r :
  Py.split_once ":" s = Some (l, r) → contains a r = true → contains a s = true.
Proof.
  revert l. induction s as [|b s IH]; intros l; [done|]. simpl.
  destruct (Ascii.eqb b ":").
  - intros [= <- <-] ->. apply orb_true_r.
  - destruct (Py.split_once ":" s) as [[l' r']|]; [|done].
    intros [= <- <-] Hr. rewrite (IH l') by done. apply orb_true_r.
Qed.

Lemma contains_of_split sep a s piece :
  piece ∈ Py.split sep s → contains a piece = true → contains a s = true.
Proof.
  revert piece. induction s as [|b s IH]; intros piece; simpl.
  - by intros ->%list_elem_of_singleton.
  - destruct (Ascii.eqb b sep).
    + intros [->|Hin]%elem_of_cons Hc; [done|].
      rewrite (IH piece) by done. apply orb_true_r.
    + destruct (Py.split sep s) as [|first rest] eqn:E.
      * intros ->%list_elem_of_singleton. simpl. rewrite orb_false_r. by intros ->.
      * intros [->|Hin]%elem_of_cons Hc.
        -- simpl in Hc. apply orb_true_iff in Hc as [->|Hc]; [done|].
           rewrite (IH first); [apply orb_true_r|by left|done].
        -- rewrite (IH piece); [apply orb_true_r|by right|done].
Qed.

(** The pieces of a string with a line feed after it: those of the string,
    with the line feed after the last. *)
Lemma split_app_nl s :
  ∃ init last, Py.split "/" s = (init ++ [last])%list
               ∧ Py.split "/" (s +:+ nl) = (init ++ [last +:+ nl])%list.
Proof.
  induction s as [|a s (init & last & IH1 & IH2)].
  - by exists [], "".
  - simpl. destruct (Ascii.eqb a "/").
    + exists ("" :: init), last. by rewrite IH1, IH2.
    + rewrite IH1, IH2. destruct init as [|first init].
      * by exists [], (String a last).
      * by exists (String a first :: init), last.
Qed.

(** X19.  The dollar of the two patterns lets a line feed pass at the end of
    the string: a name without line feed that [check_name] accepts is also
    accepted with a line feed after it, as long as the name and its tag part
    stay below the two bounds on their lengths. *)
Theorem accepted_with_trailing_line_feed image :
  check_name image = true →
  contains newline image = false →
  Py.len image + 1 < 256 →
  Py.len (split_image "latest" image).2 + 1 < 129 →
  check_name (image +:+ nl) = true.
Proof.
  unfold check_name, split_image. rewrite split_once_app_nl.
  destruct (Py.split_once ":" image) as [[repo tag]|] eqn:Hsplit; simpl;
    intros [[[_ _]%andb_true_iff Htag]%andb_true_iff Hrepo]%andb_true_iff
           Hnl Hlen Hlentag;
    rewrite !len_app_nl.
  - rewrite Hrepo, andb_true_r.
    rewrite match_dollar_app_nl; [|..|done].
    + rewrite andb_true_r. apply andb_true_iff. split; apply Z.ltb_lt; lia.
    + destruct (contains newline tag) eqn:E; [|done].
      by rewrite (split_once_contains newline image repo tag) in Hnl.
  - rewrite Htag, andb_true_r.
    destruct (split_app_nl image) as (init & last & Hs1 & Hs2).
    rewrite Hs1 in Hrepo. rewrite Hs2.
    rewrite forallb_app in Hrepo. apply andb_true_iff in Hrepo as [Hinit Hlast].
    rewrite forallb_app, Hinit. cbn [forallb] in *. rewrite andb_true_r in Hlast.
    rewrite match_dollar_app_nl; [|..|done].
    + rewrite ?andb_true_r. apply Z.ltb_lt. lia.
    + destruct (contains newline last) eqn:E; [|done].
      rewrite (contains_of_split "/" newline image last) in Hnl; [done| |done].
      rewrite Hs1. apply elem_of_app. right. by left.
Qed.

End LineFeed.

Lemma accepted_with_trailing_line_feed_witness :
  check_name "library/ubuntu:18.04" = true
  ∧ contains newline "library/ubuntu:18.04" = false
  ∧ check_name ("library/ubuntu:18.04" +:+ nl) = true.
Proof.
  split; [reflexivity|]. split; [reflexivity|].
  apply (accepted_with_trailing_line_feed "library/ubuntu:18.04");
    [reflexivity|reflexivity|reflexivity|reflexivity].
Defined.

(** * Finding the registry directory *)

Section RegistryDir.

Lemma split_once_rootdirectory value :
  Py.split_once "=" (ROOTDIRECTORY +:+ "=" +:+ value) = Some (ROOTDIRECTORY, value).
Proof. reflexivity. Qed.

Lemma scan_env_found before value after_it :
  Forall other_entry before →
  scan_env (before ++ (ROOTDIRECTORY +:+ "=" +:+ value) :: after_it) = Some value.
Proof.
  induction 1 as [|env before (var & val & Hsplit & Hvar) _ IH].
  - cbn [app scan_env]. rewrite split_once_rootdirectory.
    by rewrite String.eqb_refl.
  - cbn [app scan_env]. rewrite Hsplit.
    apply String.eqb_neq in Hvar. by rewrite Hvar.
Qed.

Lemma scan_env_malformed before bad after_it :
  Forall other_entry before →
  Py.split_once "=" bad = None →
  scan_env (before ++ bad :: after_it) = None.
Proof.
  intros Hbefore Hbad. induction Hbefore as [|env before (var & val & Hsplit & Hvar) _ IH].
  - cbn [app scan_env]. by rewrite Hbad.
  - cbn [app scan_env]. rewrite Hsplit.
    apply String.eqb_neq in Hvar. by rewrite Hvar.
Qed.

(** X20.  When the variable is not set for the script itself, the first
    entry for it in the environment of the container decides, if its value
    is not empty: the entries after it are not looked at, whatever they
    are, and neither is the configuration file.  Inside a container the
    value is returned; outside, the source of the first mount with the value
    as its destination, and [None] when there is no such mount. *)
Theorem container_env_decides h before value after_it :
  getenv_rootdirectory h = None ∨ getenv_rootdirectory h = Some "" →
  info_Env h = (before ++ (ROOTDIRECTORY +:+ "=" +:+ value) :: after_it)%list →
  Forall other_entry before →
  value ≠ "" →
  get_registry_dir h =
  if host_dockerized h then Returned (Some value)
  else Returned (mount_source (info_Mounts h) value).
Proof.
  intros Henv Hinfo Hbefore Hvalue. unfold get_registry_dir.
  rewrite Hinfo, scan_env_found by done.
  destruct value as [|a s]; [done|].
  by destruct Henv as [-> | ->].
Qed.

(** X21.  When the variable is not set for the script itself, an entry
    without an equals sign in the environment of the container, before any
    entry for the variable, ends [get_registry_dir] with a [ValueError],
    whatever comes after it and whatever the configuration file says. *)
Theorem malformed_env_entry_raises h before bad after_it :
  getenv_rootdirectory h = None ∨ getenv_rootdirectory h = Some "" →
  info_Env h = (before ++ bad :: after_it)%list →
  Forall other_entry before →
  Py.split_once "=" bad = None →
  get_registry_dir h = ValueError.
Proof.
  intros Henv Hinfo Hbefore Hbad. unfold get_registry_dir.
  rewrite Hinfo, scan_env_malformed by done.
  by destruct Henv as [-> | ->].
Qed.

End RegistryDir.

Lemma example_other_entry : Forall other_entry ["PATH=/bin"].
Proof.
  apply Forall_singleton. exists "PATH", "/bin". split; [reflexivity|discriminate].
Qed.

Lemma container_env_decides_witness :
  getenv_rootdirectory example_host = None
  ∧ Forall other_entry ["PATH=/bin"]
  ∧ get_registry_dir example_host = Returned (Some "/srv/registry").
Proof.
  split; [reflexivity|]. split; [exact example_other_entry|].
  exact (container_env_decides example_host ["PATH=/bin"] "/data" ["broken"]
           (or_introl eq_refl) eq_refl example_other_entry ltac:(discriminate)).
Defined.

Lemma malformed_env_entry_raises_witness :
  Py.split_once "=" "broken" = None
  ∧ get_registry_dir
      (Host None ["PATH=/bin"; "broken"; "REGISTRY_STORAGE_FILESYSTEM_ROOTDIRECTORY=/data"]
         [] [] (λ _, NoFile) true)
    = ValueError.
Proof.
  split; [reflexivity|].
  exact (malformed_env_entry_raises
           (Host None ["PATH=/bin"; "broken";
                       "REGISTRY_STORAGE_FILESYSTEM_ROOTDIRECTORY=/data"]
              [] [] (λ _, NoFile) true)
           ["PATH=/bin"] "broken" ["REGISTRY_STORAGE_FILESYSTEM_ROOTDIRECTORY=/data"]
           (or_introl eq_refl) eq_refl example_other_entry eq_refl).
Defined.

(** * The further properties on the examples *)

Lemma example_current_in_index : current_in_index example_store "r".
Proof.
  intros t d Hc. apply has_index_elements.
  assert (t ∈ ["t1"; "t2"]) as Ht.
  { unfold current_of, link_of, tag_of in Hc.
    destruct (tags_of example_store "r" ≫= (.!! t)) as [td|] eqn:E; [|done].
    apply bind_Some in E as (m & Hm & E). vm_compute in Hm. injection Hm as <-.
    apply elem_of_dom_2, elem_of_elements in E. vm_compute in E.
    set_solver. }
  apply elem_of_cons in Ht as [->|Ht]; [|apply list_elem_of_singleton in Ht as ->];
    vm_compute in Hc; injection Hc as <-; apply (bool_decide_unpack _);
    vm_compute; exact I.
Qed.

Lemma example_plain_names : plain_names example_store "r".
Proof.
  intros t td Ht.
  assert ((t, td) ∈ map_to_list (default ∅ (tags_of example_store "r"))) as Hl
    by (by apply elem_of_glob_tags_all).
  vm_compute in Hl.
  apply elem_of_cons in Hl as [[= -> ->]|Hl];
    [|apply list_elem_of_singleton in Hl as [= -> ->]];
    (split; [reflexivity|]); intros c [= <-]; reflexivity.
Qed.

Lemma example_has_revision : has_revision example_store "r" "d2".
Proof. apply has_revision_elements, (bool_decide_unpack _). vm_compute. exact I. Qed.

(** A run is the pair of its result and its world. *)
Lemma run_eq {A} (m : M A) (w : world) (r : result A) :
  (m w).1 = r → m w = (r, (m w).2).
Proof. intros <-. by destruct (m w). Qed.

Lemma clean_repo_false_iff_missing_witness :
  (clean_repo prune_args "r:nope" example_world).1 = Ok false
  ∧ missing prune_args example_store "r:nope".
Proof.
  assert ((clean_repo prune_args "r:nope" example_world).1 = Ok false) as Hrun
    by (vm_compute; reflexivity).
  split; [exact Hrun|].
  exact (proj1 (proj1 (clean_repo_false_iff_missing prune_args "r:nope" example_world))
           Hrun).
Defined.

Lemma clean_revisions_keeps_listed_witness :
  is_Some (revisions_of example_store "r")
  ∧ (clean_revisions "r" example_world).1 = Ok tt.
Proof.
  assert (is_Some (revisions_of example_store "r")) as Hrv
    by (vm_compute; eexists; reflexivity).
  split; [exact Hrv|].
  exact (proj1 (proj2 (clean_revisions_keeps_listed "r" example_world) Hrv)).
Defined.

Lemma clean_tag_leaves_current_in_index_witness :
  args_remove prune_args = false
  ∧ (clean_tag prune_args "r" "t1" example_world).1 = Ok true
  ∧ link_of (fs (clean_tag prune_args "r" "t1" example_world).2) "r" "t2"
    = link_of example_store "r" "t2".
Proof.
  assert ((clean_tag prune_args "r" "t1" example_world).1 = Ok true) as Hrun
    by (vm_compute; reflexivity).
  split; [reflexivity|]. split; [exact Hrun|].
  exact (proj2 (proj2 (clean_tag_leaves_current_in_index prune_args "r" "t1"
                         example_world _ eq_refl (run_eq _ _ _ Hrun))) "r" "t2").
Defined.

Lemma prune_all_leaves_current_index_entries_witness :
  args_remove prune_args = false
  ∧ (split_image "" "r").2 = ""
  ∧ Glob.has_magic (split_image "" "r").1 = false
  ∧ (has_index (fs (clean_repo prune_args "r" example_world).2) "r" "t1" "d1" ↔
     has_index example_store "r" "t1" "d1"
     ∧ (visible "t1" = true → visible "d1" = true →
        ∃ t', visible t' = true ∧ current_of example_store "r" t' = Some "d1")).
Proof.
  split; [reflexivity|]. split; [reflexivity|]. split; [reflexivity|].
  exact (prune_all_leaves_current_index_entries prune_args "r" example_world
           eq_refl eq_refl eq_refl "t1" "d1").
Defined.

Lemma prune_keeps_current_in_index_witness :
  args_remove prune_args = false
  ∧ current_in_index example_store "r"
  ∧ current_in_index (fs (clean_repo prune_args "r:t1" example_world).2) "r".
Proof.
  split; [reflexivity|]. split; [exact example_current_in_index|].
  exact (prune_keeps_current_in_index prune_args "r:t1" example_world "r"
           eq_refl example_current_in_index).
Defined.

Lemma prune_keeps_current_revisions_witness :
  args_remove prune_args = false
  ∧ Glob.has_magic (split_image "" "r").1 = false
  ∧ current_in_index example_store "r"
  ∧ plain_names example_store "r"
  ∧ current_of example_store "r" "t2" = Some "d2"
  ∧ has_revision example_store "r" "d2"
  ∧ has_revision (fs (clean_repo prune_args "r" example_world).2) "r" "d2".
Proof.
  split; [reflexivity|]. split; [reflexivity|].
  split; [exact example_current_in_index|].
  split; [exact example_plain_names|]. split; [reflexivity|].
  split; [exact example_has_revision|].
  exact (prune_keeps_current_revisions prune_args "r" example_world eq_refl eq_refl
           example_current_in_index example_plain_names "t2" "d2" eq_refl
           example_has_revision).
Defined.

Lemma remove_untagged_removes_repository_witness :
  args_remove remove_args = true
  ∧ (split_image "" "r").2 = ""
  ∧ isdir example_store "r" = true
  ∧ is_Some (tags_of example_store "r")
  ∧ isdir (fs (clean_repo remove_args "r" example_world).2) "r" = false.
Proof.
  assert (is_Some (tags_of example_store "r")) as Htags
    by (vm_compute; eexists; reflexivity).
  split; [reflexivity|]. split; [reflexivity|]. split; [reflexivity|].
  split; [exact Htags|].
  exact (proj1 (proj2 (proj2 (proj2 (remove_untagged_removes_repository remove_args "r"
                                        example_world eq_refl eq_refl eq_refl) Htags)))).
Defined.

Lemma removals_while_stopped_witness :
  events_of (main single_args working_collector) example_world
  = ([EvStop; EvRemoved (Index "r" "t1" "d3")]
     ++ EvRemoved (Index "r" "t2" "d4")
     :: [EvRemoved (Revision "r" "d3"); EvRemoved (Revision "r" "d4");
         EvCollect; EvStart])%list
  ∧ EvStop ∈ [EvStop; EvRemoved (Index "r" "t1" "d3")].
Proof.
  assert (events_of (main single_args working_collector) example_world
          = ([EvStop; EvRemoved (Index "r" "t1" "d3")]
             ++ EvRemoved (Index "r" "t2" "d4")
             :: [EvRemoved (Revision "r" "d3"); EvRemoved (Revision "r" "d4");
                 EvCollect; EvStart])%list) as Hevs
    by (vm_compute; reflexivity).
  split; [exact Hevs|].
  exact (proj1 (removals_while_stopped single_args working_collector example_world
                  _ _ _ Hevs)).
Defined.

Lemma uncaught_exception_leaves_server_stopped_witness :
  (main prune_args outside (World namespace_store [])).1
  = Raise (FileNotFoundError "library/_manifests/revisions/sha256/")
  ∧ EvStop ∈ events_of (main prune_args outside) (World namespace_store [])
  ∧ starts (events_of (main prune_args outside) (World namespace_store [])) = 0%nat.
Proof.
  assert ((main prune_args outside (World namespace_store [])).1
          = Raise (FileNotFoundError "library/_manifests/revisions/sha256/")) as Hrun
    by (vm_compute; reflexivity).
  split; [exact Hrun|].
  pose proof (uncaught_exception_leaves_server_stopped prune_args outside
                (World namespace_store []) _ Hrun) as (Hstop & Hstart & _).
  exact (conj Hstop Hstart).
Defined.

Lemma early_exit_touches_nothing_witness :
  Exists (λ image, check_name image = false) (args_images invalid_args)
  ∧ fs (main invalid_args working_collector example_world).2 = example_store
  ∧ exit_status (main invalid_args working_collector example_world).1 = 1.
Proof.
  assert (Exists (λ image, check_name image = false) (args_images invalid_args)) as Hbad
    by (apply Exists_cons_hd; reflexivity).
  split; [exact Hbad|].
  pose proof (early_exit_touches_nothing (Parsed invalid_args) working_collector
                example_world (or_intror (or_intror (or_introl Hbad))))
    as (Hfs & _ & Hstatus).
  exact (conj Hfs Hstatus).
Defined.

Lemma collector_status_outside_container_witness :
  Forall (λ image, check_name image = true) (args_images single_args)
  ∧ registry_found outside_sdk3 = true
  ∧ dockerized outside_sdk3 = false
  ∧ (clean_all single_args (batch single_args (fs example_world)) 0
       (stopped example_world)).1 = Ok 0
  ∧ collector_status outside_sdk3 = 0
  ∧ exit_status (main single_args outside_sdk3 example_world).1 = 1.
Proof.
  assert (Forall (λ image, check_name image = true) (args_images single_args)) as Hvalid
    by (constructor; [reflexivity|constructor]).
  assert ((clean_all single_args (batch single_args (fs example_world)) 0
             (stopped example_world)).1 = Ok 0) as Hall
    by (vm_compute; reflexivity).
  split; [exact Hvalid|]. split; [reflexivity|]. split; [reflexivity|].
  split; [exact Hall|]. split; [reflexivity|].
  exact (collector_status_outside_container single_args outside_sdk3 example_world 0 _
           eq_refl eq_refl Hvalid ltac:(discriminate) eq_refl eq_refl
           (run_eq _ _ _ Hall)).
Defined.

Lemma whole_registry_needs_revisions_everywhere_witness :
  "library" ∈ listdir_root namespace_store
  ∧ Py.split_once ":" "library" = None
  ∧ revisions_of namespace_store "library" = None
  ∧ ∃ path, (main prune_args outside (World namespace_store [])).1
            = Raise (FileNotFoundError path).
Proof.
  assert ("library" ∈ listdir_root namespace_store) as Hin
    by (apply (bool_decide_unpack _); vm_compute; exact I).
  split; [exact Hin|]. split; [reflexivity|]. split; [reflexivity|].
  exact (whole_registry_needs_revisions_everywhere prune_args outside
           (World namespace_store []) "library"
           eq_refl eq_refl eq_refl eq_refl eq_refl Hin eq_refl eq_refl).
Defined.

Lemma accepted_tag_characters_witness :
  check_name "library/ubuntu:18.04" = true
  ∧ contains "/" (split_image "latest" "library/ubuntu:18.04").2 = false.
Proof.
  split; [reflexivity|].
  exact (proj1 (proj2 (accepted_tag_characters "library/ubuntu:18.04" eq_refl))).
Defined.

Lemma accepted_repository_characters_witness :
  check_name "library/ubuntu:18.04" = true
  ∧ contains "u" (split_image "latest" "library/ubuntu:18.04").1 = true
  ∧ (path_char "u" = true ∨ "u"%char = "/"%char ∨ "u"%char = newline).
Proof.
  split; [reflexivity|]. split; [reflexivity|].
  exact (accepted_repository_characters "library/ubuntu:18.04" eq_refl "u"%char eq_refl).
Defined.

Lemma accepted_components_start_alphanumeric_witness :
  check_name "library/ubuntu:18.04" = true
  ∧ "ubuntu" ∈ Py.split "/" (split_image "latest" "library/ubuntu:18.04").1
  ∧ ∃ a rest, "ubuntu" = String a rest ∧ lower_alnum a = true.
Proof.
  assert ("ubuntu" ∈ Py.split "/" (split_image "latest" "library/ubuntu:18.04").1) as Hin
    by (apply (bool_decide_unpack _); vm_compute; exact I).
  split; [reflexivity|]. split; [exact Hin|].
  exact (accepted_components_start_alphanumeric "library/ubuntu:18.04" eq_refl
           "ubuntu" Hin).
Defined.

(** * Wildcard characters in the name of a repository *)

Section Wildcards.
Implicit Types (fs : gmap string repo_dir) (w : world) (repo tag image : string).

Lemma has_magic_contains s :
  Glob.has_magic s = true → ∃ a, Glob.magic a = true ∧ contains a s = true.
Proof.
  induction s as [|b s IH]; simpl; [done|]. intros [H|H]%orb_true_iff.
  - exists b. split; [done|]. by rewrite Ascii.eqb_refl.
  - destruct (IH H) as (a & Ha & Hc). exists a. split; [done|].
    rewrite Hc. apply orb_true_r.
Qed.

Lemma magic_cases a :
  Glob.magic a = true → a = "*"%char ∨ a = "?"%char ∨ a = "["%char.
Proof. unfold Glob.magic. rewrite !orb_true_iff, !Ascii.eqb_eq. tauto. Qed.

(** The repository part of an image does not depend on the tag that stands
    in for a missing one. *)
Lemma split_image_repo default image :
  (split_image default image).1 = (split_image "" image).1.
Proof. unfold split_image. by destruct (Py.split_once ":" image) as [[? ?]|]. Qed.

(** X22.  The repository part of a name that [check_name] accepts holds
    none of the characters that [glob] reads as wildcards: for the images
    of a command line, all of which [main] puts to [check_name], the
    patterns of [clean_repo] and [clean_revisions] are matched in the
    directory of that name only. *)
Theorem accepted_names_hold_no_wildcard image :
  check_name image = true →
  Glob.has_magic (split_image "" image).1 = false
  ∧ ∀ fs, glob_repos fs (split_image "" image).1 = [(split_image "" image).1].
Proof.
  intros Hok.
  assert (Glob.has_magic (split_image "" image).1 = false) as Hlit.
  { destruct (Glob.has_magic _) eqn:Hm; [|done].
    apply has_magic_contains in Hm as (a & Hmagic & Hin).
    rewrite <-(split_image_repo "latest") in Hin.
    unfold check_name in Hok. destruct (split_image "latest" image) as [repo tag].
    simpl in Hin. apply andb_true_iff in Hok as [_ Hrepo].
    assert (a ≠ "/"%char ∧ a ≠ newline ∧ path_char a = false) as (Hslash & Hnl & Hchar).
    { destruct (magic_cases a Hmagic) as [-> | [-> | ->]]; by repeat split. }
    destruct (contains_split "/" a repo Hslash Hin) as (piece & Hpiece & Hc).
    pose proof (forallb_elem_of _ _ _ Hrepo Hpiece) as Hmatch. simpl in Hmatch.
    rewrite (match_dollar_unmentioned a) in Hmatch; [done|done|done|].
    by rewrite mentions_path_re. }
  split; [done|]. intros fs. by apply glob_repos_literal.
Qed.

(** X23.  When the name of a directory, read as a pattern of [glob],
    matches no directory, as the name [a[b]] does, which does not match
    itself, a prune of the directory without a tag finds no tag and no
    index entry: it returns true, removes every revision of the directory
    and leaves every tag directory as it was. *)
Theorem unmatched_pattern_sweeps_all_revisions args image w rv :
  args_remove args = false →
  (split_image "" image).2 = "" →
  let repo := (split_image "" image).1 in
  isdir (fs w) repo = true →
  revisions_of (fs w) repo = Some rv →
  glob_repos (fs w) repo = [] →
  let w' := (clean_repo args image w).2 in
  (clean_repo args image w).1 = Ok true
  ∧ removed (events_of (clean_repo args image) w) = Revision repo <$> elements rv
  ∧ (∀ d, ¬ has_revision (fs w') repo d)
  ∧ (∀ r t, tag_of (fs w') r t = tag_of (fs w) r t).
Proof.
  intros Hx Ht repo Hdir Hrv Hnone w'. unfold w', events_of.
  rewrite clean_repo_all_eq by done. fold repo. cbn zeta.
  assert (glob_index (fs w) repo = []) as Hindex.
  { unfold glob_index, glob_tags. by rewrite Hnone. }
  assert (stale_of_repo (fs w) repo = []) as ->.
  { unfold stale_of_repo. by rewrite Hindex. }
  rewrite after_nil, Hrv. cbn [fst snd].
  assert (orphans (fs w) repo rv = Revision repo <$> elements rv) as Horphans.
  { unfold orphans, glob_manifests. rewrite Hindex. simpl.
    by rewrite difference_empty_L. }
  split; [done|]. split; [by rewrite removed_after|]. split.
  - intros d. unfold after. cbn [fs].
    rewrite has_revision_rmtrees by apply prunable_orphans.
    rewrite elem_of_orphans. unfold glob_manifests. rewrite Hindex.
    intros [(rv' & Hrv' & Hd) Hno]. rewrite Hrv in Hrv'. simplify_eq.
    apply Hno. split; [done|]. split; [done|]. apply not_elem_of_nil.
  - intros r t. unfold after. cbn [fs]. rewrite Horphans.
    unfold tag_of. by rewrite tags_of_rmtrees_revisions.
Qed.

End Wildcards.

Lemma accepted_names_hold_no_wildcard_witness :
  check_name "library/ubuntu:18.04" = true
  ∧ Glob.has_magic (split_image "" "library/ubuntu:18.04").1 = false.
Proof.
  split; [reflexivity|].
  exact (proj1 (accepted_names_hold_no_wildcard "library/ubuntu:18.04" eq_refl)).
Defined.

Lemma unmatched_pattern_sweeps_all_revisions_witness :
  isdir lone_bracket_store "a[b]" = true
  ∧ revisions_of lone_bracket_store "a[b]" = Some {["d1"]}
  ∧ glob_repos lone_bracket_store "a[b]" = []
  ∧ current_of lone_bracket_store "a[b]" "t1" = Some "d1"
  ∧ ¬ has_revision (fs (clean_repo prune_args "a[b]" (World lone_bracket_store [])).2)
        "a[b]" "d1".
Proof.
  split; [reflexivity|]. split; [reflexivity|]. split; [reflexivity|].
  split; [reflexivity|].
  exact (proj1 (proj2 (proj2
           (unmatched_pattern_sweeps_all_revisions prune_args "a[b]"
              (World lone_bracket_store []) {["d1"]}
              eq_refl eq_refl eq_refl eq_refl eq_refl))) "d1").
Defined.
